(** * Image downloader (js/image-downloader.js): a shallow embedding

    The script saves every image of the current page under a name derived
    from the page address.  This development embeds

    - the string helpers the script relies on ([String.prototype.split],
      [replace], [startsWith], [toLowerCase], the regular expressions),
    - the naming functions [getFileNameFromUrl] and [getFileExtension],
    - the platform classifier [getPlatform],
    - the event-driven life of an [ImageDownloader] object: timers, image
      load and encode callbacks, the share promise and the aggregate join.

    JavaScript strings are modelled by [string]; the characters that matter
    to the script (path separators, ASCII letters and digits) are ASCII.
    Calls into the DOM ([createElement], [click], [createObjectURL], ...)
    are taken to return normally; what the host decides -- whether an image
    loads, whether a blob is produced, whether a share is accepted, when a
    timer fires, how a URL parses -- is an input of the model. *)

From Stdlib Require Import List Arith Bool Lia Ascii String.
From Stdlib Require Import Decimal DecimalNat DecimalString.
Import ListNotations.
Local Open Scope string_scope.

(** ** JavaScript string primitives *)

Module JsString.

(** [s.split(sep)] for a one-character separator: never empty, the empty
    string splits into one empty segment. *)
Fixpoint split (sep : ascii) (s : string) : list string :=
  match s with
  | "" => [""]
  | String c r =>
      if (c =? sep)%char then "" :: split sep r
      else match split sep r with
           | seg :: segs => String c seg :: segs
           | [] => [String c ""]
           end
  end.

(** [segs.join(sep)], the inverse direction, used to state properties on
    paths given by their segments. *)
Fixpoint join (sep : ascii) (segs : list string) : string :=
  match segs with
  | [] => ""
  | [seg] => seg
  | seg :: rest => seg ++ String sep (join sep rest)
  end.

(** The match of [^c+]: the leading run of [c] is dropped. *)
Fixpoint strip_leading (c : ascii) (s : string) : string :=
  match s with
  | "" => ""
  | String a r => if (a =? c)%char then strip_leading c r else s
  end.

(** The match of [c+$]: the trailing run of [c] is dropped. *)
Fixpoint strip_trailing (c : ascii) (s : string) : string :=
  match s with
  | "" => ""
  | String a r =>
      let r' := strip_trailing c r in
      if ((a =? c)%char && (r' =? ""))%bool then "" else String a r'
  end.

(** [s.replace(/^\/+|\/+$/g, "")]: the global replace meets the leading run
    at offset 0 (first alternative) and the trailing run at its first slash
    (second alternative); a run in the middle is followed by another
    character, so [\/+$] fails on it. *)
Definition trim_slashes (s : string) : string :=
  strip_trailing "/" (strip_leading "/" s).

(** [s.replace(/c/g, "")]. *)
Fixpoint remove_char (c : ascii) (s : string) : string :=
  match s with
  | "" => ""
  | String a r =>
      if (a =? c)%char then remove_char c r else String a (remove_char c r)
  end.

(** [s.startsWith(p)]. *)
Definition startsWith (p s : string) : bool := prefix p s.

Definition in_range (lo hi : nat) (c : ascii) : bool :=
  let n := nat_of_ascii c in (Nat.leb lo n && Nat.leb n hi)%bool.

Definition is_upper : ascii -> bool := in_range 65 90.
Definition is_lower : ascii -> bool := in_range 97 122.
Definition is_digit : ascii -> bool := in_range 48 57.

(** The character class [[a-zA-Z0-9]]. *)
Definition is_alnum (c : ascii) : bool :=
  (is_lower c || is_upper c || is_digit c)%bool.

Definition lower_char (c : ascii) : ascii :=
  if is_upper c then ascii_of_nat (nat_of_ascii c + 32) else c.

Definition upper_char (c : ascii) : ascii :=
  if is_lower c then ascii_of_nat (nat_of_ascii c - 32) else c.

Fixpoint map_chars (f : ascii -> ascii) (s : string) : string :=
  match s with
  | "" => ""
  | String a r => String (f a) (map_chars f r)
  end.

(** [s.toLowerCase()] on the characters the script applies it to. *)
Definition toLowerCase : string -> string := map_chars lower_char.

(** Canonicalization of the [i] flag: both sides are upper-cased. *)
Definition canonicalize : string -> string := map_chars upper_char.

Fixpoint all_chars (f : ascii -> bool) (s : string) : bool :=
  match s with
  | "" => true
  | String a r => (f a && all_chars f r)%bool
  end.

(** A literal found somewhere in [s]: what [/lit/.test(s)] computes. *)
Fixpoint includes (lit s : string) : bool :=
  match s with
  | "" => prefix lit ""
  | String _ r => (prefix lit s || includes lit r)%bool
  end.

(** [/l1|l2|.../.test(s)] for literal alternatives. *)
Definition test_any (lits : list string) (s : string) : bool :=
  existsb (fun lit => includes lit s) lits.

(** [/l1|l2|.../i.test(s)]. *)
Definition test_any_i (lits : list string) (s : string) : bool :=
  existsb (fun lit => includes (canonicalize lit) (canonicalize s)) lits.

(** The greedy match of [[a-zA-Z0-9]*] at the head of [s], and what follows. *)
Fixpoint span_alnum (s : string) : string * string :=
  match s with
  | "" => ("", "")
  | String a r =>
      if is_alnum a then let (run, rest) := span_alnum r in (String a run, rest)
      else ("", s)
  end.

(** [(?:[?#]|$)] at the head of [s]. *)
Definition at_terminator (s : string) : bool :=
  match s with
  | "" => true
  | String a _ => ((a =? "?")%char || (a =? "#")%char)%bool
  end.

(** Capture group 1 of [s.match(/\.([a-zA-Z0-9]+)(?:[?#]|$)/)]: the leftmost
    offset at which the pattern matches.  At a given dot the greedy run is
    the only candidate: giving back characters leaves an alphanumeric
    character after the group, which is no terminator. *)
Fixpoint match_extension (s : string) : option string :=
  match s with
  | "" => None
  | String a r =>
      if (a =? ".")%char then
        let (run, rest) := span_alnum r in
        if (negb (run =? "") && at_terminator rest)%bool then Some run
        else match_extension r
      else match_extension r
  end.

(** Template-literal rendering of a non-negative integer. *)
Definition of_nat (n : nat) : string :=
  NilEmpty.string_of_uint (Nat.to_uint n).

(** The characters of [s] in reverse order. *)
Fixpoint rev_string (s : string) : string :=
  match s with
  | "" => ""
  | String a r => rev_string r ++ String a ""
  end.

(** Vocabulary for statements about paths: a run of [n] slashes, and a
    segment free of slashes. *)
Fixpoint slashes (n : nat) : string :=
  match n with
  | 0 => ""
  | S k => String "/" (slashes k)
  end.

Definition no_slash (s : string) : Prop :=
  all_chars (fun c => negb (c =? "/")%char) s = true.

End JsString.

Import JsString.

(** ** The browser around the script *)

(** What the script reads from its host: the [URL] constructor (its
    [pathname], or nothing when the constructor throws a [TypeError]),
    [navigator.userAgent], and the answer of [canShareFiles], that is of
    [navigator.share && navigator.canShare && navigator.canShare({files: []})]. *)
Record Browser := {
  URL_pathname : string -> option string;
  userAgent : string;
  share_files : bool
}.

(** A pathname as the URL parser hands it out: the path ends where the
    query ([?]) or the fragment ([#]) starts, so neither character occurs
    in it. *)
Definition path_char (c : ascii) : bool :=
  negb ((c =? "?")%char || (c =? "#")%char).

Definition pathname_wf (p : string) : Prop := all_chars path_char p = true.

(** A small URL parser for absolute hierarchical addresses
    [scheme://authority/path?query#fragment], enough to run the script on
    sample pages.  An address without [://] is rejected. *)
Fixpoint after_scheme (s : string) : option string :=
  match s with
  | String ":" (String "/" (String "/" r)) => Some r
  | String _ r => after_scheme r
  | "" => None
  end.

Fixpoint skip_authority (s : string) : string :=
  match s with
  | "" => ""
  | String a r =>
      if ((a =? "/")%char || (a =? "?")%char || (a =? "#")%char)%bool then s
      else skip_authority r
  end.

Fixpoint take_path (s : string) : string :=
  match s with
  | "" => ""
  | String a r => if path_char a then String a (take_path r) else ""
  end.

Definition simple_pathname (u : string) : option string :=
  match after_scheme u with
  | None => None
  | Some r =>
      match take_path (skip_authority r) with
      | "" => Some "/"
      | p => Some p
      end
  end.

Definition sample_browser (ua : string) (share : bool) : Browser :=
  {| URL_pathname := simple_pathname; userAgent := ua; share_files := share |}.

(** ** Naming *)

Section Naming.

Variable B : Browser.

(** [getFileNameFromUrl()], with [window.location.href] as argument.  The
    only statement of the [try] block that can throw is the [URL]
    constructor. *)
Definition getFileNameFromUrl (href : string) : string :=
  match URL_pathname B href with
  | None => "images"
  | Some pathname =>
      let cleanPath := trim_slashes pathname in
      let segments := split "/" cleanPath in
      if ((3 <=? List.length segments)%nat && (nth 0 segments "" =? "condo"))%bool
      then
        let condoName := remove_char "-" (nth 1 segments "") in
        let roomNumber := nth (List.length segments - 1) segments "" in
        let roomNumber :=
          if startsWith "#" roomNumber
          then nth (List.length segments - 2) segments ""
          else roomNumber in
        "condo_" ++ condoName ++ "_" ++ roomNumber
      else "images"
  end.

(** [getFileExtension(url)]; [None] is [null]. *)
Definition getFileExtension (url : string) : option string :=
  match URL_pathname B url with
  | None => None
  | Some pathname =>
      match match_extension pathname with
      | Some group1 => Some (toLowerCase group1)
      | None => None
      end
  end.

(** [x || "jpg"]: [null] and the empty string are falsy. *)
Definition or_jpg (x : option string) : string :=
  match x with
  | Some e => if e =? "" then "jpg" else e
  | None => "jpg"
  end.

(** The two names [processImage] computes for the image at [index] with
    source [url]: the download name and the page prefix. *)
Definition image_filename (href url : string) (index : nat) : string :=
  let extension := or_jpg (getFileExtension url) in
  let fileName := getFileNameFromUrl href in
  fileName ++ "_" ++ of_nat (index + 1) ++ "." ++ extension.

(** [getPlatform()]. *)
Inductive platform := ios | android | desktop.

Definition ios_tokens : list string := ["iPad"; "iPhone"; "iPod"].

Definition android_tokens : list string :=
  ["Android"; "webOS"; "BlackBerry"; "IEMobile"; "Opera Mini"].

Definition getPlatform : platform :=
  if test_any ios_tokens (userAgent B) then ios
  else if test_any_i android_tokens (userAgent B) then android
  else desktop.

End Naming.

(** ** The [ImageDownloader] object and its event loop *)

Module ImageDownloader.

(** The status element: its [style.background], its text
    ([textContent]/[innerHTML]) and whether it still has a [parentNode]. *)
Record div := {
  background : string;
  content : string;
  attached : bool
}.

(** Callbacks handed to [setTimeout]. *)
Inductive callback :=
| StartTask (i : nat)          (* () => this.processImage(this.images[i], i).then(resolve) *)
| RemoveStatusDisplay.         (* () => this.removeStatusDisplay() *)

Record timeout := { cb : callback; delay : nat }.

(** Life of the promise made for one image. *)
Inductive phase :=
| Scheduled                               (* timer set, [processImage] not yet called *)
| Loading (filename fileName : string)    (* [tempImg.src] set *)
| Encoding (filename fileName : string)   (* [canvas.toBlob] pending *)
| Sharing (filename : string)             (* [navigator.share] pending *)
| Saved                                   (* [handleImageDownload] returned, its [await] pending *)
| Resolved (success : bool).

(** A message put up by [showSuccess] or [showError]. *)
Record notice := { style : string; html : string; duration : nat }.

Inductive join_state := NotStarted | Awaiting | Completed.

Record t := {
  processedCount : nat;
  failedCount : nat;
  images : list string;          (* [img.src] of the queried elements, in document order *)
  statusDiv : option div;
  pending : list timeout;        (* timers set and not yet fired, in call order *)
  promises : list phase;         (* [imagePromises] *)
  downloads : list string;       (* [link.download] of every [downloadFile] *)
  shares : list string;          (* file names handed to [navigator.share] *)
  notices : list notice;         (* messages put up, oldest first *)
  join : join_state              (* [await Promise.all(imagePromises)] *)
}.

Definition with_counts (p f : nat) (d : t) : t :=
  {| processedCount := p; failedCount := f; images := images d;
     statusDiv := statusDiv d; pending := pending d; promises := promises d;
     downloads := downloads d; shares := shares d; notices := notices d;
     join := join d |}.

Definition with_statusDiv (s : option div) (d : t) : t :=
  {| processedCount := processedCount d; failedCount := failedCount d;
     images := images d; statusDiv := s; pending := pending d;
     promises := promises d; downloads := downloads d; shares := shares d;
     notices := notices d; join := join d |}.

Definition with_pending (l : list timeout) (d : t) : t :=
  {| processedCount := processedCount d; failedCount := failedCount d;
     images := images d; statusDiv := statusDiv d; pending := l;
     promises := promises d; downloads := downloads d; shares := shares d;
     notices := notices d; join := join d |}.

Definition with_promises (l : list phase) (d : t) : t :=
  {| processedCount := processedCount d; failedCount := failedCount d;
     images := images d; statusDiv := statusDiv d; pending := pending d;
     promises := l; downloads := downloads d; shares := shares d;
     notices := notices d; join := join d |}.

Definition with_downloads (l : list string) (d : t) : t :=
  {| processedCount := processedCount d; failedCount := failedCount d;
     images := images d; statusDiv := statusDiv d; pending := pending d;
     promises := promises d; downloads := l; shares := shares d;
     notices := notices d; join := join d |}.

Definition with_shares (l : list string) (d : t) : t :=
  {| processedCount := processedCount d; failedCount := failedCount d;
     images := images d; statusDiv := statusDiv d; pending := pending d;
     promises := promises d; downloads := downloads d; shares := l;
     notices := notices d; join := join d |}.

Definition with_notices (l : list notice) (d : t) : t :=
  {| processedCount := processedCount d; failedCount := failedCount d;
     images := images d; statusDiv := statusDiv d; pending := pending d;
     promises := promises d; downloads := downloads d; shares := shares d;
     notices := l; join := join d |}.

Definition with_join (j : join_state) (d : t) : t :=
  {| processedCount := processedCount d; failedCount := failedCount d;
     images := images d; statusDiv := statusDiv d; pending := pending d;
     promises := promises d; downloads := downloads d; shares := shares d;
     notices := notices d; join := j |}.

Definition setTimeout (c : callback) (ms : nat) (d : t) : t :=
  with_pending (pending d ++ [{| cb := c; delay := ms |}]) d.

(** The fields the constructor sets before it calls [init]. *)
Definition fresh (imgs : list string) : t :=
  {| processedCount := 0; failedCount := 0; images := imgs; statusDiv := None;
     pending := []; promises := []; downloads := []; shares := [];
     notices := []; join := NotStarted |}.

Definition createStatusDisplay (d : t) : t :=
  with_statusDiv
    (Some {| background := "#333"; content := ""; attached := true |}) d.

Definition status_text (d : t) : string :=
  if (0 <? failedCount d)%nat then
    "Processing: " ++ of_nat (processedCount d) ++ "/"
      ++ of_nat (List.length (images d)) ++ ", Failed: "
      ++ of_nat (failedCount d)
  else
    "Processing: " ++ of_nat (processedCount d) ++ "/"
      ++ of_nat (List.length (images d)).

Definition updateStatus (d : t) : t :=
  match statusDiv d with
  | Some el =>
      with_statusDiv
        (Some {| background := background el; content := status_text d;
                 attached := attached el |}) d
  | None => d
  end.

(** [showError(message, duration = 3000)]; [None] is an omitted argument. *)
Definition showError (message : string) (duration : option nat) (d : t) : t :=
  let duration := match duration with Some ms => ms | None => 3000 end in
  match statusDiv d with
  | Some el =>
      let d := with_statusDiv
                 (Some {| background := "#f44336"; content := message;
                          attached := attached el |}) d in
      let d := with_notices
                 (notices d ++ [{| style := "#f44336"; html := message;
                                   duration := duration |}]) d in
      setTimeout RemoveStatusDisplay duration d
  | None => d
  end.

(** [showSuccess(message, duration = 5000)]. *)
Definition showSuccess (message : string) (duration : option nat) (d : t) : t :=
  let duration := match duration with Some ms => ms | None => 5000 end in
  match statusDiv d with
  | Some el =>
      let d := with_statusDiv
                 (Some {| background := "#4CAF50"; content := message;
                          attached := attached el |}) d in
      let d := with_notices
                 (notices d ++ [{| style := "#4CAF50"; html := message;
                                   duration := duration |}]) d in
      setTimeout RemoveStatusDisplay duration d
  | None => d
  end.

Definition removeStatusDisplay (d : t) : t :=
  match statusDiv d with
  | Some el =>
      if attached el then
        with_statusDiv
          (Some {| background := background el; content := content el;
                   attached := false |}) d
      else d
  | None => d
  end.

(** [downloadFile(blob, filename)]: the anchor is clicked and released. *)
Definition downloadFile (filename : string) (d : t) : t :=
  with_downloads (downloads d ++ [filename]) d.

(** The loop of [processImages]: for [i] from [i] up, [remaining] more
    times, a promise is made whose executor sets the timer of task [i]. *)
Fixpoint schedule (interval i remaining : nat) (d : t) : t :=
  match remaining with
  | 0 => d
  | S k =>
      let d := setTimeout (StartTask i) (i * interval) d in
      let d := with_promises (promises d ++ [Scheduled]) d in
      schedule interval (S i) k d
  end.

(** [processImages()] up to its [await]. *)
Definition processImages (d : t) : t :=
  with_join Awaiting (schedule 200 0 (List.length (images d)) d).

(** [processImages()] after its [await]. *)
Definition processImages_resume (d : t) : t :=
  let successCount := processedCount d in
  let d := with_join Completed d in
  if (failedCount d =? 0)%nat then
    showSuccess
      ("Download complete! <br> " ++ of_nat successCount ++ " images downloaded")
      None d
  else if (0 <? failedCount d)%nat then
    showError
      ("Download failed! <br> " ++ of_nat (failedCount d) ++ "/"
         ++ of_nat (List.length (images d)) ++ " images failed to download")
      None d
  else d.

Definition init (d : t) : t :=
  if (List.length (images d) =? 0)%nat then
    showError "No images found on this page" None d
  else processImages (updateStatus (createStatusDisplay d)).

(** [new ImageDownloader()] on a page whose images have the sources [imgs]. *)
Definition new (imgs : list string) : t := init (fresh imgs).

Fixpoint set_nth {A : Type} (i : nat) (x : A) (l : list A) : list A :=
  match l, i with
  | [], _ => []
  | _ :: r, 0 => x :: r
  | a :: r, S k => a :: set_nth k x r
  end.

Definition set_phase (i : nat) (ph : phase) (d : t) : t :=
  with_promises (set_nth i ph (promises d)) d.

Fixpoint remove_nth {A : Type} (i : nat) (l : list A) : list A :=
  match l, i with
  | [], _ => []
  | _ :: r, 0 => r
  | a :: r, S k => a :: remove_nth k r
  end.

Section Handlers.

Variable B : Browser.

(** [processImage(img, index)] up to [tempImg.src = url]. *)
Definition processImage (href : string) (index : nat) (d : t) : t :=
  let url := nth index (images d) "" in
  let fileName := getFileNameFromUrl B href in
  let filename := image_filename B href url index in
  set_phase index (Loading filename fileName) d.

(** The three ways a task ends in failure: [onerror], the [catch] around
    drawing, and a [null] blob. *)
Definition fail_task (index : nat) (d : t) : t :=
  let d := with_counts (processedCount d) (failedCount d + 1) d in
  let d := updateStatus d in
  set_phase index (Resolved false) d.

(** [handleImageDownload(blob, filename, fileName)] up to its first
    suspension: either the share sheet is opened, or the file is saved. *)
Definition handleImageDownload (index : nat) (filename : string) (d : t) : t :=
  match getPlatform B with
  | android =>
      if share_files B then
        set_phase index (Sharing filename) (with_shares (shares d ++ [filename]) d)
      else set_phase index Saved (downloadFile filename d)
  | _ => set_phase index Saved (downloadFile filename d)
  end.

(** [downloadWithShareAPI]: [true] when the share promise fulfils, [false]
    from the [catch] when it rejects. *)
Definition downloadWithShareAPI (fulfilled : bool) : bool := fulfilled.

(** [handleImageDownload] after [await this.downloadWithShareAPI(...)]. *)
Definition handleImageDownload_resume
  (index : nat) (filename : string) (fulfilled : bool) (d : t) : t :=
  let shared := downloadWithShareAPI fulfilled in
  let d := if negb shared then downloadFile filename d else d in
  set_phase index Saved d.

(** The blob callback after [await this.handleImageDownload(...)]. *)
Definition succeed_task (index : nat) (d : t) : t :=
  let d := with_counts (processedCount d + 1) (failedCount d) d in
  let d := updateStatus d in
  set_phase index (Resolved true) d.

(** What the event loop can run next. *)
Inductive event :=
| Fire (k : nat) (href : string)     (* the [k]-th pending timer; [href] is the page address then *)
| OnError (i : nat)                  (* [tempImg.onerror] *)
| OnLoad (i : nat) (drawn : bool)    (* [tempImg.onload]; [drawn = false]: drawing or [toBlob] throws *)
| BlobReady (i : nat) (blob : bool)  (* the [toBlob] callback, with a blob or [null] *)
| ShareSettled (i : nat) (fulfilled : bool)
| Resume (i : nat)                   (* continuation of the blob callback *)
| AllSettled.                        (* continuation of [processImages] *)

Definition all_resolved (l : list phase) : bool :=
  forallb (fun ph => match ph with Resolved _ => true | _ => false end) l.

Definition step (e : event) (d : t) : option t :=
  match e with
  | Fire k href =>
      match nth_error (pending d) k with
      | Some tm =>
          let d := with_pending (remove_nth k (pending d)) d in
          match cb tm with
          | StartTask i => Some (processImage href i d)
          | RemoveStatusDisplay => Some (removeStatusDisplay d)
          end
      | None => None
      end
  | OnError i =>
      match nth_error (promises d) i with
      | Some (Loading _ _) => Some (fail_task i d)
      | _ => None
      end
  | OnLoad i drawn =>
      match nth_error (promises d) i with
      | Some (Loading filename fileName) =>
          if drawn then Some (set_phase i (Encoding filename fileName) d)
          else Some (fail_task i d)
      | _ => None
      end
  | BlobReady i blob =>
      match nth_error (promises d) i with
      | Some (Encoding filename fileName) =>
          if blob then Some (handleImageDownload i filename d)
          else Some (fail_task i d)
      | _ => None
      end
  | ShareSettled i fulfilled =>
      match nth_error (promises d) i with
      | Some (Sharing filename) =>
          Some (handleImageDownload_resume i filename fulfilled d)
      | _ => None
      end
  | Resume i =>
      match nth_error (promises d) i with
      | Some Saved => Some (succeed_task i d)
      | _ => None
      end
  | AllSettled =>
      match join d with
      | Awaiting =>
          if all_resolved (promises d) then Some (processImages_resume d)
          else None
      | _ => None
      end
  end.

Fixpoint run (es : list event) (d : t) : option t :=
  match es with
  | [] => Some d
  | e :: es' =>
      match step e d with
      | Some d' => run es' d'
      | None => None
      end
  end.

End Handlers.

Definition resolved_count (d : t) : nat :=
  List.length
    (filter (fun ph => match ph with Resolved _ => true | _ => false end)
       (promises d)).

Definition is_completion (e : event) : bool :=
  match e with
  | OnError _ | OnLoad _ false | BlobReady _ false | Resume _ => true
  | _ => false
  end.

End ImageDownloader.

(** ** The earlier, function-based [downloadAllImages]

    Same design without platform handling.  Only the parts that differ from
    the class are embedded: the status element exists from the start, the
    timers are 100ms apart, and the final message is written in place. *)

Module FunctionVersion.

Import ImageDownloader.

(** [statusDiv] after [document.body.appendChild(statusDiv)]. *)
Definition fresh (imgs : list string) : t :=
  with_statusDiv
    (Some {| background := "#333"; content := ""; attached := true |})
    (ImageDownloader.fresh imgs).

Definition write (bg text : string) (d : t) : t :=
  match statusDiv d with
  | Some el =>
      with_statusDiv
        (Some {| background := bg; content := text; attached := attached el |})
        d
  | None => d
  end.

Definition updateStatus (d : t) : t :=
  match statusDiv d with
  | Some el =>
      write (background el)
        ("Processing: " ++ of_nat (processedCount d) ++ "/"
           ++ of_nat (List.length (images d)) ++ ", Failed: "
           ++ of_nat (failedCount d)) d
  | None => d
  end.

(** A final message: written, recorded, and its removal timer set. *)
Definition finish (bg text : string) (ms : nat) (d : t) : t :=
  let d := write bg text d in
  let d := with_notices
             (notices d ++ [{| style := bg; html := text; duration := ms |}]) d in
  setTimeout RemoveStatusDisplay ms d.

Definition processImages (d : t) : t :=
  with_join Awaiting (schedule 100 0 (List.length (images d)) d).

Definition processImages_resume (d : t) : t :=
  let successCount := processedCount d in
  let d := with_join Completed d in
  finish (if (0 <? successCount)%nat then "#4CAF50" else "#f44336")
    ("Download complete! " ++ of_nat successCount
       ++ " images downloaded. Failed: " ++ of_nat (failedCount d))
    5000 d.

Definition downloadAllImages (imgs : list string) : t :=
  let d := fresh imgs in
  if (List.length (images d) =? 0)%nat then
    finish "#f44336" "No images found on this page" 3000 d
  else processImages (updateStatus d).

End FunctionVersion.

(** ** Vocabulary of the statements *)

(** A page path of the shape [/condo/{name}/.../{room}]: after any run of
    leading slashes come the segment [condo], the segment [name], any
    number of further segments, and a last, non-empty segment [room]; any
    run of slashes may follow.  Segments hold no slash; [name] and the
    middle segments may be empty. *)
Definition condo_path (p name : string) (mid : list string) (room : string) : Prop :=
  exists lead trail,
    p = slashes lead ++ join "/" ("condo" :: name :: mid ++ [room]) ++ slashes trail
    /\ Forall no_slash (name :: mid ++ [room])
    /\ room <> "".

(** The prefix as the specification words it: only the non-empty segments
    of the path count. *)
Definition nonempty_segments (p : string) : list string :=
  filter (fun seg => negb (seg =? "")) (split "/" p).

Definition derivePrefix_spec (pathname : option string) : string :=
  match pathname with
  | None => "images"
  | Some p =>
      let segs := nonempty_segments p in
      if ((3 <=? List.length segs)%nat && (nth 0 segs "" =? "condo"))%bool then
        let room := last segs "" in
        let room :=
          if startsWith "#" room then nth (List.length segs - 2) segs "" else room in
        "condo_" ++ remove_char "-" (nth 1 segs "") ++ "_" ++ room
      else "images"
  end.

(** [rest] starts with what ends an extension: [?], [#] or nothing. *)
Definition terminated (rest : string) : Prop :=
  rest = "" \/ exists r, rest = String "?" r \/ rest = String "#" r.

(** [ext] is the alphanumeric suffix after the last dot of [p], and it is
    terminated. *)
Definition extension_of (p ext : string) : Prop :=
  exists pre rest,
    p = pre ++ "." ++ ext ++ rest
    /\ ext <> ""
    /\ all_chars is_alnum ext = true
    /\ terminated rest
    /\ all_chars (fun c => negb (c =? ".")%char) rest = true.

(** [tok] occurs in [s]; [tok] occurs in [s] up to the case of ASCII
    letters. *)
Definition contains (tok s : string) : Prop :=
  exists pre post, s = pre ++ tok ++ post.

Definition contains_i (tok s : string) : Prop :=
  exists pre mid post,
    s = pre ++ mid ++ post /\ canonicalize mid = canonicalize tok.

Definition matches_ios (ua : string) : Prop :=
  exists tok, In tok ios_tokens /\ contains tok ua.

Definition matches_android (ua : string) : Prop :=
  exists tok, In tok android_tokens /\ contains_i tok ua.

(** Vocabulary for statements about runs. *)
Module RunSpec.

Import ImageDownloader.

(** The tasks whose start timer is still pending. *)
Definition starts (l : list timeout) : list nat :=
  flat_map (fun tm => match cb tm with
                      | StartTask i => [i]
                      | RemoveStatusDisplay => []
                      end) l.

Definition is_resolved (ph : phase) : bool :=
  match ph with Resolved _ => true | _ => false end.

(** The two final messages of the class, from the counters. *)
Definition success_notice (d : t) : notice :=
  {| style := "#4CAF50";
     html := "Download complete! <br> " ++ of_nat (processedCount d)
               ++ " images downloaded";
     duration := 5000 |}.

Definition failure_notice (d : t) : notice :=
  {| style := "#f44336";
     html := "Download failed! <br> " ++ of_nat (failedCount d) ++ "/"
               ++ of_nat (List.length (images d))
               ++ " images failed to download";
     duration := 3000 |}.

Definition final_notice (d : t) : notice :=
  if (failedCount d =? 0)%nat then success_notice d else failure_notice d.

(** The start timers [processImages] sets for tasks [i], ..., [i + n - 1]. *)
Definition timers (interval i n : nat) : list timeout :=
  map (fun j => {| cb := StartTask j; delay := j * interval |}) (seq i n).

(** What holds of every state a run over a page with images reaches. *)
Record Inv (imgs : list string) (d : t) : Prop := {
  inv_images : images d = imgs;
  inv_length : List.length (promises d) = List.length imgs;
  inv_count : resolved_count d = processedCount d + failedCount d;
  inv_nodup : NoDup (starts (pending d));
  inv_scheduled :
    forall i, In i (starts (pending d)) ->
              nth_error (promises d) i = Some Scheduled;
  inv_timer :
    forall i, nth_error (promises d) i = Some Scheduled ->
              In i (starts (pending d));
  inv_status : statusDiv d <> None;
  inv_started : join d <> NotStarted;
  inv_awaiting : join d = Awaiting -> notices d = [];
  inv_completed :
    join d = Completed ->
    all_resolved (promises d) = true /\ notices d = [final_notice d]
}.

(** [d'] is [d] with task [i] moved from phase [old] to phase [new] and
    the counters raised by [dp] and [df]; images, timers, messages and the
    join are as they were. *)
Record moves (i : nat) (old new : phase) (dp df : nat) (d d' : t) : Prop := {
  mv_old : nth_error (promises d) i = Some old;
  mv_new : promises d' = set_nth i new (promises d);
  mv_processed : processedCount d' = processedCount d + dp;
  mv_failed : failedCount d' = failedCount d + df;
  mv_images : images d' = images d;
  mv_pending : pending d' = pending d;
  mv_notices : notices d' = notices d;
  mv_join : join d' = join d;
  mv_status : statusDiv d <> None -> statusDiv d' <> None
}.

(** Every timer of the run fires while the page is at [href]. *)
Definition fired_at (href : string) (es : list event) : Prop :=
  Forall (fun e => match e with Fire _ h => h = href | _ => True end) es.

(** The names of a run as the specification has them: the prefix is
    derived once, then used for every image. *)
Definition filenames_prefix_once (B : Browser) (href : string) (imgs : list string)
  : list string :=
  let prefix := getFileNameFromUrl B href in
  map (fun '(index, url) =>
         prefix ++ "_" ++ of_nat (index + 1) ++ "." ++ or_jpg (getFileExtension B url))
      (combine (seq 0 (List.length imgs)) imgs).

(** The names a task carries in phase [ph] are those of image [i] in
    [filenames_prefix_once]. *)
Definition phase_named (B : Browser) (href : string) (imgs : list string)
  (i : nat) (ph : phase) : Prop :=
  match ph with
  | Loading f fn | Encoding f fn =>
      fn = getFileNameFromUrl B href
      /\ nth_error (filenames_prefix_once B href imgs) i = Some f
  | Sharing f => nth_error (filenames_prefix_once B href imgs) i = Some f
  | _ => True
  end.

Record InvNames (B : Browser) (href : string) (imgs : list string) (d : t)
  : Prop := {
  names_phases :
    forall i ph, nth_error (promises d) i = Some ph -> phase_named B href imgs i ph;
  names_downloads : incl (downloads d) (filenames_prefix_once B href imgs);
  names_shares : incl (shares d) (filenames_prefix_once B href imgs)
}.

(** The state a list of events leads to, for examples ([fresh []] stands
    for a list the event loop could not have run). *)
Definition state_after (B : Browser) (imgs : list string) (es : list event) : t :=
  match run B es (new imgs) with
  | Some d => d
  | None => fresh []
  end.

End RunSpec.

(** C4 as the specification states it, on a state: once the join has
    completed there is one final message, styled by the failure count and
    removed after five seconds. *)
Definition stated_final_message (d : ImageDownloader.t) : Prop :=
  ImageDownloader.join d = ImageDownloader.Completed ->
  exists n,
    ImageDownloader.notices d = [n]
    /\ ImageDownloader.duration n = 5000
    /\ (ImageDownloader.failedCount d = 0 -> ImageDownloader.style n = "#4CAF50")
    /\ (0 < ImageDownloader.failedCount d -> ImageDownloader.style n = "#f44336").

(** ** The start-up hook [hideDownloadButtonOnIOS] *)

Module Buttons.

(** An element of the document, as far as the hook looks at it: its local
    name, its [onclick] attribute if it has one, and [style.display]. *)
Record element := {
  tag : string;
  onclick : option string;
  display : string
}.

(** [el.matches('[onclick*="downloadAllImages"], button, a')]. *)
Definition selected (el : element) : bool :=
  ((match onclick el with
    | Some v => includes "downloadAllImages" v
    | None => false
    end)
   || (tag el =? "button") || (tag el =? "a"))%bool.

(** The body of the [forEach]. *)
Definition hide_if_wired (button : element) : element :=
  let onclick :=
    match onclick button with
    | Some v => if v =? "" then "" else v
    | None => ""
    end in
  let hasDownloadFunction := includes "downloadAllImages" onclick in
  if hasDownloadFunction then
    {| tag := tag button; onclick := Buttons.onclick button; display := "none" |}
  else button.

(** [hideDownloadButtonOnIOS()], on the user agent and the elements of the
    document in document order; the result is the document afterwards. *)
Definition hideDownloadButtonOnIOS (userAgent : string) (document : list element)
  : list element :=
  let isIOS := test_any ["iPad"; "iPhone"; "iPod"] userAgent in
  if isIOS then
    map (fun el => if selected el then hide_if_wired el else el) document
  else document.

(** The element is wired to the entry point. *)
Definition wired (el : element) : Prop :=
  exists v, onclick el = Some v /\ contains "downloadAllImages" v.

Definition wired_b (el : element) : bool :=
  match onclick el with
  | Some v => includes "downloadAllImages" v
  | None => false
  end.

(** What the hook does to one element on iOS. *)
Definition hide_one (el : element) : element :=
  if selected el then hide_if_wired el else el.

End Buttons.

(** ** The event loop of the function version *)

Module FunctionRun.

Import ImageDownloader.

Section Handlers.

Variable B : Browser.

(** The three failure exits of [downloadImage]. *)
Definition fail_task (index : nat) (d : t) : t :=
  let d := with_counts (processedCount d) (failedCount d + 1) d in
  let d := FunctionVersion.updateStatus d in
  set_phase index (Resolved false) d.

(** The [toBlob] callback with a blob: the link is clicked and released,
    then the task is counted and resolved, all in one turn. *)
Definition save_task (index : nat) (filename : string) (d : t) : t :=
  let d := downloadFile filename d in
  let d := with_counts (processedCount d + 1) (failedCount d) d in
  let d := FunctionVersion.updateStatus d in
  set_phase index (Resolved true) d.

(** The events of the function version: timers, [onerror], [onload], the
    [toBlob] callback and the continuation of [processImages].  The
    function computes the same two names as the class, by the same code. *)
Definition step (e : event) (d : t) : option t :=
  match e with
  | Fire k href =>
      match nth_error (pending d) k with
      | Some tm =>
          let d := with_pending (remove_nth k (pending d)) d in
          match cb tm with
          | StartTask i => Some (processImage B href i d)
          | RemoveStatusDisplay => Some (removeStatusDisplay d)
          end
      | None => None
      end
  | OnError i =>
      match nth_error (promises d) i with
      | Some (Loading _ _) => Some (fail_task i d)
      | _ => None
      end
  | OnLoad i drawn =>
      match nth_error (promises d) i with
      | Some (Loading filename fileName) =>
          if drawn then Some (set_phase i (Encoding filename fileName) d)
          else Some (fail_task i d)
      | _ => None
      end
  | BlobReady i blob =>
      match nth_error (promises d) i with
      | Some (Encoding filename _) =>
          if blob then Some (save_task i filename d)
          else Some (fail_task i d)
      | _ => None
      end
  | ShareSettled _ _ => None
  | Resume _ => None
  | AllSettled =>
      match join d with
      | Awaiting =>
          if all_resolved (promises d)
          then Some (FunctionVersion.processImages_resume d)
          else None
      | _ => None
      end
  end.

Fixpoint run (es : list event) (d : t) : option t :=
  match es with
  | [] => Some d
  | e :: es' =>
      match step e d with
      | Some d' => run es' d'
      | None => None
      end
  end.

End Handlers.

(** The state a list of events leads to, for examples. *)
Definition state_after (B : Browser) (imgs : list string) (es : list event) : t :=
  match run B es (FunctionVersion.downloadAllImages imgs) with
  | Some d => d
  | None => fresh []
  end.

End FunctionRun.

(** ** Vocabulary for statements about what a run shows and saves *)

Module RunView.

Import ImageDownloader RunSpec.

(** The status element while the run is under way. *)
Definition live (d : t) : div :=
  {| background := "#333"; content := status_text d; attached := true |}.

Definition is_start (tm : timeout) : bool :=
  match cb tm with StartTask _ => true | RemoveStatusDisplay => false end.

Definition is_success (ph : phase) : bool :=
  match ph with Resolved true => true | _ => false end.

Definition is_failure (ph : phase) : bool :=
  match ph with Resolved false => true | _ => false end.

(** The blob of the task was handed to [downloadFile] or to a share that
    was accepted. *)
Definition is_saved (ph : phase) : bool :=
  match ph with Saved | Resolved true => true | _ => false end.

(** No share sheet on this browser: not Android, or files cannot be shared. *)
Definition direct_route (B : Browser) : Prop :=
  getPlatform B <> android \/ share_files B = false.

(** The events a task may still cause, by phase. *)
Definition weight (ph : phase) : nat :=
  match ph with
  | Scheduled => 5
  | Loading _ _ => 4
  | Encoding _ _ => 3
  | Sharing _ => 2
  | Saved => 1
  | Resolved _ => 0
  end.

(** The same for the function version, which has no share and no [await]
    in the blob callback. *)
Definition function_weight (ph : phase) : nat :=
  match ph with
  | Scheduled => 3
  | Loading _ _ => 2
  | Encoding _ _ => 1
  | _ => 0
  end.

(** An upper bound on the events a state may still see: those of its
    tasks, one per pending removal timer, and two for a join that has yet
    to complete and to remove its message. *)
Definition potential (w : phase -> nat) (d : t) : nat :=
  list_sum (map w (promises d))
  + List.length (filter (fun tm => negb (is_start tm)) (pending d))
  + match join d with Awaiting => 2 | _ => 0 end.

(** The download name a task carries. *)
Definition phase_file (ph : phase) : option string :=
  match ph with
  | Loading f _ | Encoding f _ | Sharing f => Some f
  | _ => None
  end.

(** The status text of the function version. *)
Definition function_status_text (d : t) : string :=
  "Processing: " ++ of_nat (processedCount d) ++ "/"
    ++ of_nat (List.length (images d)) ++ ", Failed: "
    ++ of_nat (failedCount d).

(** The final message of the function version. *)
Definition function_final_notice (d : t) : notice :=
  {| style := if (0 <? processedCount d)%nat then "#4CAF50" else "#f44336";
     html := "Download complete! " ++ of_nat (processedCount d)
               ++ " images downloaded. Failed: " ++ of_nat (failedCount d);
     duration := 5000 |}.

Definition no_images_notice : notice :=
  {| style := "#f44336"; html := "No images found on this page";
     duration := 3000 |}.

(** One task moves from phase [old] to phase [new]: the counters rise by
    [dp] and [df], the names [dl] are handed to [downloadFile] and the
    names [sh] to [navigator.share]; the status text is rewritten from the
    new counters (by [text]) when a counter changes. *)
Record task_step (text : t -> string) (i : nat) (old new : phase)
  (dp df : nat) (dl sh : list string) (d d' : t) : Prop := {
  ts_old : nth_error (promises d) i = Some old;
  ts_new : promises d' = set_nth i new (promises d);
  ts_processed : processedCount d' = processedCount d + dp;
  ts_failed : failedCount d' = failedCount d + df;
  ts_images : images d' = images d;
  ts_notices : notices d' = notices d;
  ts_join : join d' = join d;
  ts_downloads : downloads d' = (downloads d ++ dl)%list;
  ts_shares : shares d' = (shares d ++ sh)%list;
  ts_status :
    statusDiv d' =
    if (dp + df =? 0)%nat then statusDiv d
    else option_map
           (fun el => {| background := background el; content := text d';
                         attached := attached el |})
           (statusDiv d)
}.

(** The moves a task of the class can make, one per handler exit. *)
Inductive class_rule (B : Browser)
  : event -> nat -> phase -> phase -> nat -> nat -> list string -> list string -> Prop :=
| R_error i f fn :
    class_rule B (OnError i) i (Loading f fn) (Resolved false) 0 1 [] []
| R_load i f fn :
    class_rule B (OnLoad i true) i (Loading f fn) (Encoding f fn) 0 0 [] []
| R_draw i f fn :
    class_rule B (OnLoad i false) i (Loading f fn) (Resolved false) 0 1 [] []
| R_noblob i f fn :
    class_rule B (BlobReady i false) i (Encoding f fn) (Resolved false) 0 1 [] []
| R_save i f fn :
    direct_route B ->
    class_rule B (BlobReady i true) i (Encoding f fn) Saved 0 0 [f] []
| R_share i f fn :
    getPlatform B = android -> share_files B = true ->
    class_rule B (BlobReady i true) i (Encoding f fn) (Sharing f) 0 0 [] [f]
| R_shared i f :
    class_rule B (ShareSettled i true) i (Sharing f) Saved 0 0 [] []
| R_fallback i f :
    class_rule B (ShareSettled i false) i (Sharing f) Saved 0 0 [f] []
| R_resume i :
    class_rule B (Resume i) i Saved (Resolved true) 1 0 [] [].

(** The moves a task of the function version can make. *)
Inductive function_rule
  : event -> nat -> phase -> phase -> nat -> nat -> list string -> list string -> Prop :=
| F_error i f fn :
    function_rule (OnError i) i (Loading f fn) (Resolved false) 0 1 [] []
| F_load i f fn :
    function_rule (OnLoad i true) i (Loading f fn) (Encoding f fn) 0 0 [] []
| F_draw i f fn :
    function_rule (OnLoad i false) i (Loading f fn) (Resolved false) 0 1 [] []
| F_noblob i f fn :
    function_rule (BlobReady i false) i (Encoding f fn) (Resolved false) 0 1 [] []
| F_save i f fn :
    function_rule (BlobReady i true) i (Encoding f fn) (Resolved true) 1 0 [f] [].

(** The steps of either event loop, seen as a relation: a start timer
    fires, the removal timer fires, a task moves by a rule, or the join
    completes with the continuation [resume]. *)
Inductive step_view (B : Browser) (text : t -> string)
  (rule : event -> nat -> phase -> phase -> nat -> nat
          -> list string -> list string -> Prop)
  (resume : t -> t) (d d' : t) : event -> Prop :=
| V_start k href tm i l1 l2 :
    pending d = (l1 ++ tm :: l2)%list -> cb tm = StartTask i ->
    d' = processImage B href i (with_pending (l1 ++ l2) d) ->
    step_view B text rule resume d d' (Fire k href)
| V_remove k href tm l1 l2 :
    pending d = (l1 ++ tm :: l2)%list -> cb tm = RemoveStatusDisplay ->
    d' = removeStatusDisplay (with_pending (l1 ++ l2) d) ->
    step_view B text rule resume d d' (Fire k href)
| V_task e i old new dp df dl sh :
    rule e i old new dp df dl sh ->
    task_step text i old new dp df dl sh d d' ->
    pending d' = pending d ->
    step_view B text rule resume d d' e
| V_join :
    join d = Awaiting -> all_resolved (promises d) = true ->
    d' = resume d ->
    step_view B text rule resume d d' AllSettled.

(** What both event loops keep about timers and promises. *)
Record Core (imgs : list string) (d : t) : Prop := {
  core_images : images d = imgs;
  core_length : List.length (promises d) = List.length imgs;
  core_nodup : NoDup (starts (pending d));
  core_scheduled :
    forall i, In i (starts (pending d)) ->
              nth_error (promises d) i = Some Scheduled;
  core_timer :
    forall i, nth_error (promises d) i = Some Scheduled ->
              In i (starts (pending d))
}.

(** What every rule of either version respects. *)
Definition sound_move (w : phase -> nat) (old new : phase) (dp df : nat)
  (dl sh : list string) : Prop :=
  old <> Scheduled
  /\ is_resolved old = false
  /\ new <> Scheduled
  /\ w new < w old
  /\ dp = (if is_success new then 1 else 0)
  /\ df = (if is_failure new then 1 else 0)
  /\ (forall f, phase_file new = Some f -> phase_file old = Some f)
  /\ (forall f, In f sh ->
                 (exists fn, old = Encoding f fn) /\ sh = [f] /\ new = Sharing f)
  /\ (forall f, old = Sharing f -> is_saved new = true)
  /\ (forall f, In f dl -> phase_file old = Some f /\ dl = [f] /\ is_saved new = true)
  /\ (is_saved old = true -> is_saved new = true).

Definition good_rule (w : phase -> nat)
  (rule : event -> nat -> phase -> phase -> nat -> nat
          -> list string -> list string -> Prop) : Prop :=
  (forall f fn, w (Loading f fn) < w Scheduled)
  /\ forall e i old new dp df dl sh,
       rule e i old new dp df dl sh -> sound_move w old new dp df dl sh.

(** A rule set in which a task gets saved only by [downloadFile]. *)
Definition saving_rule
  (rule : event -> nat -> phase -> phase -> nat -> nat
          -> list string -> list string -> Prop) : Prop :=
  forall e i old new dp df dl sh,
    rule e i old new dp df dl sh ->
    is_saved new = true -> is_saved old = false ->
    exists f, phase_file old = Some f /\ dl = [f].

(** What the continuation of [processImages] does, given the final message
    [final] of the version and its status text [text]. *)
Definition good_resume (text : t -> string) (final : t -> notice)
  (resume : t -> t) : Prop :=
  (forall d d',
      processedCount d' = processedCount d -> failedCount d' = failedCount d ->
      images d' = images d -> text d' = text d /\ final d' = final d)
  /\ forall el d,
       statusDiv d = Some el -> notices d = [] ->
       resume d =
       with_pending
         (pending d ++ [{| cb := RemoveStatusDisplay; delay := duration (final d) |}])
         (with_notices [final d]
            (with_statusDiv
               (Some {| background := style (final d); content := html (final d);
                        attached := attached el |})
               (with_join Completed d))).

(** What both event loops keep, stated once: timers and promises agree,
    each counter counts the tasks resolved its way, the status element
    shows the counters while the join is awaited, and the final message
    afterwards, until its removal timer fires. *)
Record Sound (text : t -> string) (final : t -> notice) (imgs : list string)
  (d : t) : Prop := {
  s_core : Core imgs d;
  s_success : processedCount d = List.length (filter is_success (promises d));
  s_failure : failedCount d = List.length (filter is_failure (promises d));
  s_idle : join d = NotStarted -> promises d = [];
  s_awaiting :
    join d = Awaiting ->
    statusDiv d = Some {| background := "#333"; content := text d; attached := true |}
    /\ notices d = []
    /\ forallb is_start (pending d) = true;
  s_completed :
    join d = Completed ->
    all_resolved (promises d) = true
    /\ notices d = [final d]
    /\ exists att,
         statusDiv d = Some {| background := style (final d);
                               content := html (final d); attached := att |}
         /\ pending d =
            if att then [{| cb := RemoveStatusDisplay; delay := duration (final d) |}]
            else []
}.

(** The names of the run, and what is saved under them. *)
Record Saves (names : list string) (d : t) : Prop := {
  sv_named :
    forall i ph f, nth_error (promises d) i = Some ph -> phase_file ph = Some f ->
                   nth_error names i = Some f;
  sv_downloads :
    forall f, In f (downloads d) ->
              exists i ph, nth_error names i = Some f
                           /\ nth_error (promises d) i = Some ph
                           /\ is_saved ph = true;
  sv_nodup : NoDup (downloads d);
  sv_shares :
    forall f, In f (shares d) ->
              exists i ph, nth_error names i = Some f
                           /\ nth_error (promises d) i = Some ph
                           /\ (ph = Sharing f \/ is_saved ph = true);
  sv_shares_nodup : NoDup (shares d)
}.

(** Every task whose blob was saved has its file among the downloads. *)
Definition all_saved (names : list string) (d : t) : Prop :=
  forall i ph f,
    nth_error (promises d) i = Some ph -> is_saved ph = true ->
    nth_error names i = Some f -> In f (downloads d).

(** No share is pending and none was made. *)
Definition no_sharing (d : t) : Prop :=
  shares d = [] /\ forall i f, nth_error (promises d) i <> Some (Sharing f).

(** The rules of the class that do not go through the share sheet. *)
Definition direct_rule (B : Browser)
  (e : event) (i : nat) (old new : phase) (dp df : nat) (dl sh : list string)
  : Prop :=
  class_rule B e i old new dp df dl sh
  /\ (forall f, old <> Sharing f) /\ (forall f, new <> Sharing f) /\ sh = [].

(** On the share route a file is saved directly only after it was handed
    to the share sheet. *)
Definition share_first (d : t) : Prop :=
  incl (downloads d) (shares d)
  /\ forall i f, nth_error (promises d) i = Some (Sharing f) -> In f (shares d).

(** The phases a task of the function version goes through. *)
Definition function_phase (ph : phase) : bool :=
  match ph with
  | Sharing _ | Saved => false
  | _ => true
  end.

(** Runs of a step function. *)
Fixpoint run_with (stepf : event -> t -> option t) (es : list event) (d : t)
  : option t :=
  match es with
  | [] => Some d
  | e :: es' =>
      match stepf e d with
      | Some d' => run_with stepf es' d'
      | None => None
      end
  end.

End RunView.

(** * Properties *)

(** ** Strings *)

Module StringFacts.

Lemma append_nil_r (s : string) : s ++ "" = s.
Proof. induction s as [|a s IH]; simpl; [reflexivity | now rewrite IH]. Qed.

Lemma append_assoc (a b c : string) : (a ++ b) ++ c = a ++ b ++ c.
Proof. induction a as [|x a IH]; simpl; [reflexivity | now rewrite IH]. Qed.

Lemma append_cancel_l (p a b : string) : p ++ a = p ++ b -> a = b.
Proof.
  induction p as [|x p IH]; simpl; intros H; [exact H|].
  injection H as H. now apply IH.
Qed.

Lemma all_chars_app (f : ascii -> bool) (a b : string) :
  all_chars f (a ++ b) = (all_chars f a && all_chars f b)%bool.
Proof.
  induction a as [|x a IH]; simpl; [reflexivity|].
  now rewrite IH, andb_assoc.
Qed.

Lemma split_nonempty (sep : ascii) (s : string) : split sep s <> [].
Proof.
  induction s as [|a s IH]; simpl; [discriminate|].
  destruct (a =? sep)%char; [discriminate|].
  destruct (split sep s); [contradiction | discriminate].
Qed.

Lemma split_no_sep (s : string) : no_slash s -> split "/" s = [s].
Proof.
  unfold no_slash.
  induction s as [|a s IH]; simpl; [reflexivity|].
  intros H. apply andb_prop in H as [Ha Hs].
  destruct (a =? "/")%char; [discriminate|].
  now rewrite (IH Hs).
Qed.

Lemma split_app_sep (seg rest : string) :
  no_slash seg ->
  split "/" (seg ++ String "/" rest) = seg :: split "/" rest.
Proof.
  unfold no_slash.
  induction seg as [|a seg IH]; simpl; [reflexivity|].
  intros H. apply andb_prop in H as [Ha Hs].
  destruct (a =? "/")%char; [discriminate|].
  now rewrite (IH Hs).
Qed.

(** Splitting undoes joining, when no segment holds a separator. *)
Lemma split_join (segs : list string) :
  segs <> [] -> Forall no_slash segs -> split "/" (join "/" segs) = segs.
Proof.
  induction segs as [|seg rest IH]; [congruence|].
  intros _ Hall. inversion Hall as [|? ? Hseg Hrest]; subst.
  destruct rest as [|seg' rest'].
  - simpl. now apply split_no_sep.
  - change (join "/" (seg :: seg' :: rest'))
      with (seg ++ String "/" (join "/" (seg' :: rest'))).
    rewrite split_app_sep by assumption.
    f_equal. apply IH; [discriminate | assumption].
Qed.

Lemma split_segments_no_slash (s : string) : Forall no_slash (split "/" s).
Proof.
  induction s as [|a s IH]; simpl.
  - constructor; [reflexivity | constructor].
  - destruct (a =? "/")%char eqn:Ha.
    + constructor; [reflexivity | assumption].
    + pose proof (split_nonempty "/" s) as Hne.
      destruct (split "/" s) as [|seg segs]; [contradiction|].
      inversion IH; subst. constructor; [|assumption].
      unfold no_slash in *. simpl. now rewrite Ha.
Qed.

(** Joining undoes splitting. *)
Lemma join_split (s : string) : join "/" (split "/" s) = s.
Proof.
  induction s as [|a s IH]; simpl; [reflexivity|].
  pose proof (split_nonempty "/" s) as Hne.
  destruct (a =? "/")%char eqn:Ha.
  - apply Ascii.eqb_eq in Ha. subst a.
    destruct (split "/" s) as [|seg segs]; [contradiction|].
    simpl in *. now rewrite IH.
  - destruct (split "/" s) as [|seg segs]; [contradiction|].
    destruct segs; simpl in *; now rewrite <- IH.
Qed.

Lemma join_snoc (l : list string) (x : string) :
  l <> [] -> join "/" (l ++ [x]) = join "/" l ++ String "/" x.
Proof.
  induction l as [|a l IH]; [congruence|]. intros _.
  destruct l as [|b l]; [reflexivity|].
  change (join "/" ((a :: b :: l) ++ [x]))
    with (a ++ String "/" (join "/" ((b :: l) ++ [x]))).
  rewrite IH by discriminate.
  change (join "/" (a :: b :: l)) with (a ++ String "/" (join "/" (b :: l))).
  now rewrite append_assoc.
Qed.

Lemma strip_leading_slashes (n : nat) (s : string) :
  strip_leading "/" (slashes n ++ s) = strip_leading "/" s.
Proof. induction n as [|n IH]; simpl; [reflexivity | exact IH]. Qed.

Lemma strip_leading_decomp (s : string) :
  exists n, s = slashes n ++ strip_leading "/" s.
Proof.
  induction s as [|a s [n IH]]; [now exists 0|].
  simpl. destruct (a =? "/")%char eqn:Ha.
  - apply Ascii.eqb_eq in Ha. subst a. exists (S n). simpl. now rewrite <- IH.
  - now exists 0.
Qed.

Lemma strip_trailing_slashes_only (n : nat) : strip_trailing "/" (slashes n) = "".
Proof. induction n as [|n IH]; simpl; [reflexivity | now rewrite IH]. Qed.

Lemma strip_trailing_slashes (s : string) (n : nat) :
  strip_trailing "/" (s ++ slashes n) = strip_trailing "/" s.
Proof.
  induction s as [|a s IH]; simpl.
  - apply strip_trailing_slashes_only.
  - now rewrite IH.
Qed.

Lemma strip_trailing_no_slash (t : string) :
  no_slash t -> strip_trailing "/" t = t.
Proof.
  unfold no_slash. induction t as [|a t IH]; simpl; [reflexivity|].
  intros H. apply andb_prop in H as [Ha Ht].
  rewrite (IH Ht). destruct (a =? "/")%char; [discriminate | reflexivity].
Qed.

Lemma append_nonempty_r (s t : string) : t <> "" -> s ++ t <> "".
Proof. destruct s; simpl; [auto | discriminate]. Qed.

(** A path that ends in a non-empty slash-free segment keeps its tail. *)
Lemma strip_trailing_app (s t : string) :
  t <> "" -> no_slash t -> strip_trailing "/" (s ++ t) = s ++ t.
Proof.
  intros Hne Hns. induction s as [|a s IH]; simpl.
  - now apply strip_trailing_no_slash.
  - rewrite IH.
    destruct (s ++ t) eqn:E; [now apply append_nonempty_r in E|].
    now rewrite andb_false_r.
Qed.

Lemma strip_trailing_decomp (s : string) :
  exists n, s = strip_trailing "/" s ++ slashes n.
Proof.
  induction s as [|a s [n IH]]; [now exists 0|].
  simpl. destruct (a =? "/")%char eqn:Ha; simpl.
  - destruct (strip_trailing "/" s) eqn:E; simpl.
    + apply Ascii.eqb_eq in Ha. subst a. exists (S n). simpl. now rewrite IH at 1.
    + exists n. now rewrite IH at 1.
  - exists n. now rewrite IH at 1.
Qed.

(** What is left after trimming is empty or ends in a character other
    than a slash. *)
Lemma strip_trailing_shape (s : string) :
  strip_trailing "/" s = "" \/
  exists s' c, strip_trailing "/" s = s' ++ String c "" /\ (c =? "/")%char = false.
Proof.
  induction s as [|a s IH]; [now left|].
  simpl. destruct IH as [E | (s' & c & E & Hc)]; rewrite E.
  - destruct (a =? "/")%char eqn:Ha; simpl; [now left|].
    right. exists "", a. now split.
  - right. exists (String a s'), c.
    destruct s'; simpl; rewrite andb_false_r; now split.
Qed.

Lemma split_last_nonempty (s : string) (c : ascii) :
  (c =? "/")%char = false -> last (split "/" (s ++ String c "")) "" <> "".
Proof.
  intros Hc. induction s as [|a s IH]; simpl.
  - rewrite Hc. discriminate.
  - pose proof (split_nonempty "/" (s ++ String c "")) as Hne.
    destruct (split "/" (s ++ String c "")) as [|seg segs]; [contradiction|].
    destruct (a =? "/")%char; [exact IH|].
    destruct segs; [discriminate | exact IH].
Qed.

Lemma trim_decomp (p : string) :
  exists lead trail, p = slashes lead ++ trim_slashes p ++ slashes trail.
Proof.
  destruct (strip_leading_decomp p) as [n Hn].
  destruct (strip_trailing_decomp (strip_leading "/" p)) as [m Hm].
  exists n, m. unfold trim_slashes. now rewrite <- Hm.
Qed.

Lemma trim_join (lead trail : nat) (first : string) (rest : list string) (room : string) :
  first <> "" -> no_slash first -> room <> "" -> no_slash room ->
  trim_slashes (slashes lead ++ join "/" (first :: rest ++ [room]) ++ slashes trail)
  = join "/" (first :: rest ++ [room]).
Proof.
  intros Hf Hfs Hr Hrs. unfold trim_slashes.
  rewrite strip_leading_slashes.
  assert (Hhead : forall x, strip_leading "/" (join "/" (first :: rest ++ [room]) ++ x)
                         = join "/" (first :: rest ++ [room]) ++ x).
  { intros x. destruct first as [|a first]; [congruence|].
    unfold no_slash in Hfs. simpl in Hfs. apply andb_prop in Hfs as [Ha _].
    destruct (rest ++ [room])%list eqn:E; [now destruct rest|].
    simpl. now destruct (a =? "/")%char. }
  rewrite Hhead, strip_trailing_slashes.
  change (first :: rest ++ [room])%list with ((first :: rest) ++ [room])%list.
  rewrite join_snoc by discriminate.
  replace (join "/" (first :: rest) ++ String "/" room)
    with ((join "/" (first :: rest) ++ "/") ++ room)
    by now rewrite append_assoc.
  now apply strip_trailing_app.
Qed.

End StringFacts.

(** ** The filename prefix *)

Section PrefixFacts.

Import StringFacts.

Variable B : Browser.

Lemma nth_length_last {A : Type} (l : list A) (a d : A) :
  nth (List.length l) (a :: l) d = last (a :: l) d.
Proof.
  revert a. induction l as [|b l IH]; intros a; [reflexivity|].
  change (nth (List.length (b :: l)) (a :: b :: l) d)
    with (nth (List.length l) (b :: l) d).
  rewrite IH. reflexivity.
Qed.

Lemma condo_segments (p name : string) (mid : list string) (room : string) :
  condo_path p name mid room ->
  split "/" (trim_slashes p) = "condo" :: name :: mid ++ [room].
Proof.
  intros (lead & trail & -> & Hns & Hroom).
  assert (Hr : no_slash room).
  { apply Forall_inv_tail in Hns. apply Forall_app in Hns as [_ Hr].
    now inversion Hr. }
  pose proof (trim_join lead trail "condo" (name :: mid) room) as Htrim.
  change ("condo" :: (name :: mid) ++ [room])%list
    with ("condo" :: name :: mid ++ [room])%list in Htrim.
  rewrite Htrim; [| discriminate | reflexivity | assumption | assumption].
  apply split_join; [discriminate|].
  constructor; [reflexivity | assumption].
Qed.

Lemma segments_condo (p : string) (segs : list string) :
  split "/" (trim_slashes p) = segs ->
  (3 <=? List.length segs)%nat = true ->
  nth 0 segs "" = "condo" ->
  exists name mid room, condo_path p name mid room.
Proof.
  intros Hsplit Hlen Hfirst.
  apply Nat.leb_le in Hlen.
  destruct segs as [|first [|name tail]]; simpl in Hlen; try lia.
  simpl in Hfirst. subst first.
  destruct (exists_last (l := tail)) as (mid & room & ->).
  { destruct tail; simpl in Hlen; [lia | discriminate]. }
  exists name, mid, room.
  destruct (trim_decomp p) as (lead & trail & Hp).
  exists lead, trail. split; [|split].
  - rewrite <- Hsplit, join_split. exact Hp.
  - pose proof (split_segments_no_slash (trim_slashes p)) as Hns.
    rewrite Hsplit in Hns. now apply Forall_inv_tail in Hns.
  - assert (Hlast : last (split "/" (trim_slashes p)) "" = room).
    { rewrite Hsplit.
      change ("condo" :: name :: mid ++ [room])%list
        with (("condo" :: name :: mid) ++ [room])%list.
      apply last_last. }
    unfold trim_slashes in Hlast, Hsplit.
    destruct (strip_trailing_shape (strip_leading "/" p)) as [E | (s' & c & E & Hc)].
    + rewrite E in Hsplit. discriminate.
    + rewrite E in Hlast. rewrite <- Hlast. now apply split_last_nonempty.
Qed.

(** C2 (as amended).  A page path that, once its leading and trailing
    slashes are dropped and the rest is cut at every slash, has at least
    three segments of which the first is [condo] -- empty segments in the
    middle count -- yields [condo_{name without hyphens}_{room}], where
    [room] is the last segment, or the segment before it when the last one
    starts with [#].  Every other path, and every address the URL
    constructor rejects, yields [images]; no exception leaves the function. *)
Theorem getFileNameFromUrl_shapes (href : string) :
  (URL_pathname B href = None -> getFileNameFromUrl B href = "images") /\
  (forall p name mid room,
      URL_pathname B href = Some p ->
      condo_path p name mid room ->
      getFileNameFromUrl B href =
      "condo_" ++ remove_char "-" name ++ "_" ++
        (if startsWith "#" room then last (name :: mid) "" else room)) /\
  (forall p,
      URL_pathname B href = Some p ->
      (forall name mid room, ~ condo_path p name mid room) ->
      getFileNameFromUrl B href = "images").
Proof.
  unfold getFileNameFromUrl. repeat split.
  - intros ->. reflexivity.
  - intros p name mid room -> Hshape.
    cbv zeta. rewrite (condo_segments _ _ _ _ Hshape).
    set (segs := ("condo" :: name :: mid ++ [room])%list).
    assert (Hlen : List.length segs = List.length mid + 3).
    { unfold segs. simpl. rewrite length_app. simpl. lia. }
    rewrite Hlen.
    replace (3 <=? List.length mid + 3)%nat with true
      by (symmetry; apply Nat.leb_le; lia).
    replace (List.length mid + 3 - 1) with (S (S (List.length mid))) by lia.
    replace (List.length mid + 3 - 2) with (S (List.length mid)) by lia.
    change (nth 0 segs "") with "condo".
    change (nth 1 segs "") with name.
    change (nth (S (S (List.length mid))) segs "")
      with (nth (List.length mid) (mid ++ [room]) "").
    change (nth (S (List.length mid)) segs "")
      with (nth (List.length mid) ((name :: mid) ++ [room]) "").
    rewrite nth_middle, app_nth1 by (simpl; lia).
    rewrite nth_length_last. reflexivity.
  - intros p -> Hnone. cbv zeta.
    destruct (3 <=? List.length (split "/" (trim_slashes p)))%nat eqn:Hlen;
      [|reflexivity].
    destruct (String.eqb_spec (nth 0 (split "/" (trim_slashes p)) "") "condo")
      as [Hfirst|]; [|reflexivity].
    exfalso.
    destruct (segments_condo p _ eq_refl Hlen Hfirst) as (name & mid & room & H).
    exact (Hnone name mid room H).
Qed.

End PrefixFacts.

(** A page of a condominium listing, run through the sample parser. *)
Lemma getFileNameFromUrl_shapes_witness :
  getFileNameFromUrl (sample_browser "" false)
    "https://example.com/condo/the-park/tower-a/1205/?tab=photos"
  = "condo_thepark_1205"
  /\ getFileNameFromUrl (sample_browser "" false) "not an address" = "images"
  /\ getFileNameFromUrl (sample_browser "" false) "https://example.com/rooms/12/a"
     = "images".
Proof.
  split; [|split].
  - apply (proj1 (proj2 (getFileNameFromUrl_shapes (sample_browser "" false)
                           "https://example.com/condo/the-park/tower-a/1205/?tab=photos"))
             "/condo/the-park/tower-a/1205/" "the-park" ["tower-a"] "1205").
    + reflexivity.
    + exists 1, 1. split; [reflexivity|]. split; [|discriminate].
      repeat constructor.
  - apply (proj1 (getFileNameFromUrl_shapes (sample_browser "" false) "not an address")).
    reflexivity.
  - apply (proj2 (proj2 (getFileNameFromUrl_shapes (sample_browser "" false)
                           "https://example.com/rooms/12/a")) "/rooms/12/a").
    + reflexivity.
    + intros name mid room Hshape.
      apply condo_segments in Hshape. discriminate.
Defined.

(** C2, as stated, fails where a middle segment is empty: the path
    [/condo//1205] has two non-empty segments, so the specification's
    wording yields [images], while the script counts three segments. *)
Lemma getFileNameFromUrl_empty_segment_counterexample :
  let B := sample_browser "" false in
  let href := "https://example.com/condo//1205" in
  URL_pathname B href = Some "/condo//1205"
  /\ nonempty_segments "/condo//1205" = ["condo"; "1205"]
  /\ derivePrefix_spec (URL_pathname B href) = "images"
  /\ getFileNameFromUrl B href = "condo__1205"
  /\ getFileNameFromUrl B href <> derivePrefix_spec (URL_pathname B href).
Proof.
  cbv zeta. repeat split; try reflexivity. discriminate.
Qed.

(** ** The extension *)

Section ExtensionFacts.

Import StringFacts.

Lemma span_alnum_spec (s run rest : string) :
  span_alnum s = (run, rest) ->
  s = run ++ rest
  /\ all_chars is_alnum run = true
  /\ (rest = "" \/ exists c r, rest = String c r /\ is_alnum c = false).
Proof.
  revert run rest. induction s as [|a s IH]; simpl; intros run rest H.
  - injection H as <- <-. auto.
  - destruct (is_alnum a) eqn:Ha.
    + destruct (span_alnum s) as [run' rest'] eqn:E.
      injection H as <- <-.
      destruct (IH _ _ eq_refl) as (-> & Hrun & Hrest).
      simpl. rewrite Ha, Hrun. auto.
    + injection H as <- <-. repeat split. right. now exists a, s.
Qed.

Lemma span_alnum_all (ext : string) :
  all_chars is_alnum ext = true -> span_alnum ext = (ext, "").
Proof.
  induction ext as [|a ext IH]; simpl; [reflexivity|].
  intros H. apply andb_prop in H as [Ha Hext].
  now rewrite Ha, (IH Hext).
Qed.

(** What the pattern finds is a dot, a non-empty alphanumeric run, and a
    terminator. *)
Lemma match_extension_sound (s e : string) :
  match_extension s = Some e ->
  exists pre rest,
    s = pre ++ "." ++ e ++ rest
    /\ e <> "" /\ all_chars is_alnum e = true /\ at_terminator rest = true.
Proof.
  induction s as [|a s IH]; simpl; [discriminate|].
  intros H.
  assert (Hrec : match_extension s = Some e ->
                 exists pre rest,
                   String a s = pre ++ "." ++ e ++ rest
                   /\ e <> "" /\ all_chars is_alnum e = true
                   /\ at_terminator rest = true).
  { intros H'. destruct (IH H') as (pre & rest & -> & He).
    now exists (String a pre), rest. }
  destruct (a =? ".")%char eqn:Ha; [|auto].
  destruct (span_alnum s) as [run rest] eqn:E.
  destruct (run =? "") eqn:Hrun; simpl in H; [auto|].
  destruct (at_terminator rest) eqn:Hterm; [|auto].
  injection H as <-.
  apply Ascii.eqb_eq in Ha. subst a.
  destruct (span_alnum_spec _ _ _ E) as (-> & Halnum & _).
  exists "", rest. repeat split; try assumption.
  now apply String.eqb_neq.
Qed.

(** In a pathname, the pattern finds the alphanumeric run that ends the
    string, whatever dots come before. *)
Lemma match_extension_suffix (pre ext : string) :
  pathname_wf (pre ++ "." ++ ext) ->
  ext <> "" -> all_chars is_alnum ext = true ->
  match_extension (pre ++ "." ++ ext) = Some ext.
Proof.
  intros Hwf Hne Halnum. induction pre as [|a pre IH].
  - simpl. rewrite (span_alnum_all _ Halnum).
    apply String.eqb_neq in Hne. now rewrite Hne.
  - unfold pathname_wf in Hwf. simpl in Hwf.
    apply andb_prop in Hwf as [Ha Hwf].
    specialize (IH Hwf).
    change (match_extension (String a pre ++ "." ++ ext))
      with (if (a =? ".")%char
            then let (run, rest) := span_alnum (pre ++ "." ++ ext) in
                 if (negb (run =? "") && at_terminator rest)%bool then Some run
                 else match_extension (pre ++ "." ++ ext)
            else match_extension (pre ++ "." ++ ext)).
    destruct (a =? ".")%char; [|exact IH].
    destruct (span_alnum (pre ++ "." ++ ext)) as [run rest] eqn:E.
    destruct (span_alnum_spec _ _ _ E) as (Heq & Hrun & Hrest).
    destruct Hrest as [-> | (c & r & -> & Hc)].
    + rewrite append_nil_r in Heq. rewrite <- Heq in Hrun.
      rewrite all_chars_app in Hrun. simpl in Hrun.
      now rewrite andb_false_r in Hrun.
    + assert (Hwf' : all_chars path_char (run ++ String c r) = true)
        by (rewrite <- Heq; exact Hwf).
      rewrite all_chars_app in Hwf'. apply andb_prop in Hwf' as [_ Hwf'].
      simpl in Hwf'. apply andb_prop in Hwf' as [Hpc _].
      unfold path_char in Hpc. apply negb_true_iff in Hpc.
      simpl. rewrite Hpc, andb_false_r. exact IH.
Qed.

Lemma terminated_wf (rest : string) :
  all_chars path_char rest = true -> terminated rest -> rest = "".
Proof.
  intros Hwf [-> | (r & [-> | ->])]; [reflexivity | discriminate | discriminate].
Qed.

Lemma at_terminator_terminated (rest : string) :
  at_terminator rest = true -> terminated rest.
Proof.
  destruct rest as [|a r]; [now left|]. simpl. intros H. right. exists r.
  apply orb_prop in H as [H | H]; apply Ascii.eqb_eq in H; subst; auto.
Qed.

Lemma toLowerCase_nonempty (s : string) : s <> "" -> toLowerCase s <> "".
Proof. destruct s; [congruence | discriminate]. Qed.

Lemma alnum_not_dot (s : string) :
  all_chars is_alnum s = true ->
  all_chars (fun c => negb (c =? ".")%char) s = true.
Proof.
  induction s as [|a s IH]; simpl; [reflexivity|].
  intros H. apply andb_prop in H as [Ha Hs]. rewrite (IH Hs), andb_true_r.
  destruct (Ascii.eqb_spec a "."); [now subst a | reflexivity].
Qed.

Lemma wf_rest (pre ext rest : string) :
  pathname_wf (pre ++ "." ++ ext ++ rest) -> all_chars path_char rest = true.
Proof.
  unfold pathname_wf. rewrite all_chars_app. intros H.
  apply andb_prop in H as [_ H].
  change ("." ++ ext ++ rest) with (String "." (ext ++ rest)) in H.
  simpl in H. rewrite all_chars_app in H. now apply andb_prop in H as [_ H].
Qed.

(** In a pathname the only terminator is the end of the string. *)
Lemma extension_of_match (p ext : string) :
  pathname_wf p -> extension_of p ext -> match_extension p = Some ext.
Proof.
  intros Hwf (pre & rest & Heq & Hne & Halnum & Hterm & _).
  assert (rest = "") as ->.
  { apply terminated_wf; [|assumption].
    rewrite Heq in Hwf. exact (wf_rest _ _ _ Hwf). }
  rewrite append_nil_r in Heq. subst p.
  now apply match_extension_suffix.
Qed.

Lemma match_extension_of (p e : string) :
  pathname_wf p -> match_extension p = Some e -> extension_of p e.
Proof.
  intros Hwf E.
  destruct (match_extension_sound _ _ E) as (pre & rest & Heq & Hne & Halnum & Hterm).
  apply at_terminator_terminated in Hterm.
  exists pre, rest. repeat split; try assumption.
  assert (rest = "") as ->; [|reflexivity].
  apply terminated_wf; [|assumption].
  rewrite Heq in Hwf. exact (wf_rest _ _ _ Hwf).
Qed.

Variable B : Browser.

Hypothesis pathnames_wf :
  forall u p, URL_pathname B u = Some p -> pathname_wf p.

(** C5.  For a URL constructor whose pathnames are well formed (no [?], no
    [#]): [getFileExtension] yields the lower-cased alphanumeric suffix that
    follows the last dot of the URL's path when that suffix is terminated
    by [?], [#] or the end of the path; it yields [null] when the path has
    no such suffix or the URL does not parse, and [processImage] then uses
    [jpg]. *)
Theorem getFileExtension_spec (url : string) :
  (URL_pathname B url = None -> getFileExtension B url = None) /\
  (forall p ext,
      URL_pathname B url = Some p ->
      extension_of p ext ->
      getFileExtension B url = Some (toLowerCase ext)
      /\ or_jpg (getFileExtension B url) = toLowerCase ext) /\
  (forall p,
      URL_pathname B url = Some p ->
      (forall ext, ~ extension_of p ext) ->
      getFileExtension B url = None) /\
  (getFileExtension B url = None ->
   forall href index,
     image_filename B href url index =
     getFileNameFromUrl B href ++ "_" ++ of_nat (index + 1) ++ ".jpg").
Proof.
  unfold getFileExtension. split; [|split; [|split]].
  - intros ->. reflexivity.
  - intros p ext Hp Hext.
    pose proof (pathnames_wf _ _ Hp) as Hwf. rewrite Hp.
    rewrite (extension_of_match _ _ Hwf Hext).
    split; [reflexivity|]. simpl.
    destruct Hext as (_ & _ & _ & Hne & _).
    pose proof (toLowerCase_nonempty _ Hne) as Hlow.
    apply String.eqb_neq in Hlow. now rewrite Hlow.
  - intros p Hp Hnone. rewrite Hp.
    destruct (match_extension p) as [e|] eqn:E; [|reflexivity].
    exfalso. apply (Hnone e).
    apply match_extension_of; [|assumption]. exact (pathnames_wf _ _ Hp).
  - intros Hnull href index. unfold image_filename, getFileExtension.
    rewrite Hnull. reflexivity.
Qed.

End ExtensionFacts.

Lemma take_path_wf (s : string) : pathname_wf (take_path s).
Proof.
  unfold pathname_wf. induction s as [|a s IH]; simpl; [reflexivity|].
  destruct (path_char a) eqn:Ha; simpl; [now rewrite Ha | reflexivity].
Qed.

(** The sample parser hands out well-formed pathnames. *)
Lemma simple_pathname_wf (u p : string) :
  simple_pathname u = Some p -> pathname_wf p.
Proof.
  unfold simple_pathname. destruct (after_scheme u) as [r|]; [|discriminate].
  pose proof (take_path_wf (skip_authority r)) as Hwf.
  destruct (take_path (skip_authority r)); intros H; injection H as <-.
  - reflexivity.
  - exact Hwf.
Qed.

(** An image of a content server, and one without a usable suffix. *)
Lemma getFileExtension_spec_witness :
  getFileExtension (sample_browser "" false)
    "https://cdn.example.com/photos/Room.v2.JPG?w=800#top" = Some "jpg"
  /\ getFileExtension (sample_browser "" false) "photo.png" = None
  /\ getFileExtension (sample_browser "" false)
       "https://cdn.example.com/photos/room.d/12" = None.
Proof.
  pose proof (getFileExtension_spec (sample_browser "" false) simple_pathname_wf)
    as Hspec.
  split; [|split].
  - apply (proj1 (proj2 (Hspec "https://cdn.example.com/photos/Room.v2.JPG?w=800#top"))
             "/photos/Room.v2.JPG" "JPG").
    + reflexivity.
    + exists "/photos/Room.v2", "". repeat split; try reflexivity.
      * discriminate.
      * now left.
  - apply (proj1 (Hspec "photo.png")). reflexivity.
  - apply (proj1 (proj2 (proj2 (Hspec "https://cdn.example.com/photos/room.d/12")))
             "/photos/room.d/12").
    + reflexivity.
    + intros ext Hext.
      apply extension_of_match in Hext; [discriminate | reflexivity].
Defined.

(** ** Download names *)

Section FilenameFacts.

Import StringFacts.

Lemma rev_string_app (a b : string) :
  rev_string (a ++ b) = rev_string b ++ rev_string a.
Proof.
  induction a as [|x a IH]; simpl.
  - now rewrite append_nil_r.
  - now rewrite IH, append_assoc.
Qed.

Lemma rev_string_involutive (s : string) : rev_string (rev_string s) = s.
Proof.
  induction s as [|x s IH]; simpl; [reflexivity|].
  now rewrite rev_string_app, IH.
Qed.

Lemma all_chars_rev (f : ascii -> bool) (s : string) :
  all_chars f (rev_string s) = all_chars f s.
Proof.
  induction s as [|x s IH]; simpl; [reflexivity|].
  rewrite all_chars_app, IH. simpl. rewrite andb_true_r. apply andb_comm.
Qed.

(** Two strings that agree and start with runs of a class, each ended by a
    separator outside the class, have the same run and the same rest. *)
Lemma separator_cancel (f : ascii -> bool) (c : ascii) (a1 a2 r1 r2 : string) :
  f c = false ->
  all_chars f a1 = true -> all_chars f a2 = true ->
  a1 ++ String c r1 = a2 ++ String c r2 -> a1 = a2 /\ r1 = r2.
Proof.
  intros Hc. revert a2.
  induction a1 as [|x a1 IH]; intros [|y a2]; simpl; intros H1 H2 E.
  - injection E as ->. auto.
  - injection E as <- _. apply andb_prop in H2 as [H2 _]. congruence.
  - injection E as -> _. apply andb_prop in H1 as [H1 _]. congruence.
  - injection E as -> E.
    apply andb_prop in H1 as [_ H1]. apply andb_prop in H2 as [_ H2].
    destruct (IH a2 H1 H2 E) as [-> ->]. auto.
Qed.

Lemma string_of_uint_digits (d : uint) :
  all_chars is_digit (NilEmpty.string_of_uint d) = true.
Proof. induction d; simpl; auto. Qed.

Lemma of_nat_digits (n : nat) : all_chars is_digit (of_nat n) = true.
Proof. apply string_of_uint_digits. Qed.

Lemma of_nat_value (n : nat) :
  option_map Nat.of_uint (NilEmpty.uint_of_string (of_nat n)) = Some n.
Proof.
  unfold of_nat. rewrite NilEmpty.usu. simpl.
  now rewrite DecimalNat.Unsigned.of_to.
Qed.

Lemma of_nat_inj (n m : nat) : of_nat n = of_nat m -> n = m.
Proof.
  intros E. pose proof (of_nat_value n) as Hn. rewrite E, of_nat_value in Hn.
  now injection Hn.
Qed.

Lemma lower_char_alnum (c : ascii) :
  is_alnum c = true -> is_alnum (lower_char c) = true.
Proof.
  destruct c as [[] [] [] [] [] [] [] []]; intros H; try discriminate H;
    reflexivity.
Qed.

Lemma toLowerCase_alnum (s : string) :
  all_chars is_alnum s = true -> all_chars is_alnum (toLowerCase s) = true.
Proof.
  unfold toLowerCase.
  induction s as [|a s IH]; simpl; [reflexivity|].
  intros H. apply andb_prop in H as [Ha Hs].
  now rewrite (lower_char_alnum _ Ha), (IH Hs).
Qed.

Variable B : Browser.

(** The extension of a download name is alphanumeric. *)
Lemma or_jpg_alnum (url : string) :
  all_chars is_alnum (or_jpg (getFileExtension B url)) = true.
Proof.
  unfold getFileExtension.
  destruct (URL_pathname B url) as [p|]; [|reflexivity].
  destruct (match_extension p) as [e|] eqn:E; [|reflexivity].
  destruct (match_extension_sound _ _ E) as (_ & _ & _ & _ & Halnum & _).
  simpl. destruct (toLowerCase e =? ""); [reflexivity|].
  now apply toLowerCase_alnum.
Qed.

(** The index can be read back from a download name, whatever the prefix. *)
Lemma image_filename_index (href1 href2 url1 url2 : string) (i j : nat) :
  image_filename B href1 url1 i = image_filename B href2 url2 j -> i = j.
Proof.
  unfold image_filename. intros E.
  apply (f_equal rev_string) in E.
  repeat (rewrite !rev_string_app in E; simpl in E).
  rewrite !append_assoc in E. simpl in E.
  apply (separator_cancel is_alnum) in E;
    [| reflexivity | rewrite all_chars_rev; apply or_jpg_alnum
     | rewrite all_chars_rev; apply or_jpg_alnum ].
  destruct E as [_ E].
  apply (separator_cancel is_digit) in E;
    [| reflexivity | rewrite all_chars_rev; apply of_nat_digits
     | rewrite all_chars_rev; apply of_nat_digits ].
  destruct E as [E _].
  apply (f_equal rev_string) in E. rewrite !rev_string_involutive in E.
  apply of_nat_inj in E. lia.
Qed.

(** C6.  A download name is [{prefix}_{n}.{ext}] where [n] is the decimal
    rendering of the index plus one and [ext] is the extension found in the
    image URL, or [jpg]; names made for distinct indices differ. *)
Theorem image_filename_distinct :
  (forall href url i,
      exists n ext,
        image_filename B href url i =
        getFileNameFromUrl B href ++ "_" ++ n ++ "." ++ ext
        /\ option_map Nat.of_uint (NilEmpty.uint_of_string n) = Some (i + 1)
        /\ ext = or_jpg (getFileExtension B url)) /\
  (forall href1 href2 url1 url2 i j,
      i <> j ->
      image_filename B href1 url1 i <> image_filename B href2 url2 j).
Proof.
  split.
  - intros href url i.
    exists (of_nat (i + 1)), (or_jpg (getFileExtension B url)).
    split; [reflexivity|]. split; [apply of_nat_value | reflexivity].
  - intros href1 href2 url1 url2 i j Hij E.
    apply Hij. exact (image_filename_index _ _ _ _ _ _ E).
Qed.

End FilenameFacts.

(** The first and the eleventh image of a listing. *)
Lemma image_filename_distinct_witness :
  image_filename (sample_browser "" false)
    "https://example.com/condo/the-park/1205" "https://cdn.example.com/a.png" 0
  <> image_filename (sample_browser "" false)
       "https://example.com/condo/the-park/1205" "https://cdn.example.com/a.png" 10.
Proof.
  apply (proj2 (image_filename_distinct (sample_browser "" false))). lia.
Defined.

(** ** Platform classification *)

Section PlatformFacts.

Import StringFacts.

Lemma prefix_spec (lit s : string) :
  prefix lit s = true <-> exists post, s = lit ++ post.
Proof.
  revert s. induction lit as [|a lit IH]; intros s.
  - split; [intros _; now exists s | now destruct s].
  - destruct s as [|b s]; simpl.
    + split; [discriminate | intros [post H]; discriminate].
    + destruct (ascii_dec a b) as [->|Hab].
      * rewrite IH. split; intros [post H]; exists post.
        -- now rewrite H.
        -- now injection H.
      * split; [discriminate|]. intros [post H]. injection H as H _. congruence.
Qed.

Lemma includes_spec (lit s : string) : includes lit s = true <-> contains lit s.
Proof.
  unfold contains. induction s as [|b s IH].
  - change (includes lit "") with (prefix lit "").
    rewrite prefix_spec. split.
    + intros [post H]. now exists "", post.
    + intros (pre & post & H). destruct pre; [now exists post | discriminate].
  - change (includes lit (String b s))
      with (prefix lit (String b s) || includes lit s)%bool.
    rewrite orb_true_iff, IH, prefix_spec. split.
    + intros [[post H] | (pre & post & H)].
      * now exists "", post.
      * exists (String b pre), post. simpl. now rewrite H.
    + intros (pre & post & H). destruct pre as [|x pre].
      * left. now exists post.
      * right. injection H as _ H. now exists pre, post.
Qed.

Lemma map_chars_app (f : ascii -> ascii) (a b : string) :
  map_chars f (a ++ b) = map_chars f a ++ map_chars f b.
Proof. induction a as [|x a IH]; simpl; [reflexivity | now rewrite IH]. Qed.

Lemma map_chars_app_inv (f : ascii -> ascii) (s x y : string) :
  map_chars f s = x ++ y ->
  exists a b, s = a ++ b /\ map_chars f a = x /\ map_chars f b = y.
Proof.
  revert s. induction x as [|c x IH]; intros s H.
  - now exists "", s.
  - destruct s as [|d s]; [discriminate|].
    simpl in H. injection H as Hc H.
    destruct (IH s H) as (a & b & -> & Ha & Hb).
    exists (String d a), b. simpl. now rewrite Hc, Ha.
Qed.

Lemma includes_i_spec (tok s : string) :
  includes (canonicalize tok) (canonicalize s) = true <-> contains_i tok s.
Proof.
  rewrite includes_spec. unfold contains, contains_i, canonicalize. split.
  - intros (pre & post & H).
    apply map_chars_app_inv in H as (a & r & -> & Ha & Hr).
    apply map_chars_app_inv in Hr as (m & b & -> & Hm & Hb).
    now exists a, m, b.
  - intros (pre & mid & post & -> & H).
    exists (map_chars upper_char pre), (map_chars upper_char post).
    now rewrite !map_chars_app, H.
Qed.

Lemma test_ios_spec (ua : string) :
  test_any ios_tokens ua = true <-> matches_ios ua.
Proof.
  unfold test_any, matches_ios. rewrite existsb_exists.
  split; intros (tok & Hin & H); exists tok; split; try assumption;
    now apply includes_spec.
Qed.

Lemma test_android_spec (ua : string) :
  test_any_i android_tokens ua = true <-> matches_android ua.
Proof.
  unfold test_any_i, matches_android. rewrite existsb_exists.
  split; intros (tok & Hin & H); exists tok; split; try assumption;
    now apply includes_i_spec.
Qed.

Variable B : Browser.

(** C10.  The iOS test comes first: a user agent that holds an iOS token
    (in this exact case) is classified [ios] even when it also holds a
    token of the Android family (in any case); the answer is [desktop]
    exactly when it holds a token of neither set. *)
Theorem getPlatform_precedence :
  (matches_ios (userAgent B) -> matches_android (userAgent B) ->
   getPlatform B = ios) /\
  (getPlatform B = desktop <->
   ~ matches_ios (userAgent B) /\ ~ matches_android (userAgent B)).
Proof.
  unfold getPlatform.
  rewrite <- test_ios_spec, <- test_android_spec.
  destruct (test_any ios_tokens (userAgent B));
    destruct (test_any_i android_tokens (userAgent B));
    (split;
     [ congruence
     | split;
       [ intros H; try discriminate H; split; congruence
       | intros [H1 H2]; try reflexivity;
         try (exfalso; apply H1; reflexivity);
         exfalso; apply H2; reflexivity ] ]).
Qed.

End PlatformFacts.

(** Opera Mini on an iPhone names tokens of both sets. *)
Lemma getPlatform_precedence_witness :
  getPlatform
    (sample_browser "Opera/9.80 (iPhone; Opera Mini/7.0.4/28.2555; U; en)" true)
  = ios.
Proof.
  apply (proj1 (getPlatform_precedence
                  (sample_browser
                     "Opera/9.80 (iPhone; Opera Mini/7.0.4/28.2555; U; en)" true))).
  - exists "iPhone". split; [simpl; auto|].
    exists "Opera/9.80 (", "; Opera Mini/7.0.4/28.2555; U; en)". reflexivity.
  - exists "Opera Mini". split; [simpl; auto 6|].
    exists "Opera/9.80 (iPhone; ", "Opera Mini", "/7.0.4/28.2555; U; en)".
    split; reflexivity.
Defined.

(** ** Lists updated in place *)

Module ListFacts.

Local Open Scope list_scope.

Lemma length_set_nth {A : Type} (i : nat) (x : A) (l : list A) :
  List.length (ImageDownloader.set_nth i x l) = List.length l.
Proof.
  revert i. induction l as [|a l IH]; intros [|i]; simpl; auto.
Qed.

Lemma nth_error_set_nth_same {A : Type} (i : nat) (x y : A) (l : list A) :
  nth_error l i = Some y -> nth_error (ImageDownloader.set_nth i x l) i = Some x.
Proof.
  revert i. induction l as [|a l IH]; intros [|i]; simpl; try discriminate; auto.
Qed.

Lemma nth_error_set_nth_other {A : Type} (i j : nat) (x : A) (l : list A) :
  i <> j -> nth_error (ImageDownloader.set_nth i x l) j = nth_error l j.
Proof.
  revert i j. induction l as [|a l IH]; intros [|i] [|j] H; simpl; auto.
  congruence.
Qed.

(** Replacing one element changes a count by the difference of its two
    contributions. *)
Lemma count_set_nth {A : Type} (f : A -> bool) (i : nat) (x y : A) (l : list A) :
  nth_error l i = Some y ->
  List.length (filter f (ImageDownloader.set_nth i x l)) + (if f y then 1 else 0)
  = List.length (filter f l) + (if f x then 1 else 0).
Proof.
  revert i. induction l as [|a l IH]; intros [|i]; simpl; try discriminate.
  - intros H. injection H as ->. destruct (f x), (f y); simpl; lia.
  - intros H. specialize (IH _ H). destruct (f a); simpl; lia.
Qed.

Lemma forallb_set_nth {A : Type} (f : A -> bool) (i : nat) (x : A) (l : list A) :
  forallb f l = true -> f x = true ->
  forallb f (ImageDownloader.set_nth i x l) = true.
Proof.
  revert i. induction l as [|a l IH]; intros [|i]; simpl; auto;
    intros H Hx; apply andb_prop in H as [Ha Hl].
  - now rewrite Hx.
  - now rewrite Ha, IH.
Qed.

Lemma forallb_nth_error {A : Type} (f : A -> bool) (i : nat) (x : A) (l : list A) :
  forallb f l = true -> nth_error l i = Some x -> f x = true.
Proof.
  intros H Hx. apply nth_error_In in Hx.
  rewrite forallb_forall in H. now apply H.
Qed.

(** A count that reaches the length leaves no element out. *)
Lemma filter_length_forallb {A : Type} (f : A -> bool) (l : list A) :
  List.length (filter f l) = List.length l <-> forallb f l = true.
Proof.
  induction l as [|a l IH]; simpl; [tauto|].
  pose proof (filter_length_le f l) as Hle.
  destruct (f a); simpl.
  - rewrite <- IH. lia.
  - split; [lia | discriminate].
Qed.

Lemma remove_nth_split {A : Type} (k : nat) (x : A) (l : list A) :
  nth_error l k = Some x ->
  exists l1 l2, l = l1 ++ x :: l2 /\ ImageDownloader.remove_nth k l = l1 ++ l2.
Proof.
  revert k. induction l as [|a l IH]; intros [|k]; simpl; try discriminate.
  - intros H. injection H as ->. now exists [], l.
  - intros H. destruct (IH _ H) as (l1 & l2 & -> & E).
    exists (a :: l1), l2. simpl. now rewrite E.
Qed.

End ListFacts.

(** ** Runs of the downloader *)

Module RunFacts.

Import ImageDownloader RunSpec ListFacts.

Local Open Scope list_scope.

Lemma schedule_spec (interval n : nat) :
  forall i d,
    schedule interval i n d =
    with_promises (promises d ++ repeat Scheduled n)
      (with_pending (pending d ++ timers interval i n) d).
Proof.
  induction n as [|n IH]; intros i d.
  - destruct d. unfold with_promises, with_pending, timers. simpl.
    now rewrite !app_nil_r.
  - simpl. rewrite IH.
    unfold with_promises, with_pending, setTimeout, timers. simpl.
    now rewrite <- !app_assoc.
Qed.

Lemma starts_app (l1 l2 : list timeout) :
  starts (l1 ++ l2) = starts l1 ++ starts l2.
Proof. apply flat_map_app. Qed.

Lemma starts_timers (interval n : nat) :
  forall i, starts (timers interval i n) = seq i n.
Proof.
  induction n as [|n IH]; intros i; [reflexivity|].
  simpl. f_equal. apply IH.
Qed.

Lemma resolved_repeat_scheduled (n : nat) :
  filter is_resolved (repeat Scheduled n) = [].
Proof. induction n; simpl; auto. Qed.

(** The object right after construction, on a page with images. *)
Lemma new_fields (img : string) (imgs : list string) :
  let n := List.length (img :: imgs) in
  new (img :: imgs) =
  {| processedCount := 0; failedCount := 0; images := img :: imgs;
     statusDiv := Some {| background := "#333";
                          content := ("Processing: 0/" ++ of_nat n)%string;
                          attached := true |};
     pending := timers 200 0 n;
     promises := repeat Scheduled n;
     downloads := []; shares := []; notices := [];
     join := Awaiting |}.
Proof.
  unfold new, init, processImages. cbn [images fresh List.length Nat.eqb].
  rewrite schedule_spec. reflexivity.
Qed.

Lemma new_inv (img : string) (imgs : list string) :
  Inv (img :: imgs) (new (img :: imgs)).
Proof.
  rewrite new_fields. cbv zeta.
  constructor; cbn [images promises pending statusDiv join notices
                      processedCount failedCount].
  - reflexivity.
  - apply repeat_length.
  - unfold resolved_count. cbn [promises].
    change (fun ph => match ph with Resolved _ => true | _ => false end)
      with is_resolved.
    now rewrite resolved_repeat_scheduled.
  - rewrite starts_timers. apply seq_NoDup.
  - intros i Hi. rewrite starts_timers in Hi. apply in_seq in Hi.
    apply nth_error_repeat. lia.
  - intros i Hi. rewrite starts_timers. apply in_seq.
    assert (Hlt : i < List.length (repeat Scheduled (List.length (img :: imgs)))).
    { apply nth_error_Some. congruence. }
    rewrite repeat_length in Hlt. simpl in Hlt |- *. lia.
  - discriminate.
  - discriminate.
  - reflexivity.
  - discriminate.
Qed.

(** On a page without images the constructor leaves the object as it
    found it, and the event loop has nothing to run. *)
Lemma new_no_images : new [] = fresh [].
Proof. reflexivity. Qed.

Lemma step_no_images (B : Browser) (e : event) : step B e (fresh []) = None.
Proof. destruct e as [[|k] h|[|i]|[|i] b|[|i] b|[|i] b|[|i]|]; reflexivity. Qed.

Lemma run_no_images (B : Browser) (es : list event) (d : t) :
  run B es (new []) = Some d -> es = [] /\ d = fresh [].
Proof.
  rewrite new_no_images. destruct es as [|e es]; simpl.
  - intros H. injection H as <-. auto.
  - now rewrite step_no_images.
Qed.

Lemma moves_inv (imgs : list string) (i : nat) (old new : phase)
  (dp df : nat) (d d' : t) :
  Inv imgs d -> moves i old new dp df d d' ->
  old <> Scheduled -> is_resolved old = false -> new <> Scheduled ->
  (if is_resolved new then 1 else 0) = dp + df ->
  Inv imgs d'.
Proof.
  intros HI HM Hsched Hold Hnsched Hnew.
  destruct HI, HM.
  constructor.
  - congruence.
  - rewrite mv_new0, length_set_nth. assumption.
  - unfold resolved_count in *. rewrite mv_new0.
    pose proof (count_set_nth is_resolved i new old (promises d) mv_old0) as Hc.
    rewrite Hold in Hc.
    change (fun ph => match ph with Resolved _ => true | _ => false end)
      with is_resolved in *.
    lia.
  - now rewrite mv_pending0.
  - intros j Hj. rewrite mv_pending0 in Hj. rewrite mv_new0.
    specialize (inv_scheduled0 j Hj).
    rewrite nth_error_set_nth_other; [assumption|].
    intros ->. congruence.
  - intros j Hj. rewrite mv_pending0. apply inv_timer0.
    rewrite mv_new0 in Hj.
    destruct (Nat.eq_dec i j) as [->|Hij].
    + rewrite (nth_error_set_nth_same _ _ _ _ mv_old0) in Hj. congruence.
    + now rewrite nth_error_set_nth_other in Hj.
  - auto.
  - congruence.
  - intros H. rewrite mv_notices0. apply inv_awaiting0. congruence.
  - intros H. rewrite mv_join0 in H.
    destruct (inv_completed0 H) as [Hall _].
    pose proof (forallb_nth_error _ _ _ _ Hall mv_old0) as Hres.
    change ((fun ph => match ph with Resolved _ => true | _ => false end) old)
      with (is_resolved old) in Hres.
    congruence.
Qed.

Section Steps.

Variable B : Browser.

Lemma fail_task_moves (i : nat) (old : phase) (d : t) :
  nth_error (promises d) i = Some old ->
  moves i old (Resolved false) 0 1 d (fail_task i d).
Proof.
  intros H. unfold fail_task, set_phase, updateStatus. simpl.
  destruct (statusDiv d) eqn:E; constructor; simpl; auto; try lia;
    rewrite ?E; discriminate.
Qed.

Lemma succeed_task_moves (i : nat) (old : phase) (d : t) :
  nth_error (promises d) i = Some old ->
  moves i old (Resolved true) 1 0 d (succeed_task i d).
Proof.
  intros H. unfold succeed_task, set_phase, updateStatus. simpl.
  destruct (statusDiv d) eqn:E; constructor; simpl; auto; try lia;
    rewrite ?E; discriminate.
Qed.

Lemma set_phase_moves (i : nat) (old new : phase) (d : t) :
  nth_error (promises d) i = Some old ->
  moves i old new 0 0 d (set_phase i new d).
Proof. intros H. constructor; simpl; auto. Qed.

Lemma handleImageDownload_moves (i : nat) (old : phase) (filename : string) (d : t) :
  nth_error (promises d) i = Some old ->
  exists new,
    is_resolved new = false /\ new <> Scheduled /\
    moves i old new 0 0 d (handleImageDownload B i filename d).
Proof.
  intros H. unfold handleImageDownload.
  destruct (getPlatform B); [exists Saved | | exists Saved];
    [ | destruct (share_files B); [exists (Sharing filename) | exists Saved] | ];
    (split; [reflexivity | split; [discriminate | constructor; simpl; auto]]).
Qed.

Lemma handleImageDownload_resume_moves
  (i : nat) (old : phase) (filename : string) (fulfilled : bool) (d : t) :
  nth_error (promises d) i = Some old ->
  moves i old Saved 0 0 d (handleImageDownload_resume i filename fulfilled d).
Proof.
  intros H. unfold handleImageDownload_resume, downloadWithShareAPI.
  destruct fulfilled; constructor; simpl; auto.
Qed.

Lemma starts_cons (tm : timeout) (l : list timeout) :
  starts (tm :: l) =
  match cb tm with StartTask i => [i] | RemoveStatusDisplay => [] end ++ starts l.
Proof. reflexivity. Qed.

(** A start timer fires: its task leaves [Scheduled]. *)
Lemma fire_start_inv (imgs : list string) (href : string) (i : nat)
  (tm : timeout) (l1 l2 : list timeout) (d : t) :
  Inv imgs d -> pending d = l1 ++ tm :: l2 -> cb tm = StartTask i ->
  Inv imgs (processImage B href i (with_pending (l1 ++ l2) d)).
Proof.
  intros HI Hp Hcb. destruct HI.
  assert (Hstarts : starts (pending d) = starts l1 ++ i :: starts l2).
  { rewrite Hp, starts_app, starts_cons, Hcb. reflexivity. }
  rewrite Hstarts in *.
  assert (Hi : nth_error (promises d) i = Some Scheduled).
  { apply inv_scheduled0. apply in_elt. }
  unfold processImage, set_phase.
  constructor; cbn [images promises pending statusDiv join notices
                      processedCount failedCount with_promises with_pending].
  - assumption.
  - now rewrite length_set_nth.
  - unfold resolved_count in *.
    cbn [promises with_promises with_pending].
    match goal with
    | |- context [set_nth i ?ph _] =>
        pose proof (count_set_nth is_resolved i ph Scheduled (promises d) Hi) as Hc
    end.
    simpl in Hc.
    change (fun ph => match ph with Resolved _ => true | _ => false end)
      with is_resolved in *.
    lia.
  - rewrite starts_app. now apply NoDup_remove_1 in inv_nodup0.
  - intros j Hj. rewrite starts_app in Hj.
    apply NoDup_remove_2 in inv_nodup0.
    rewrite nth_error_set_nth_other by (intros ->; contradiction).
    apply inv_scheduled0.
    apply in_app_or in Hj as [Hj | Hj]; apply in_or_app; [now left | right; now right].
  - intros j Hj. rewrite starts_app.
    destruct (Nat.eq_dec i j) as [->|Hij].
    + rewrite (nth_error_set_nth_same _ _ _ _ Hi) in Hj. discriminate.
    + rewrite nth_error_set_nth_other in Hj by assumption.
      apply inv_timer0 in Hj.
      apply in_app_or in Hj as [Hj | [Hj | Hj]]; apply in_or_app; auto.
      contradiction.
  - assumption.
  - assumption.
  - assumption.
  - intros H. destruct (inv_completed0 H) as [Hall _].
    pose proof (forallb_nth_error _ _ _ _ Hall Hi) as Hres. discriminate.
Qed.

(** The removal timer fires: only the status element changes. *)
Lemma fire_remove_inv (imgs : list string) (tm : timeout)
  (l1 l2 : list timeout) (d : t) :
  Inv imgs d -> pending d = l1 ++ tm :: l2 -> cb tm = RemoveStatusDisplay ->
  Inv imgs (removeStatusDisplay (with_pending (l1 ++ l2) d)).
Proof.
  intros HI Hp Hcb. destruct HI.
  assert (Hstarts : starts (pending d) = starts (l1 ++ l2)).
  { rewrite Hp, !starts_app, starts_cons, Hcb. reflexivity. }
  rewrite Hstarts in *.
  unfold removeStatusDisplay. cbn [statusDiv with_pending].
  destruct (statusDiv d) as [el|] eqn:E; [|congruence].
  destruct (attached el);
    (constructor; cbn [images promises pending statusDiv join notices
                        processedCount failedCount with_statusDiv with_pending];
     try assumption; try discriminate; try (rewrite E; discriminate)).
Qed.

(** The continuation of [processImages] in one piece. *)
Lemma processImages_resume_shape (el : div) (d : t) :
  statusDiv d = Some el -> notices d = [] ->
  processImages_resume d =
  with_pending
    (pending d ++ [{| cb := RemoveStatusDisplay;
                      delay := duration (final_notice d) |}])
    (with_notices [final_notice d]
       (with_statusDiv
          (Some {| background := style (final_notice d);
                   content := html (final_notice d);
                   attached := attached el |})
          (with_join Completed d))).
Proof.
  intros E Hn.
  unfold processImages_resume, showSuccess, showError, final_notice.
  cbn [failedCount statusDiv with_join]. rewrite E.
  destruct (failedCount d) as [|f] eqn:Ef; cbn [Nat.eqb Nat.ltb Nat.leb];
    unfold setTimeout, success_notice, failure_notice;
    cbn -[of_nat String.append]; rewrite ?Hn, ?Ef; reflexivity.
Qed.

(** The join completes: the final message is put up. *)
Lemma all_settled_inv (imgs : list string) (d : t) :
  Inv imgs d -> join d = Awaiting -> all_resolved (promises d) = true ->
  Inv imgs (processImages_resume d).
Proof.
  intros HI Hj Hall. destruct HI.
  specialize (inv_awaiting0 Hj).
  destruct (statusDiv d) as [el|] eqn:E; [|congruence].
  rewrite (processImages_resume_shape el d E inv_awaiting0).
  constructor; cbn [images promises pending statusDiv join notices
                      processedCount failedCount with_statusDiv with_pending
                      with_notices with_join];
    try assumption; try discriminate.
  - rewrite starts_app. cbn. now rewrite app_nil_r.
  - intros i Hi. rewrite starts_app in Hi. cbn in Hi. rewrite app_nil_r in Hi.
    auto.
  - intros i Hi. rewrite starts_app. cbn. rewrite app_nil_r. auto.
  - intros _. split; [assumption|]. reflexivity.
Qed.

(** Every step of the event loop keeps the invariant. *)
Lemma step_inv (imgs : list string) (e : event) (d d' : t) :
  Inv imgs d -> step B e d = Some d' -> Inv imgs d'.
Proof.
  intros HI Hstep. destruct e as [k href|i|i drawn|i blob|i fulfilled|i|];
    simpl in Hstep.
  - destruct (nth_error (pending d) k) as [tm|] eqn:Hk; [|discriminate].
    destruct (remove_nth_split _ _ _ Hk) as (l1 & l2 & Hp & Hr).
    rewrite Hr in Hstep.
    destruct (cb tm) as [i|] eqn:Hcb; injection Hstep as <-.
    + now apply fire_start_inv with (tm := tm).
    + now apply fire_remove_inv with (tm := tm).
  - destruct (nth_error (promises d) i) as [[| f fn | | | |]|] eqn:Hi;
      try discriminate.
    injection Hstep as <-.
    apply (moves_inv _ _ _ _ _ _ _ _ HI (fail_task_moves i _ d Hi)); easy.
  - destruct (nth_error (promises d) i) as [[| f fn | | | |]|] eqn:Hi;
      try discriminate.
    destruct drawn; injection Hstep as <-.
    + apply (moves_inv _ _ _ _ _ _ _ _ HI (set_phase_moves i _ _ d Hi)); easy.
    + apply (moves_inv _ _ _ _ _ _ _ _ HI (fail_task_moves i _ d Hi)); easy.
  - destruct (nth_error (promises d) i) as [[| | f fn | | |]|] eqn:Hi;
      try discriminate.
    destruct blob; injection Hstep as <-.
    + destruct (handleImageDownload_moves i _ f d Hi) as (new & Hnew & Hns & HM).
      apply (moves_inv _ _ _ _ _ _ _ _ HI HM); try easy.
      now rewrite Hnew.
    + apply (moves_inv _ _ _ _ _ _ _ _ HI (fail_task_moves i _ d Hi)); easy.
  - destruct (nth_error (promises d) i) as [[| | | f | |]|] eqn:Hi;
      try discriminate.
    injection Hstep as <-.
    apply (moves_inv _ _ _ _ _ _ _ _ HI
             (handleImageDownload_resume_moves i _ f fulfilled d Hi)); easy.
  - destruct (nth_error (promises d) i) as [[| | | | |]|] eqn:Hi;
      try discriminate.
    injection Hstep as <-.
    apply (moves_inv _ _ _ _ _ _ _ _ HI (succeed_task_moves i _ d Hi)); easy.
  - destruct (join d) eqn:Hj; try discriminate.
    destruct (all_resolved (promises d)) eqn:Hall; [|discriminate].
    injection Hstep as <-. now apply all_settled_inv.
Qed.

Lemma run_inv (imgs : list string) (es : list event) :
  forall d d', Inv imgs d -> run B es d = Some d' -> Inv imgs d'.
Proof.
  induction es as [|e es IH]; simpl; intros d d' HI Hrun.
  - now injection Hrun as <-.
  - destruct (step B e d) as [d1|] eqn:Hstep; [|discriminate].
    eapply IH; [|eassumption]. eapply step_inv; eassumption.
Qed.

Lemma run_app (es1 es2 : list event) :
  forall d,
    run B (es1 ++ es2) d =
    match run B es1 d with
    | Some d1 => run B es2 d1
    | None => None
    end.
Proof.
  induction es1 as [|e es1 IH]; intros d; simpl; [reflexivity|].
  destruct (step B e d); [apply IH | reflexivity].
Qed.

(** A step leaves the counters alone, or it is a completion handler and
    raises exactly one of them by one. *)
Lemma step_delta (e : event) (d d' : t) :
  step B e d = Some d' ->
  (processedCount d' = processedCount d /\ failedCount d' = failedCount d) \/
  (is_completion e = true /\
   ((processedCount d' = S (processedCount d) /\ failedCount d' = failedCount d) \/
    (processedCount d' = processedCount d /\ failedCount d' = S (failedCount d)))).
Proof.
  intros Hstep. destruct e as [k href|i|i drawn|i blob|i fulfilled|i|];
    simpl in Hstep.
  - destruct (nth_error (pending d) k) as [tm|]; [|discriminate].
    destruct (cb tm); injection Hstep as <-; left.
    + split; reflexivity.
    + unfold removeStatusDisplay. cbn [statusDiv with_pending].
      destruct (statusDiv d) as [el|]; [destruct (attached el)|]; split; reflexivity.
  - destruct (nth_error (promises d) i) as [[| f fn | | | |]|] eqn:Hi;
      try discriminate.
    injection Hstep as <-. right. split; [reflexivity|]. right.
    destruct (fail_task_moves i _ d Hi). lia.
  - destruct (nth_error (promises d) i) as [[| f fn | | | |]|] eqn:Hi;
      try discriminate.
    destruct drawn; injection Hstep as <-.
    + left. split; reflexivity.
    + right. split; [reflexivity|]. right.
      destruct (fail_task_moves i _ d Hi). lia.
  - destruct (nth_error (promises d) i) as [[| | f fn | | |]|] eqn:Hi;
      try discriminate.
    destruct blob; injection Hstep as <-.
    + left. destruct (handleImageDownload_moves i _ f d Hi) as (new & _ & _ & []).
      lia.
    + right. split; [reflexivity|]. right.
      destruct (fail_task_moves i _ d Hi). lia.
  - destruct (nth_error (promises d) i) as [[| | | f | |]|] eqn:Hi;
      try discriminate.
    injection Hstep as <-. left.
    destruct (handleImageDownload_resume_moves i _ f fulfilled d Hi). lia.
  - destruct (nth_error (promises d) i) as [[| | | | |]|] eqn:Hi;
      try discriminate.
    injection Hstep as <-. right. split; [reflexivity|]. left.
    destruct (succeed_task_moves i _ d Hi). lia.
  - destruct (join d); try discriminate.
    destruct (all_resolved (promises d)); [|discriminate].
    injection Hstep as <-. left.
    unfold processImages_resume, showSuccess, showError.
    cbn [failedCount statusDiv with_join].
    destruct (statusDiv d);
      (destruct (failedCount d =? 0)%nat;
       [|destruct (0 <? failedCount d)%nat]); split; reflexivity.
Qed.

Lemma in_starts_nth (i : nat) (l : list timeout) :
  In i (starts l) ->
  exists k tm, nth_error l k = Some tm /\ cb tm = StartTask i.
Proof.
  unfold starts. rewrite in_flat_map. intros (tm & Hin & Hi).
  apply In_nth_error in Hin as [k Hk]. exists k, tm. split; [assumption|].
  destruct (cb tm); simpl in Hi; [|contradiction].
  destruct Hi as [->|[]]. reflexivity.
Qed.

(** Whatever its phase, an unresolved task can be brought to resolve. *)
Lemma can_resolve (imgs : list string) (href : string) (i : nat) (ph : phase) (d : t) :
  Inv imgs d -> nth_error (promises d) i = Some ph -> is_resolved ph = false ->
  exists es d',
    run B es d = Some d'
    /\ processedCount d' + failedCount d' = S (processedCount d + failedCount d).
Proof.
  intros HI Hi Hres. destruct ph as [| f fn | f fn | f | | b]; [ | | | | | discriminate].
  - destruct (in_starts_nth i (pending d) (inv_timer _ _ HI i Hi)) as (k & tm & Hk & Hcb).
    set (d0 := processImage B href i (with_pending (remove_nth k (pending d)) d)).
    assert (Hi0 : nth_error (promises d0) i
                  = Some (Loading (image_filename B href (nth i (images d) ""%string) i)
                                  (getFileNameFromUrl B href))).
    { unfold d0, processImage, set_phase. cbn [promises with_promises with_pending images].
      now apply nth_error_set_nth_same with (y := Scheduled). }
    exists [Fire k href; OnError i], (fail_task i d0).
    split.
    + simpl. rewrite Hk, Hcb. fold d0. now rewrite Hi0.
    + destruct (fail_task_moves i _ d0 Hi0). unfold d0 in *. simpl in *. lia.
  - exists [OnError i], (fail_task i d). split; [simpl; now rewrite Hi|].
    destruct (fail_task_moves i _ d Hi). lia.
  - exists [BlobReady i false], (fail_task i d). split; [simpl; now rewrite Hi|].
    destruct (fail_task_moves i _ d Hi). lia.
  - set (d0 := handleImageDownload_resume i f true d).
    assert (Hi0 : nth_error (promises d0) i = Some Saved).
    { unfold d0, handleImageDownload_resume, set_phase. cbn.
      now apply nth_error_set_nth_same with (y := Sharing f). }
    exists [ShareSettled i true; Resume i], (succeed_task i d0).
    split; [simpl; rewrite Hi; fold d0; now rewrite Hi0|].
    destruct (succeed_task_moves i _ d0 Hi0). unfold d0 in *. simpl in *. lia.
  - exists [Resume i], (succeed_task i d). split; [simpl; now rewrite Hi|].
    destruct (succeed_task_moves i _ d Hi). lia.
Qed.

Lemma forallb_false_nth {A : Type} (f : A -> bool) (l : list A) :
  forallb f l = false -> exists i x, nth_error l i = Some x /\ f x = false.
Proof.
  induction l as [|a l IH]; simpl; [discriminate|].
  destruct (f a) eqn:Ha; simpl.
  - intros H. destruct (IH H) as (i & x & Hi & Hx). now exists (S i), x.
  - intros _. now exists 0, a.
Qed.

Lemma resolved_count_le (imgs : list string) (d : t) :
  Inv imgs d -> resolved_count d <= List.length imgs.
Proof.
  intros HI. rewrite <- (inv_length _ _ HI). apply filter_length_le.
Qed.

Lemma resolved_count_all (imgs : list string) (d : t) :
  Inv imgs d ->
  (resolved_count d = List.length imgs <-> all_resolved (promises d) = true).
Proof.
  intros HI. rewrite <- (inv_length _ _ HI). apply filter_length_forallb.
Qed.

(** Every reachable state has a continuation in which all tasks resolve. *)
Lemma can_settle (imgs : list string) (href : string) (n : nat) :
  forall d,
    Inv imgs d -> List.length imgs - resolved_count d = n ->
    exists es d', run B es d = Some d' /\ all_resolved (promises d') = true.
Proof.
  induction n as [|n IH]; intros d HI Hn.
  - exists [], d. split; [reflexivity|].
    apply (resolved_count_all _ _ HI).
    pose proof (resolved_count_le _ _ HI). lia.
  - destruct (all_resolved (promises d)) eqn:Hall.
    + apply (resolved_count_all _ _ HI) in Hall. lia.
    + apply forallb_false_nth in Hall as (i & ph & Hi & Hph).
      destruct (can_resolve imgs href i ph d HI Hi Hph) as (es1 & d1 & Hrun1 & Hsum).
      pose proof (run_inv _ _ _ _ HI Hrun1) as HI1.
      destruct (IH d1 HI1) as (es2 & d2 & Hrun2 & Hall2).
      { rewrite (inv_count _ _ HI1), Hsum, <- (inv_count _ _ HI). lia. }
      exists (es1 ++ es2), d2. split; [|assumption].
      now rewrite run_app, Hrun1.
Qed.

End Steps.

End RunFacts.

(** ** Counters and the aggregate join *)

Section RunClaims.

Import ImageDownloader RunSpec ListFacts RunFacts.

Local Open Scope list_scope.

Variable B : Browser.

(** A reachable state is the initial one of an empty page, or it satisfies
    the invariant. *)
Lemma reachable (imgs : list string) (es : list event) (d : t) :
  run B es (new imgs) = Some d ->
  (imgs = [] /\ d = fresh []) \/ (imgs <> [] /\ Inv imgs d).
Proof.
  intros Hrun. destruct imgs as [|img imgs].
  - left. split; [reflexivity|]. now apply (run_no_images B es).
  - right. split; [discriminate|].
    apply (run_inv B _ _ _ _ (new_inv img imgs) Hrun).
Qed.

End RunClaims.

(** ** Final messages and timers *)

Section MessageClaims.

Import ImageDownloader RunSpec ListFacts RunFacts.

Local Open Scope list_scope.

(** C3 on the code.  On a page without images the constructor calls
    [showError] before any status element exists: nothing is shown, no
    removal timer is set, and no event can follow.  The function version
    does put the message up, in the failure style, for three seconds. *)
Theorem init_no_images_shows_nothing :
  statusDiv (new []) = None
  /\ notices (new []) = []
  /\ pending (new []) = []
  /\ promises (new []) = []
  /\ (forall B e, step B e (new []) = None)
  /\ notices (FunctionVersion.downloadAllImages []) =
     [{| style := "#f44336"; html := "No images found on this page";
         duration := 3000 |}]
  /\ pending (FunctionVersion.downloadAllImages []) =
     [{| cb := RemoveStatusDisplay; delay := 3000 |}]
  /\ statusDiv (FunctionVersion.downloadAllImages []) =
     Some {| background := "#f44336"; content := "No images found on this page";
             attached := true |}.
Proof.
  repeat split. intros B e. apply step_no_images.
Qed.

Variable B : Browser.

Lemma final_notice_cases (d : t) :
  (failedCount d = 0 -> final_notice d = success_notice d)
  /\ (0 < failedCount d -> final_notice d = failure_notice d).
Proof.
  unfold final_notice. destruct (failedCount d); split; intros H;
    try reflexivity; lia.
Qed.

(** C4 (as amended).  No final message is up before the join completes;
    when all tasks have resolved the join completes and puts up exactly one
    message, which stays the only one: with no failure it is the success
    message, in the success style, removed after 5s; with any failure it is
    the failure message, in the failure style whatever the number of
    successes, removed after 3s. *)
Theorem final_message_shown (imgs : list string) (es : list event) (d : t) :
  run B es (new imgs) = Some d ->
  (join d <> Completed -> notices d = [])
  /\ (join d = Completed ->
      all_resolved (promises d) = true /\ notices d = [final_notice d])
  /\ (join d = Awaiting -> all_resolved (promises d) = true ->
      exists d',
        step B AllSettled d = Some d'
        /\ join d' = Completed
        /\ notices d' = [final_notice d']
        /\ pending d' =
           pending d ++ [{| cb := RemoveStatusDisplay;
                            delay := duration (final_notice d') |}]
        /\ option_map background (statusDiv d') = Some (style (final_notice d'))
        /\ option_map content (statusDiv d') = Some (html (final_notice d')))
  /\ (failedCount d = 0 ->
      final_notice d =
      {| style := "#4CAF50";
         html := ("Download complete! <br> " ++ of_nat (processedCount d)
                    ++ " images downloaded")%string;
         duration := 5000 |})
  /\ (0 < failedCount d ->
      final_notice d =
      {| style := "#f44336";
         html := ("Download failed! <br> " ++ of_nat (failedCount d) ++ "/"
                    ++ of_nat (List.length (images d))
                    ++ " images failed to download")%string;
         duration := 3000 |}).
Proof.
  intros Hrun.
  split; [|split; [|split; [|exact (final_notice_cases d)]]].
  - destruct (reachable B _ _ _ Hrun) as [[-> ->] | [Hne HI]]; [reflexivity|].
    intros Hj. apply (inv_awaiting _ _ HI).
    pose proof (inv_started _ _ HI). destruct (join d); congruence.
  - destruct (reachable B _ _ _ Hrun) as [[-> ->] | [Hne HI]]; [discriminate|].
    apply (inv_completed _ _ HI).
  - destruct (reachable B _ _ _ Hrun) as [[-> ->] | [Hne HI]]; [discriminate|].
    intros Hj Hall. exists (processImages_resume d).
    split; [simpl; now rewrite Hj, Hall|].
    pose proof (inv_status _ _ HI) as Hdiv.
    destruct (statusDiv d) as [el|] eqn:E; [|congruence].
    rewrite (processImages_resume_shape el d E (inv_awaiting _ _ HI Hj)).
    repeat split.
Qed.

End MessageClaims.

(** One image that is saved: the success message, for five seconds. *)
Lemma final_message_shown_witness :
  let B := sample_browser "Mozilla/5.0 (X11; Linux x86_64)" false in
  let es := [ImageDownloader.Fire 0 "https://example.com/gallery";
             ImageDownloader.OnLoad 0 true; ImageDownloader.BlobReady 0 true;
             ImageDownloader.Resume 0; ImageDownloader.AllSettled] in
  let d := RunSpec.state_after B ["https://cdn.example.com/a.png"] es in
  ImageDownloader.notices d =
  [{| ImageDownloader.style := "#4CAF50";
      ImageDownloader.html := "Download complete! <br> 1 images downloaded";
      ImageDownloader.duration := 5000 |}].
Proof.
  intros B es d.
  assert (Hrun : ImageDownloader.run B es
                   (ImageDownloader.new ["https://cdn.example.com/a.png"]) = Some d)
    by (vm_compute; reflexivity).
  destruct (final_message_shown B _ es d Hrun) as (_ & Hdone & _ & Hok & _).
  destruct Hdone as [_ Hn]; [vm_compute; reflexivity|].
  rewrite Hn, Hok; vm_compute; reflexivity.
Defined.

(** C4, as stated, fails on a run with a failure: one image that does not
    load leaves the failure message up for three seconds, not five. *)
Lemma stated_final_message_counterexample :
  ~ stated_final_message
      (RunSpec.state_after
         (sample_browser "Mozilla/5.0 (X11; Linux x86_64)" false)
         ["https://cdn.example.com/a.png"]
         [ImageDownloader.Fire 0 "https://example.com/gallery";
          ImageDownloader.OnError 0; ImageDownloader.AllSettled]).
Proof.
  intros H. destruct H as (n & Hn & Hdur & _); [vm_compute; reflexivity|].
  vm_compute in Hn. injection Hn as <-. discriminate Hdur.
Qed.

(** ** Start timers *)

Section TimerClaims.

Import ImageDownloader RunSpec ListFacts RunFacts.

Local Open Scope list_scope.

Lemma nth_error_timers (interval n : nat) :
  forall i k,
    k < n ->
    nth_error (timers interval i n) k =
    Some {| cb := StartTask (i + k); delay := (i + k) * interval |}.
Proof.
  induction n as [|n IH]; intros i k Hk; [lia|].
  destruct k as [|k]; simpl.
  - now rewrite Nat.add_0_r.
  - change (map _ (seq (S i) n)) with (timers interval (S i) n).
    rewrite IH by lia. now rewrite Nat.add_succ_r.
Qed.

Lemma new_pending (imgs : list string) :
  pending (new imgs) = timers 200 0 (List.length imgs).
Proof.
  destruct imgs as [|img imgs]; [reflexivity|]. now rewrite new_fields.
Qed.

Lemma downloadAllImages_pending (imgs : list string) :
  imgs <> [] ->
  pending (FunctionVersion.downloadAllImages imgs) = timers 100 0 (List.length imgs).
Proof.
  destruct imgs as [|img imgs]; [congruence|]. intros _.
  unfold FunctionVersion.downloadAllImages, FunctionVersion.processImages.
  cbn [images FunctionVersion.fresh fresh with_statusDiv List.length Nat.eqb].
  rewrite schedule_spec. reflexivity.
Qed.

(** C8.  The timer set for task [i] has delay [i] times the interval:
    200ms in the class, 100ms in the function version.  The timers are set
    in index order, their delays never decrease along that order, and two
    consecutive tasks are one interval apart. *)
Theorem start_delays (imgs : list string) (i : nat) :
  i < List.length imgs ->
  nth_error (pending (new imgs)) i = Some {| cb := StartTask i; delay := i * 200 |}
  /\ nth_error (pending (FunctionVersion.downloadAllImages imgs)) i
     = Some {| cb := StartTask i; delay := i * 100 |}
  /\ List.length (pending (new imgs)) = List.length imgs
  /\ (forall j a b,
         i <= j ->
         nth_error (pending (new imgs)) i = Some a ->
         nth_error (pending (new imgs)) j = Some b ->
         delay a <= delay b)
  /\ (S i < List.length imgs ->
      exists a b,
        nth_error (pending (new imgs)) i = Some a
        /\ nth_error (pending (new imgs)) (S i) = Some b
        /\ cb b = StartTask (S i)
        /\ delay b = delay a + 200)
  /\ (S i < List.length imgs ->
      exists a b,
        nth_error (pending (FunctionVersion.downloadAllImages imgs)) i = Some a
        /\ nth_error (pending (FunctionVersion.downloadAllImages imgs)) (S i) = Some b
        /\ cb b = StartTask (S i)
        /\ delay b = delay a + 100).
Proof.
  intros Hi.
  assert (Hne : imgs <> []) by (destruct imgs; [simpl in Hi; lia | discriminate]).
  rewrite new_pending, (downloadAllImages_pending _ Hne).
  split; [now rewrite nth_error_timers|].
  split; [now rewrite nth_error_timers|].
  split; [unfold timers; now rewrite length_map, length_seq|].
  split; [|split].
  - intros j a b Hij Ha Hb.
    assert (Hj : j < List.length imgs).
    { assert (Hlt : j < List.length (timers 200 0 (List.length imgs)))
        by (apply nth_error_Some; congruence).
      unfold timers in Hlt. now rewrite length_map, length_seq in Hlt. }
    rewrite nth_error_timers in Ha, Hb by assumption.
    injection Ha as <-. injection Hb as <-. simpl. nia.
  - intros HS. eexists. eexists.
    rewrite !nth_error_timers by lia.
    split; [reflexivity|]. split; [reflexivity|]. simpl. split; [reflexivity | lia].
  - intros HS. eexists. eexists.
    rewrite !nth_error_timers by lia.
    split; [reflexivity|]. split; [reflexivity|]. simpl. split; [reflexivity | lia].
Qed.

End TimerClaims.

(** The third of five images starts 400ms (200ms) after the first. *)
Lemma start_delays_witness :
  nth_error
    (ImageDownloader.pending (ImageDownloader.new ["a"; "b"; "c"; "d"; "e"])) 2
  = Some {| ImageDownloader.cb := ImageDownloader.StartTask 2;
            ImageDownloader.delay := 400 |}
  /\ nth_error
       (ImageDownloader.pending
          (FunctionVersion.downloadAllImages ["a"; "b"; "c"; "d"; "e"])) 2
     = Some {| ImageDownloader.cb := ImageDownloader.StartTask 2;
               ImageDownloader.delay := 200 |}.
Proof.
  assert (H : 2 < List.length ["a"; "b"; "c"; "d"; "e"]) by (simpl; lia).
  destruct (start_delays ["a"; "b"; "c"; "d"; "e"] 2 H) as (Hclass & Hfun & _).
  split; assumption.
Defined.

(** ** Sharing on Android *)

Section ShareClaims.

Import ImageDownloader RunSpec ListFacts RunFacts.

Local Open Scope list_scope.

Variable B : Browser.

Hypothesis on_android : getPlatform B = android.

(** C7.  On Android, once the blob of image [i] is ready: if files cannot
    be shared the file is saved directly; otherwise the share sheet is
    opened for that file and, when the share is rejected, the same file is
    saved directly.  The failure counter is never raised on these paths,
    and from [Saved] the task resolves as a success, whatever the save
    did. *)
Theorem share_failure_falls_back (d : t) (i : nat) (filename fileName : string) :
  nth_error (promises d) i = Some (Encoding filename fileName) ->
  exists d1,
    step B (BlobReady i true) d = Some d1
    /\ failedCount d1 = failedCount d
    /\ (share_files B = false ->
        downloads d1 = downloads d ++ [filename]
        /\ shares d1 = shares d
        /\ nth_error (promises d1) i = Some Saved)
    /\ (share_files B = true ->
        shares d1 = shares d ++ [filename]
        /\ downloads d1 = downloads d
        /\ nth_error (promises d1) i = Some (Sharing filename)
        /\ forall fulfilled,
            exists d2,
              step B (ShareSettled i fulfilled) d1 = Some d2
              /\ downloads d2 = downloads d ++ (if fulfilled then [] else [filename])
              /\ failedCount d2 = failedCount d
              /\ processedCount d2 = processedCount d
              /\ nth_error (promises d2) i = Some Saved)
    /\ (forall d2,
           nth_error (promises d2) i = Some Saved ->
           exists d3,
             step B (Resume i) d2 = Some d3
             /\ processedCount d3 = processedCount d2 + 1
             /\ failedCount d3 = failedCount d2
             /\ downloads d3 = downloads d2
             /\ nth_error (promises d3) i = Some (Resolved true)).
Proof.
  intros Hi. exists (handleImageDownload B i filename d).
  split; [simpl; now rewrite Hi|].
  unfold handleImageDownload. rewrite on_android.
  split; [now destruct (share_files B)|].
  split; [|split].
  - intros ->. cbn. repeat split.
    now apply nth_error_set_nth_same with (y := Encoding filename fileName).
  - intros ->. cbn [set_phase with_shares with_promises shares downloads promises].
    assert (Hshare : nth_error (set_nth i (Sharing filename) (promises d)) i
                     = Some (Sharing filename))
      by now apply nth_error_set_nth_same with (y := Encoding filename fileName).
    repeat split; [assumption|].
    intros fulfilled.
    eexists. split.
    + unfold step. cbn [set_phase promises with_promises with_shares].
      rewrite Hshare. reflexivity.
    + unfold handleImageDownload_resume, downloadWithShareAPI.
      destruct fulfilled; cbn; rewrite ?app_nil_r; repeat split;
        now apply nth_error_set_nth_same with (y := Sharing filename).
  - intros d2 H2. exists (succeed_task i d2).
    split; [simpl; now rewrite H2|].
    destruct (succeed_task_moves i _ d2 H2) as [_ Hnew Hp Hf _ _ _ _ _].
    split; [assumption|]. split; [lia|]. split.
    + unfold succeed_task, set_phase, updateStatus. cbn [statusDiv with_counts].
      now destruct (statusDiv d2).
    + rewrite Hnew. now apply nth_error_set_nth_same with (y := Saved).
Qed.

End ShareClaims.

(** Chrome on an Android phone that can share files: the user dismisses
    the share sheet, the image is saved directly and counted as processed. *)
Lemma share_failure_falls_back_witness :
  let B := sample_browser
             "Mozilla/5.0 (Linux; Android 13; Pixel 7) Chrome/120.0 Mobile" true in
  let d := RunSpec.state_after B ["https://cdn.example.com/a.png"]
             [ImageDownloader.Fire 0 "https://example.com/gallery";
              ImageDownloader.OnLoad 0 true] in
  exists d1 d2 d3,
    ImageDownloader.step B (ImageDownloader.BlobReady 0 true) d = Some d1
    /\ ImageDownloader.step B (ImageDownloader.ShareSettled 0 false) d1 = Some d2
    /\ ImageDownloader.step B (ImageDownloader.Resume 0) d2 = Some d3
    /\ ImageDownloader.shares d1 = ["images_1.png"]
    /\ ImageDownloader.downloads d2 = ["images_1.png"]
    /\ ImageDownloader.failedCount d2 = 0
    /\ ImageDownloader.processedCount d3 = 1.
Proof.
  intros B d.
  assert (Handroid : getPlatform B = android) by (vm_compute; reflexivity).
  assert (Hd : nth_error (ImageDownloader.promises d) 0
               = Some (ImageDownloader.Encoding "images_1.png" "images"))
    by (vm_compute; reflexivity).
  destruct (share_failure_falls_back B Handroid d 0 _ _ Hd)
    as (d1 & H1 & _ & _ & Hshare & Hresume).
  destruct Hshare as (Hs & _ & _ & Hsettle); [reflexivity|].
  destruct (Hsettle false) as (d2 & H2 & Hdl & Hf & Hp & Hsaved).
  destruct (Hresume d2 Hsaved) as (d3 & H3 & Hp3 & _).
  exists d1, d2, d3.
  split; [exact H1|]. split; [exact H2|]. split; [exact H3|].
  split; [rewrite Hs; vm_compute; reflexivity|].
  split; [rewrite Hdl; vm_compute; reflexivity|].
  split; [rewrite Hf; vm_compute; reflexivity|].
  rewrite Hp3, Hp. vm_compute. reflexivity.
Defined.

(** ** One prefix for the whole run *)

Section PrefixOnce.

Import ImageDownloader RunSpec ListFacts RunFacts.

Local Open Scope list_scope.

Variable B : Browser.
Variable href : string.

Lemma nth_error_indexed (g : nat * string -> string) (imgs : list string) :
  forall start i,
    i < List.length imgs ->
    nth_error (map g (combine (seq start (List.length imgs)) imgs)) i
    = Some (g (start + i, nth i imgs ""%string)).
Proof.
  induction imgs as [|img imgs IH]; intros start i Hi; simpl in Hi; [lia|].
  destruct i as [|i]; simpl.
  - now rewrite Nat.add_0_r.
  - rewrite IH by lia. now rewrite Nat.add_succ_r.
Qed.

(** The name [processImage] computes at [href] is the one made from the
    prefix derived once. *)
Lemma filenames_prefix_once_nth (imgs : list string) (i : nat) :
  i < List.length imgs ->
  nth_error (filenames_prefix_once B href imgs) i
  = Some (image_filename B href (nth i imgs ""%string) i).
Proof.
  intros Hi. unfold filenames_prefix_once. cbv zeta.
  rewrite nth_error_indexed by assumption. reflexivity.
Qed.

Lemma nth_error_set_nth_inv {A : Type} (i j : nat) (x y : A) (l : list A) :
  nth_error (set_nth i x l) j = Some y ->
  (j = i /\ y = x) \/ (j <> i /\ nth_error l j = Some y).
Proof.
  destruct (Nat.eq_dec i j) as [->|Hij].
  - intros H. left. split; [reflexivity|].
    destruct (nth_error l j) as [z|] eqn:E.
    + rewrite (nth_error_set_nth_same _ _ _ _ E) in H. now injection H.
    + assert (Hlen : j < List.length (set_nth j x l))
        by (apply nth_error_Some; congruence).
      rewrite length_set_nth in Hlen. apply nth_error_Some in Hlen. congruence.
  - rewrite nth_error_set_nth_other by assumption. intros H. right. split; auto.
Qed.

Lemma names_update (imgs : list string) (i : nat) (new : phase) (d d' : t) :
  InvNames B href imgs d ->
  promises d' = set_nth i new (promises d) ->
  phase_named B href imgs i new ->
  incl (downloads d') (filenames_prefix_once B href imgs) ->
  incl (shares d') (filenames_prefix_once B href imgs) ->
  InvNames B href imgs d'.
Proof.
  intros [Hph Hdl Hsh] Hnew Hnamed Hdl' Hsh'. constructor; try assumption.
  intros j ph Hj. rewrite Hnew in Hj.
  apply nth_error_set_nth_inv in Hj as [[-> ->] | [_ Hj]]; [assumption|].
  now apply Hph.
Qed.

Lemma names_same (imgs : list string) (d d' : t) :
  InvNames B href imgs d ->
  promises d' = promises d -> downloads d' = downloads d -> shares d' = shares d ->
  InvNames B href imgs d'.
Proof.
  intros [Hph Hdl Hsh] Hp Hd Hs. constructor.
  - now rewrite Hp.
  - now rewrite Hd.
  - now rewrite Hs.
Qed.

Lemma incl_snoc {A : Type} (l names : list A) (x : A) :
  incl l names -> In x names -> incl (l ++ [x]) names.
Proof.
  intros Hl Hx y Hy. apply in_app_or in Hy as [Hy | [<- | []]]; auto.
Qed.

Lemma fail_task_frame (i : nat) (d : t) :
  promises (fail_task i d) = set_nth i (Resolved false) (promises d)
  /\ downloads (fail_task i d) = downloads d
  /\ shares (fail_task i d) = shares d.
Proof.
  unfold fail_task, set_phase, updateStatus. cbn [statusDiv with_counts].
  now destruct (statusDiv d).
Qed.

Lemma succeed_task_frame (i : nat) (d : t) :
  promises (succeed_task i d) = set_nth i (Resolved true) (promises d)
  /\ downloads (succeed_task i d) = downloads d
  /\ shares (succeed_task i d) = shares d.
Proof.
  unfold succeed_task, set_phase, updateStatus. cbn [statusDiv with_counts].
  now destruct (statusDiv d).
Qed.

Lemma processImages_resume_frame (d : t) :
  promises (processImages_resume d) = promises d
  /\ downloads (processImages_resume d) = downloads d
  /\ shares (processImages_resume d) = shares d.
Proof.
  unfold processImages_resume, showSuccess, showError.
  cbn [failedCount statusDiv with_join].
  destruct (statusDiv d);
    (destruct (failedCount d =? 0)%nat;
     [|destruct (0 <? failedCount d)%nat]); repeat split.
Qed.

Lemma removeStatusDisplay_frame (d : t) :
  promises (removeStatusDisplay d) = promises d
  /\ downloads (removeStatusDisplay d) = downloads d
  /\ shares (removeStatusDisplay d) = shares d.
Proof.
  unfold removeStatusDisplay.
  destruct (statusDiv d) as [el|]; [destruct (attached el)|]; repeat split.
Qed.

(** A step taken while the page is at [href] keeps the names. *)
Lemma step_names (imgs : list string) (e : event) (d d' : t) :
  Inv imgs d -> InvNames B href imgs d ->
  match e with Fire _ h => h = href | _ => True end ->
  step B e d = Some d' ->
  InvNames B href imgs d'.
Proof.
  intros HI HN He Hstep.
  destruct e as [k h|i|i drawn|i blob|i fulfilled|i|]; simpl in Hstep.
  - subst h.
    destruct (nth_error (pending d) k) as [tm|] eqn:Hk; [|discriminate].
    destruct (cb tm) as [i|] eqn:Hcb; injection Hstep as <-.
    + assert (Hi : nth_error (promises d) i = Some Scheduled).
      { apply (inv_scheduled _ _ HI). unfold starts. apply in_flat_map.
        exists tm. split; [now apply nth_error_In in Hk|].
        rewrite Hcb. now left. }
      assert (Hlt : i < List.length imgs).
      { rewrite <- (inv_length _ _ HI). apply nth_error_Some. congruence. }
      apply (names_update imgs i
               (Loading (image_filename B href (nth i (images d) ""%string) i)
                        (getFileNameFromUrl B href)) d);
        [assumption | reflexivity | | apply HN | apply HN].
      split; [reflexivity|].
      rewrite (inv_images _ _ HI). now apply filenames_prefix_once_nth.
    + destruct (removeStatusDisplay_frame
                  (with_pending (remove_nth k (pending d)) d)) as (Hp & Hd & Hs).
      now apply (names_same imgs d).
  - destruct (nth_error (promises d) i) as [[| f fn | | | |]|] eqn:Hi;
      try discriminate.
    injection Hstep as <-. destruct (fail_task_frame i d) as (Hp & Hd & Hs).
    apply (names_update imgs i (Resolved false) d);
      [assumption | assumption | exact I
      | rewrite Hd; apply HN | rewrite Hs; apply HN].
  - destruct (nth_error (promises d) i) as [[| f fn | | | |]|] eqn:Hi;
      try discriminate.
    destruct drawn; injection Hstep as <-.
    + apply (names_update imgs i (Encoding f fn) d);
        [assumption | reflexivity | | apply HN | apply HN].
      exact (names_phases _ _ _ _ HN i _ Hi).
    + destruct (fail_task_frame i d) as (Hp & Hd & Hs).
      apply (names_update imgs i (Resolved false) d);
        [assumption | assumption | exact I
        | rewrite Hd; apply HN | rewrite Hs; apply HN].
  - destruct (nth_error (promises d) i) as [[| | f fn | | |]|] eqn:Hi;
      try discriminate.
    pose proof (names_phases _ _ _ _ HN i _ Hi) as [_ Hf].
    pose proof (nth_error_In _ _ Hf) as Hin.
    destruct blob; injection Hstep as <-.
    + unfold handleImageDownload.
      destruct (getPlatform B); [ | destruct (share_files B) | ].
      * apply (names_update imgs i Saved d);
          [assumption | reflexivity | exact I | | apply HN].
        apply incl_snoc; [apply HN | assumption].
      * apply (names_update imgs i (Sharing f) d);
          [assumption | reflexivity | exact Hf | apply HN | ].
        apply incl_snoc; [apply HN | assumption].
      * apply (names_update imgs i Saved d);
          [assumption | reflexivity | exact I | | apply HN].
        apply incl_snoc; [apply HN | assumption].
      * apply (names_update imgs i Saved d);
          [assumption | reflexivity | exact I | | apply HN].
        apply incl_snoc; [apply HN | assumption].
    + destruct (fail_task_frame i d) as (Hp & Hd & Hs).
      apply (names_update imgs i (Resolved false) d);
        [assumption | assumption | exact I
        | rewrite Hd; apply HN | rewrite Hs; apply HN].
  - destruct (nth_error (promises d) i) as [[| | | f | |]|] eqn:Hi;
      try discriminate.
    pose proof (names_phases _ _ _ _ HN i _ Hi) as Hf.
    pose proof (nth_error_In _ _ Hf) as Hin.
    injection Hstep as <-.
    unfold handleImageDownload_resume, downloadWithShareAPI.
    destruct fulfilled.
    + apply (names_update imgs i Saved d);
        [assumption | reflexivity | exact I | apply HN | apply HN].
    + apply (names_update imgs i Saved d);
        [assumption | reflexivity | exact I | | apply HN].
      apply incl_snoc; [apply HN | assumption].
  - destruct (nth_error (promises d) i) as [[| | | | |]|] eqn:Hi;
      try discriminate.
    injection Hstep as <-. destruct (succeed_task_frame i d) as (Hp & Hd & Hs).
    apply (names_update imgs i (Resolved true) d);
      [assumption | assumption | exact I
      | rewrite Hd; apply HN | rewrite Hs; apply HN].
  - destruct (join d); try discriminate.
    destruct (all_resolved (promises d)); [|discriminate].
    injection Hstep as <-.
    destruct (processImages_resume_frame d) as (Hp & Hd & Hs).
    now apply (names_same imgs d).
Qed.

Lemma run_names (imgs : list string) (es : list event) :
  forall d d',
    Inv imgs d -> InvNames B href imgs d -> fired_at href es ->
    run B es d = Some d' ->
    InvNames B href imgs d'.
Proof.
  induction es as [|e es IH]; simpl; intros d d' HI HN Hes Hrun.
  - now injection Hrun as <-.
  - destruct (step B e d) as [d1|] eqn:Hstep; [|discriminate].
    inversion Hes as [|? ? He Hes']; subst.
    apply (IH d1 d'); try assumption.
    + eapply step_inv; eassumption.
    + eapply step_names; eassumption.
Qed.

Lemma new_names (img : string) (imgs : list string) :
  InvNames B href (img :: imgs) (new (img :: imgs)).
Proof.
  rewrite new_fields. cbv zeta.
  constructor; cbn [promises downloads shares].
  - intros i ph Hi. apply nth_error_In, repeat_spec in Hi. now subst ph.
  - intros x [].
  - intros x [].
Qed.

(** C9.  In a run during which the page stays at one address, the names
    under which images are shared and saved, and the names every task
    carries, are those obtained by deriving the prefix once from that
    address and numbering the images: deriving it anew in every
    [processImage] makes no difference. *)
Theorem prefix_derived_once (imgs : list string) (es : list event) (d : t) :
  fired_at href es ->
  run B es (new imgs) = Some d ->
  incl (downloads d) (filenames_prefix_once B href imgs)
  /\ incl (shares d) (filenames_prefix_once B href imgs)
  /\ (forall i f fn,
         nth_error (promises d) i = Some (Loading f fn)
         \/ nth_error (promises d) i = Some (Encoding f fn) ->
         fn = getFileNameFromUrl B href
         /\ nth_error (filenames_prefix_once B href imgs) i = Some f)
  /\ (forall i,
         i < List.length imgs ->
         nth_error (filenames_prefix_once B href imgs) i
         = Some (image_filename B href (nth i imgs ""%string) i)).
Proof.
  intros Hes Hrun.
  assert (HN : InvNames B href imgs d).
  { destruct imgs as [|img imgs].
    - apply (run_no_images B es) in Hrun as [_ ->].
      constructor; cbn.
      + intros [|i] ph Hi; discriminate.
      + intros x [].
      + intros x [].
    - exact (run_names _ _ _ _ (new_inv img imgs) (new_names img imgs) Hes Hrun). }
  split; [apply HN|]. split; [apply HN|]. split.
  - intros i f fn [Hi | Hi]; exact (names_phases _ _ _ _ HN i _ Hi).
  - intros i Hi. now apply filenames_prefix_once_nth.
Qed.

End PrefixOnce.

(** Two images saved from one listing page share the prefix. *)
Lemma prefix_derived_once_witness :
  let B := sample_browser "Mozilla/5.0 (X11; Linux x86_64)" false in
  let href := "https://example.com/condo/the-park/1205" in
  let imgs := ["https://cdn.example.com/a.png"; "https://cdn.example.com/b"] in
  let es := [ImageDownloader.Fire 0 href; ImageDownloader.Fire 0 href;
             ImageDownloader.OnLoad 0 true; ImageDownloader.OnLoad 1 true;
             ImageDownloader.BlobReady 1 true; ImageDownloader.BlobReady 0 true] in
  let d := RunSpec.state_after B imgs es in
  ImageDownloader.downloads d = ["condo_thepark_1205_2.jpg"; "condo_thepark_1205_1.png"]
  /\ incl (ImageDownloader.downloads d) (RunSpec.filenames_prefix_once B href imgs).
Proof.
  intros B href imgs es d.
  split; [vm_compute; reflexivity|].
  apply (prefix_derived_once B href imgs es d).
  - repeat constructor.
  - vm_compute. reflexivity.
Defined.

(** The function version writes its final message in the success style as
    soon as one image was saved, failures or not, and removes it after 5s. *)
Lemma function_version_final_message (d : ImageDownloader.t) :
  ImageDownloader.statusDiv d <> None ->
  ImageDownloader.notices (FunctionVersion.processImages_resume d) =
  (ImageDownloader.notices d ++
   [{| ImageDownloader.style :=
         if (0 <? ImageDownloader.processedCount d)%nat then "#4CAF50" else "#f44336";
       ImageDownloader.html :=
         "Download complete! " ++ of_nat (ImageDownloader.processedCount d)
           ++ " images downloaded. Failed: "
           ++ of_nat (ImageDownloader.failedCount d);
       ImageDownloader.duration := 5000 |}])%list.
Proof.
  intros Hdiv.
  unfold FunctionVersion.processImages_resume, FunctionVersion.finish,
    FunctionVersion.write.
  cbn [ImageDownloader.statusDiv ImageDownloader.with_join].
  destruct (ImageDownloader.statusDiv d); [reflexivity | congruence].
Qed.

(** ** The event loops as step relations *)

Module ViewFacts.

Import ImageDownloader RunSpec RunView ListFacts RunFacts.

Local Open Scope list_scope.

Ltac step_fields :=
  constructor;
  cbn [processedCount failedCount images statusDiv pending promises downloads
       shares notices join with_counts with_statusDiv with_pending
       with_promises with_downloads with_shares with_notices with_join
       set_phase downloadFile Nat.add Nat.eqb option_map];
  rewrite ?Nat.add_0_r, ?app_nil_r;
  try assumption; try reflexivity.

Lemma set_phase_step (text : t -> string) (i : nat) (old new : phase) (d : t) :
  nth_error (promises d) i = Some old ->
  task_step text i old new 0 0 [] [] d (set_phase i new d).
Proof. intros H. step_fields. Qed.

Lemma fail_task_step (i : nat) (old : phase) (d : t) :
  nth_error (promises d) i = Some old ->
  task_step status_text i old (Resolved false) 0 1 [] [] d (fail_task i d).
Proof.
  intros H. unfold fail_task, updateStatus. cbn [statusDiv with_counts].
  destruct (statusDiv d) eqn:E; step_fields; now rewrite E.
Qed.

Lemma succeed_task_step (i : nat) (old : phase) (d : t) :
  nth_error (promises d) i = Some old ->
  task_step status_text i old (Resolved true) 1 0 [] [] d (succeed_task i d).
Proof.
  intros H. unfold succeed_task, updateStatus. cbn [statusDiv with_counts].
  destruct (statusDiv d) eqn:E; step_fields; now rewrite E.
Qed.

Lemma function_fail_task_step (i : nat) (old : phase) (d : t) :
  nth_error (promises d) i = Some old ->
  task_step function_status_text i old (Resolved false) 0 1 [] [] d
    (FunctionRun.fail_task i d).
Proof.
  intros H.
  unfold FunctionRun.fail_task, FunctionVersion.updateStatus, FunctionVersion.write.
  cbn [statusDiv with_counts].
  destruct (statusDiv d) eqn:E; step_fields; now rewrite E.
Qed.

Lemma function_save_task_step (i : nat) (old : phase) (f : string) (d : t) :
  nth_error (promises d) i = Some old ->
  task_step function_status_text i old (Resolved true) 1 0 [f] [] d
    (FunctionRun.save_task i f d).
Proof.
  intros H.
  unfold FunctionRun.save_task, FunctionVersion.updateStatus, FunctionVersion.write.
  cbn [statusDiv with_counts downloadFile with_downloads].
  destruct (statusDiv d) eqn:E; step_fields; now rewrite E.
Qed.

Section Views.

Variable B : Browser.

(** Every step of the class is one of the steps of the relation. *)
Lemma class_step_view (e : event) (d d' : t) :
  step B e d = Some d' ->
  step_view B status_text (class_rule B) processImages_resume d d' e.
Proof.
  intros Hstep. destruct e as [k href|i|i drawn|i blob|i fulfilled|i|];
    simpl in Hstep.
  - destruct (nth_error (pending d) k) as [tm|] eqn:Hk; [|discriminate].
    destruct (remove_nth_split _ _ _ Hk) as (l1 & l2 & Hp & Hr).
    rewrite Hr in Hstep.
    destruct (cb tm) as [i|] eqn:Hcb; injection Hstep as <-.
    + now apply V_start with (tm := tm) (i := i) (l1 := l1) (l2 := l2).
    + now apply V_remove with (tm := tm) (l1 := l1) (l2 := l2).
  - destruct (nth_error (promises d) i) as [[| f fn | | | |]|] eqn:Hi;
      try discriminate.
    injection Hstep as <-.
    eapply V_task; [exact (R_error B i f fn) | apply fail_task_step; exact Hi |].
    unfold fail_task, updateStatus. cbn [statusDiv with_counts].
    now destruct (statusDiv d).
  - destruct (nth_error (promises d) i) as [[| f fn | | | |]|] eqn:Hi;
      try discriminate.
    destruct drawn; injection Hstep as <-.
    + eapply V_task; [exact (R_load B i f fn) | apply set_phase_step; exact Hi | reflexivity].
    + eapply V_task; [exact (R_draw B i f fn) | apply fail_task_step; exact Hi |].
      unfold fail_task, updateStatus. cbn [statusDiv with_counts].
      now destruct (statusDiv d).
  - destruct (nth_error (promises d) i) as [[| | f fn | | |]|] eqn:Hi;
      try discriminate.
    destruct blob; injection Hstep as <-.
    + unfold handleImageDownload.
      destruct (getPlatform B) eqn:Hpl; [ | destruct (share_files B) eqn:Hsh | ].
      * eapply V_task; [apply (R_save B i f fn); left; congruence | | reflexivity].
        step_fields.
      * eapply V_task; [now apply (R_share B i f fn) | | reflexivity]. step_fields.
      * eapply V_task; [apply (R_save B i f fn); now right | | reflexivity]. step_fields.
      * eapply V_task; [apply (R_save B i f fn); left; congruence | | reflexivity].
        step_fields.
    + eapply V_task; [exact (R_noblob B i f fn) | apply fail_task_step; exact Hi |].
      unfold fail_task, updateStatus. cbn [statusDiv with_counts].
      now destruct (statusDiv d).
  - destruct (nth_error (promises d) i) as [[| | | f | |]|] eqn:Hi;
      try discriminate.
    injection Hstep as <-.
    unfold handleImageDownload_resume, downloadWithShareAPI.
    destruct fulfilled; cbn [negb].
    + eapply V_task; [exact (R_shared B i f) | apply set_phase_step; exact Hi | reflexivity].
    + eapply V_task; [exact (R_fallback B i f) | | reflexivity]. step_fields.
  - destruct (nth_error (promises d) i) as [[| | | | |]|] eqn:Hi;
      try discriminate.
    injection Hstep as <-.
    eapply V_task; [exact (R_resume B i) | apply succeed_task_step; exact Hi |].
    unfold succeed_task, updateStatus. cbn [statusDiv with_counts].
    now destruct (statusDiv d).
  - destruct (join d) eqn:Hj; try discriminate.
    destruct (all_resolved (promises d)) eqn:Hall; [|discriminate].
    injection Hstep as <-. now apply V_join.
Qed.

(** Every step of the function version is one of the steps of the relation. *)
Lemma function_step_view (e : event) (d d' : t) :
  FunctionRun.step B e d = Some d' ->
  step_view B function_status_text function_rule
    FunctionVersion.processImages_resume d d' e.
Proof.
  intros Hstep. destruct e as [k href|i|i drawn|i blob|i fulfilled|i|];
    simpl in Hstep; try discriminate.
  - destruct (nth_error (pending d) k) as [tm|] eqn:Hk; [|discriminate].
    destruct (remove_nth_split _ _ _ Hk) as (l1 & l2 & Hp & Hr).
    rewrite Hr in Hstep.
    destruct (cb tm) as [i|] eqn:Hcb; injection Hstep as <-.
    + now apply V_start with (tm := tm) (i := i) (l1 := l1) (l2 := l2).
    + now apply V_remove with (tm := tm) (l1 := l1) (l2 := l2).
  - destruct (nth_error (promises d) i) as [[| f fn | | | |]|] eqn:Hi;
      try discriminate.
    injection Hstep as <-.
    eapply V_task; [exact (F_error i f fn) | apply function_fail_task_step; exact Hi |].
    unfold FunctionRun.fail_task, FunctionVersion.updateStatus, FunctionVersion.write.
    cbn [statusDiv with_counts]. now destruct (statusDiv d).
  - destruct (nth_error (promises d) i) as [[| f fn | | | |]|] eqn:Hi;
      try discriminate.
    destruct drawn; injection Hstep as <-.
    + eapply V_task; [exact (F_load i f fn) | apply set_phase_step; exact Hi | reflexivity].
    + eapply V_task; [exact (F_draw i f fn) | apply function_fail_task_step; exact Hi |].
      unfold FunctionRun.fail_task, FunctionVersion.updateStatus, FunctionVersion.write.
      cbn [statusDiv with_counts]. now destruct (statusDiv d).
  - destruct (nth_error (promises d) i) as [[| | f fn | | |]|] eqn:Hi;
      try discriminate.
    destruct blob; injection Hstep as <-.
    + eapply V_task; [exact (F_save i f fn) | apply function_save_task_step; exact Hi |].
      unfold FunctionRun.save_task, FunctionVersion.updateStatus, FunctionVersion.write.
      cbn [statusDiv with_counts downloadFile with_downloads].
      now destruct (statusDiv d).
    + eapply V_task; [exact (F_noblob i f fn) | apply function_fail_task_step; exact Hi |].
      unfold FunctionRun.fail_task, FunctionVersion.updateStatus, FunctionVersion.write.
      cbn [statusDiv with_counts]. now destruct (statusDiv d).
  - destruct (join d) eqn:Hj; try discriminate.
    destruct (all_resolved (promises d)) eqn:Hall; [|discriminate].
    injection Hstep as <-. now apply V_join.
Qed.

End Views.

End ViewFacts.

(** ** What both event loops keep *)

Module SoundFacts.

Import ImageDownloader RunSpec RunView ListFacts RunFacts ViewFacts.

Local Open Scope list_scope.

Lemma sum_set_nth (w : phase -> nat) (i : nat) (x y : phase) (l : list phase) :
  nth_error l i = Some y ->
  list_sum (map w (set_nth i x l)) + w y = list_sum (map w l) + w x.
Proof.
  revert i. induction l as [|a l IH]; intros [|i]; simpl; try discriminate.
  - intros H. injection H as ->. lia.
  - intros H. specialize (IH _ H). lia.
Qed.

Lemma unresolved_counts (ph : phase) :
  is_resolved ph = false -> is_success ph = false /\ is_failure ph = false.
Proof. destruct ph as [| | | | |[]]; simpl; intros H; try discriminate; auto. Qed.

Lemma only_starts_nil (l : list timeout) :
  forallb is_start l = true -> starts l = [] -> l = [].
Proof.
  destruct l as [|tm l]; [reflexivity|]. intros H1 H2.
  rewrite starts_cons in H2. cbn [forallb] in H1. unfold is_start in H1.
  destruct (cb tm); simpl in *; discriminate.
Qed.

Lemma forallb_is_start_timers (interval n : nat) :
  forall i, forallb is_start (timers interval i n) = true.
Proof.
  induction n as [|n IH]; intros i; [reflexivity|].
  change (timers interval i (S n))
    with ({| cb := StartTask i; delay := i * interval |}
            :: timers interval (S i) n).
  cbn [forallb]. now rewrite IH.
Qed.

Lemma resolved_no_starts (imgs : list string) (d : t) :
  Core imgs d -> all_resolved (promises d) = true -> starts (pending d) = [].
Proof.
  intros HC Hall. destruct (starts (pending d)) as [|i l] eqn:E; [reflexivity|].
  assert (Hi : nth_error (promises d) i = Some Scheduled).
  { apply (core_scheduled _ _ HC). rewrite E. now left. }
  pose proof (forallb_nth_error _ _ _ _ Hall Hi). discriminate.
Qed.

Lemma NoDup_snoc {A : Type} (l : list A) (x : A) :
  NoDup l -> ~ In x l -> NoDup (l ++ [x]).
Proof.
  intros Hl Hx. apply NoDup_app; [assumption | repeat constructor; intros [] |].
  intros y Hy [<- | []]. contradiction.
Qed.

(** The fields [removeStatusDisplay] leaves alone, and the one it may
    change. *)
Lemma removeStatusDisplay_fields (d : t) :
  processedCount (removeStatusDisplay d) = processedCount d
  /\ failedCount (removeStatusDisplay d) = failedCount d
  /\ images (removeStatusDisplay d) = images d
  /\ pending (removeStatusDisplay d) = pending d
  /\ promises (removeStatusDisplay d) = promises d
  /\ downloads (removeStatusDisplay d) = downloads d
  /\ shares (removeStatusDisplay d) = shares d
  /\ notices (removeStatusDisplay d) = notices d
  /\ join (removeStatusDisplay d) = join d
  /\ statusDiv (removeStatusDisplay d) =
     option_map (fun el => {| background := background el; content := content el;
                              attached := false |}) (statusDiv d).
Proof.
  unfold removeStatusDisplay.
  destruct (statusDiv d) as [[bg txt []]|] eqn:E; cbn; rewrite ?E; repeat split.
Qed.

Lemma waiting_removals_start (tm : timeout) (l1 l2 : list timeout) :
  is_start tm = true ->
  List.length (filter (fun tm => negb (is_start tm)) (l1 ++ tm :: l2))
  = List.length (filter (fun tm => negb (is_start tm)) (l1 ++ l2)).
Proof.
  intros H. rewrite !filter_app. cbn [filter]. now rewrite H.
Qed.

Lemma waiting_removals_remove (tm : timeout) (l1 l2 : list timeout) :
  is_start tm = false ->
  List.length (filter (fun tm => negb (is_start tm)) (l1 ++ tm :: l2))
  = S (List.length (filter (fun tm => negb (is_start tm)) (l1 ++ l2))).
Proof.
  intros H. rewrite !filter_app. cbn [filter]. rewrite H. cbn [negb].
  rewrite !length_app. cbn [List.length]. lia.
Qed.

Section Generic.

Variable B : Browser.
Variable w : phase -> nat.
Variable text : t -> string.
Variable final : t -> notice.
Variable rule : event -> nat -> phase -> phase -> nat -> nat
                -> list string -> list string -> Prop.
Variable resume : t -> t.

Hypothesis Hrule : good_rule w rule.
Hypothesis Hresume : good_resume text final resume.

Lemma core_start (imgs : list string) (href : string) (i : nat)
  (tm : timeout) (l1 l2 : list timeout) (d : t) :
  Core imgs d -> pending d = l1 ++ tm :: l2 -> cb tm = StartTask i ->
  nth_error (promises d) i = Some Scheduled
  /\ ~ In i (starts (l1 ++ l2))
  /\ Core imgs (processImage B href i (with_pending (l1 ++ l2) d)).
Proof.
  intros HC Hp Hcb. destruct HC as [Himg Hlen Hnd Hsch Htm].
  assert (Hstarts : starts (pending d) = starts l1 ++ i :: starts l2).
  { rewrite Hp, starts_app, starts_cons, Hcb. reflexivity. }
  rewrite Hstarts in *.
  assert (Hi : nth_error (promises d) i = Some Scheduled)
    by (apply Hsch; apply in_elt).
  pose proof (NoDup_remove_2 _ _ _ Hnd) as Hnot.
  split; [assumption|]. split; [now rewrite starts_app|].
  unfold processImage, set_phase.
  constructor; cbn [images promises pending with_promises with_pending].
  - assumption.
  - now rewrite length_set_nth.
  - rewrite starts_app. now apply NoDup_remove_1 in Hnd.
  - intros j Hj. rewrite starts_app in Hj.
    rewrite nth_error_set_nth_other by (intros ->; contradiction).
    apply Hsch.
    apply in_app_or in Hj as [Hj | Hj]; apply in_or_app; [now left | right; now right].
  - intros j Hj. rewrite starts_app.
    destruct (Nat.eq_dec i j) as [->|Hij].
    + rewrite (nth_error_set_nth_same _ _ _ _ Hi) in Hj. discriminate.
    + rewrite nth_error_set_nth_other in Hj by assumption.
      apply Htm in Hj.
      apply in_app_or in Hj as [Hj | [Hj | Hj]]; apply in_or_app; auto.
      contradiction.
Qed.

Lemma core_same (imgs : list string) (d d' : t) :
  Core imgs d ->
  images d' = images d -> promises d' = promises d ->
  starts (pending d') = starts (pending d) ->
  Core imgs d'.
Proof.
  intros [Himg Hlen Hnd Hsch Htm] Hi Hp Hs.
  constructor; rewrite ?Hi, ?Hp, ?Hs; assumption.
Qed.

Lemma core_task (imgs : list string) (i : nat) (old new : phase)
  (dp df : nat) (dl sh : list string) (d d' : t) :
  Core imgs d -> task_step text i old new dp df dl sh d d' ->
  pending d' = pending d -> old <> Scheduled -> new <> Scheduled ->
  Core imgs d'.
Proof.
  intros [Himg Hlen Hnd Hsch Htm] HT Hp Hold Hnew. destruct HT.
  constructor.
  - congruence.
  - now rewrite ts_new0, length_set_nth.
  - now rewrite Hp.
  - intros j Hj. rewrite Hp in Hj. rewrite ts_new0.
    specialize (Hsch j Hj).
    rewrite nth_error_set_nth_other; [assumption|]. intros ->. congruence.
  - intros j Hj. rewrite Hp. apply Htm. rewrite ts_new0 in Hj.
    destruct (Nat.eq_dec i j) as [->|Hij].
    + rewrite (nth_error_set_nth_same _ _ _ _ ts_old0) in Hj. congruence.
    + now rewrite nth_error_set_nth_other in Hj.
Qed.

(** A step of the relation keeps [Sound]. *)
Lemma sound_step (imgs : list string) (e : event) (d d' : t) :
  Sound text final imgs d ->
  step_view B text rule resume d d' e ->
  Sound text final imgs d'.
Proof.
  intros [HC Hok Hko Hidle Hwait Hdone] Hview.
  destruct Hrule as [Hw Hmoves]. destruct Hresume as [Hext Hshape].
  destruct Hview as [k href tm i l1 l2 Hp Hcb -> | k href tm l1 l2 Hp Hcb ->
                    | e i old new dp df dl sh Hr HT Hpend | Hj Hall ->].
  - (* a start timer fires *)
    destruct (core_start imgs href i tm l1 l2 d HC Hp Hcb) as (Hi & Hnot & HC').
    unfold processImage, set_phase in *.
    constructor;
      cbn [processedCount failedCount images statusDiv pending promises notices
           join with_promises with_pending].
    + assumption.
    + pose proof (count_set_nth is_success i
                    (Loading (image_filename B href (nth i (images d) ""%string) i)
                             (getFileNameFromUrl B href))
                    Scheduled (promises d) Hi) as Hc.
      simpl in Hc. lia.
    + pose proof (count_set_nth is_failure i
                    (Loading (image_filename B href (nth i (images d) ""%string) i)
                             (getFileNameFromUrl B href))
                    Scheduled (promises d) Hi) as Hc.
      simpl in Hc. lia.
    + intros Hj. rewrite (Hidle Hj) in Hi. now destruct i.
    + intros Hj. destruct (Hwait Hj) as (Hdiv & Hn & Hst).
      split; [|split; [assumption|]].
      * rewrite Hdiv. f_equal. f_equal. symmetry. now apply Hext.
      * rewrite Hp in Hst. rewrite forallb_app in Hst |- *. cbn [forallb] in Hst.
        apply andb_prop in Hst as [H1 H2]. apply andb_prop in H2 as [_ H2].
        now rewrite H1, H2.
    + intros Hj. destruct (Hdone Hj) as (Hall & _).
      pose proof (forallb_nth_error _ _ _ _ Hall Hi). discriminate.
  - (* the removal timer fires *)
    destruct (removeStatusDisplay_fields (with_pending (l1 ++ l2) d))
      as (Hpc & Hfc & Him & Hpe & Hpr & _ & _ & Hno & Hjo & Hdiv).
    cbn [processedCount failedCount images statusDiv pending promises notices
         join with_pending] in *.
    assert (Hs : starts (l1 ++ l2) = starts (pending d)).
    { rewrite Hp, !starts_app, starts_cons, Hcb. reflexivity. }
    constructor; rewrite ?Hpc, ?Hfc, ?Him, ?Hpe, ?Hpr, ?Hno, ?Hjo, ?Hdiv.
    + apply (core_same imgs d); try assumption. now rewrite Hpe.
    + assumption.
    + assumption.
    + assumption.
    + intros Hj. destruct (Hwait Hj) as (_ & _ & Hst).
      rewrite Hp, forallb_app in Hst. cbn [forallb] in Hst. unfold is_start in Hst.
      rewrite Hcb in Hst. cbn in Hst. now rewrite andb_false_r in Hst.
    + intros Hj. destruct (Hdone Hj) as (Hall & Hn & att & Hd & Hpd).
      assert (Hfin : final (removeStatusDisplay (with_pending (l1 ++ l2) d)) = final d)
        by (apply Hext; assumption).
      rewrite Hfin. split; [assumption|]. split; [assumption|].
      exists false. rewrite Hd. split; [reflexivity|].
      rewrite Hp in Hpd. destruct att.
      * destruct l1 as [|x [|y l1]]; try discriminate. now destruct l2.
      * now destruct l1.
  - (* a task moves *)
    destruct (Hmoves _ _ _ _ _ _ _ _ Hr)
      as (Hold & Hres & Hnew & _ & Hdp & Hdf & _).
    destruct (unresolved_counts _ Hres) as [Hs Hf].
    pose proof HT as [Hi Hpr Hpc Hfc Him Hno Hjo _ _ Hdiv].
    constructor.
    + now apply (core_task imgs i old new dp df dl sh d d').
    + rewrite Hpc, Hpr, Hok.
      pose proof (count_set_nth is_success i new old (promises d) Hi) as Hc.
      rewrite Hs in Hc. lia.
    + rewrite Hfc, Hpr, Hko.
      pose proof (count_set_nth is_failure i new old (promises d) Hi) as Hc.
      rewrite Hf in Hc. lia.
    + intros Hj. rewrite Hjo in Hj. rewrite (Hidle Hj) in Hi. now destruct i.
    + intros Hj. rewrite Hjo in Hj. destruct (Hwait Hj) as (Hd & Hn & Hst).
      split; [|split; [congruence | now rewrite Hpend]].
      rewrite Hdiv, Hd.
      destruct (dp + df =? 0)%nat eqn:Hz; [|reflexivity].
      apply Nat.eqb_eq in Hz. f_equal. f_equal. symmetry.
      apply Hext; [lia | lia | assumption].
    + intros Hj. rewrite Hjo in Hj. destruct (Hdone Hj) as (Hall & _).
      pose proof (forallb_nth_error _ _ _ _ Hall Hi) as Hx.
      change ((fun ph => match ph with Resolved _ => true | _ => false end) old)
        with (is_resolved old) in Hx.
      congruence.
  - (* the join completes *)
    destruct (Hwait Hj) as (Hd & Hn & Hst).
    assert (Hnil : pending d = []).
    { apply only_starts_nil; [assumption|]. now apply (resolved_no_starts imgs). }
    rewrite (Hshape _ d Hd Hn), Hnil.
    match goal with
    | |- Sound _ _ _ ?x =>
        assert (Hfin : final x = final d) by (apply Hext; reflexivity)
    end.
    constructor;
      cbn [processedCount failedCount images statusDiv pending promises notices
           join with_statusDiv with_pending with_notices with_join app].
    + apply (core_same imgs d); try assumption; try reflexivity.
      cbn [pending with_pending]. now rewrite Hnil.
    + assumption.
    + assumption.
    + discriminate.
    + discriminate.
    + intros _. rewrite Hfin.
      split; [assumption|]. split; [reflexivity|]. now exists true.
Qed.

(** A step of the relation lowers the potential. *)
Lemma potential_step (imgs : list string) (e : event) (d d' : t) :
  Sound text final imgs d ->
  step_view B text rule resume d d' e ->
  potential w d' < potential w d.
Proof.
  intros [HC Hok Hko Hidle Hwait Hdone] Hview.
  destruct Hrule as [Hw Hmoves]. destruct Hresume as [Hext Hshape].
  unfold potential.
  destruct Hview as [k href tm i l1 l2 Hp Hcb -> | k href tm l1 l2 Hp Hcb ->
                    | e i old new dp df dl sh Hr HT Hpend | Hj Hall ->].
  - destruct (core_start imgs href i tm l1 l2 d HC Hp Hcb) as (Hi & _ & _).
    unfold processImage, set_phase.
    cbn [images pending promises join with_promises with_pending].
    pose proof (sum_set_nth w i
                  (Loading (image_filename B href (nth i (images d) ""%string) i)
                           (getFileNameFromUrl B href))
                  Scheduled (promises d) Hi) as Hsum.
    pose proof (Hw (image_filename B href (nth i (images d) ""%string) i)
                  (getFileNameFromUrl B href)) as Hlt.
    rewrite Hp, (waiting_removals_start tm)
      by (unfold is_start; now rewrite Hcb).
    lia.
  - destruct (removeStatusDisplay_fields (with_pending (l1 ++ l2) d))
      as (_ & _ & _ & Hpe & Hpr & _ & _ & _ & Hjo & _).
    cbn [pending promises join with_pending] in Hpe, Hpr, Hjo.
    rewrite Hpe, Hpr, Hjo, Hp, (waiting_removals_remove tm)
      by (unfold is_start; now rewrite Hcb).
    lia.
  - destruct (Hmoves _ _ _ _ _ _ _ _ Hr) as (_ & _ & _ & Hlt & _).
    destruct HT as [Hi Hpr _ _ _ _ Hjo _ _ _].
    rewrite Hpr, Hpend, Hjo.
    pose proof (sum_set_nth w i new old (promises d) Hi). lia.
  - destruct (Hwait Hj) as (Hd & Hn & Hst).
    assert (Hnil : pending d = []).
    { apply only_starts_nil; [assumption|]. now apply (resolved_no_starts imgs). }
    rewrite (Hshape _ d Hd Hn), Hnil, Hj.
    cbn [pending promises join with_statusDiv with_pending with_notices
         with_join app].
    set (tasks := list_sum (map w (promises d))). cbn. lia.
Qed.

Lemma saves_same (names : list string) (d d' : t) :
  Saves names d ->
  promises d' = promises d -> downloads d' = downloads d -> shares d' = shares d ->
  Saves names d'.
Proof.
  intros [Hn Hd Hnd Hs Hsn] Hp Hdl Hsh.
  constructor; rewrite ?Hp, ?Hdl, ?Hsh; assumption.
Qed.

Lemma all_saved_same (names : list string) (d d' : t) :
  all_saved names d ->
  promises d' = promises d -> downloads d' = downloads d ->
  all_saved names d'.
Proof. intros H Hp Hdl i ph f. rewrite Hp, Hdl. apply H. Qed.

Lemma resume_fields (imgs : list string) (d : t) :
  Sound text final imgs d -> join d = Awaiting ->
  promises (resume d) = promises d
  /\ downloads (resume d) = downloads d
  /\ shares (resume d) = shares d.
Proof.
  intros HS Hj. destruct Hresume as [_ Hshape].
  destruct (s_awaiting _ _ _ _ HS Hj) as (Hd & Hn & _).
  rewrite (Hshape _ d Hd Hn). repeat split.
Qed.

Lemma saved_not_carried (ph : phase) (f : string) :
  phase_file ph = Some f -> is_saved ph = false.
Proof. destruct ph as [| | | | |[]]; simpl; intros H; try discriminate; auto. Qed.

Section Names.

Variable href : string.
Variable imgs : list string.
Variable names : list string.

Hypothesis names_nth :
  forall i, i < List.length imgs ->
            nth_error names i = Some (image_filename B href (nth i imgs ""%string) i).

Hypothesis names_inj :
  forall i j f, nth_error names i = Some f -> nth_error names j = Some f -> i = j.

(** A step taken while the page is at [href] keeps [Saves]. *)
Lemma saves_step (e : event) (d d' : t) :
  Sound text final imgs d -> Saves names d ->
  match e with Fire _ h => h = href | _ => True end ->
  step_view B text rule resume d d' e ->
  Saves names d'.
Proof.
  intros HS HV He Hview. destruct Hrule as [Hw Hmoves].
  destruct Hview as [k h tm i l1 l2 Hp Hcb -> | k h tm l1 l2 Hp Hcb ->
                    | e i old new dp df dl sh Hr HT Hpend | Hj Hall ->].
  - subst h.
    destruct (core_start imgs href i tm l1 l2 d (s_core _ _ _ _ HS) Hp Hcb)
      as (Hi & _ & _).
    assert (Hlt : i < List.length imgs).
    { rewrite <- (core_length _ _ (s_core _ _ _ _ HS)).
      apply nth_error_Some. congruence. }
    destruct HV as [Hn Hd Hnd Hs Hsn].
    unfold processImage, set_phase.
    constructor; cbn [promises downloads shares with_promises with_pending images];
      try assumption.
    + intros j ph f Hj Hf.
      apply nth_error_set_nth_inv in Hj as [[-> ->] | [_ Hj]].
      * cbn in Hf. injection Hf as <-.
        rewrite (core_images _ _ (s_core _ _ _ _ HS)). now apply names_nth.
      * now apply (Hn j ph).
    + intros f Hf. destruct (Hd f Hf) as (j & ph & Hj & Hph & Hsv).
      exists j, ph. split; [assumption|]. split; [|assumption].
      rewrite nth_error_set_nth_other; [assumption|].
      intros ->. rewrite Hi in Hph. injection Hph as <-. discriminate.
    + intros f Hf. destruct (Hs f Hf) as (j & ph & Hj & Hph & Hsv).
      exists j, ph. split; [assumption|]. split; [|assumption].
      rewrite nth_error_set_nth_other; [assumption|].
      intros ->. rewrite Hi in Hph. injection Hph as <-.
      destruct Hsv; discriminate.
  - destruct (removeStatusDisplay_fields (with_pending (l1 ++ l2) d))
      as (_ & _ & _ & _ & Hpr & Hdl & Hsh & _).
    now apply (saves_same names d).
  - destruct (Hmoves _ _ _ _ _ _ _ _ Hr)
      as (_ & _ & _ & _ & _ & _ & Hcarry & Hshare & Hshared & Hsave & Hmono).
    destruct HT as [Hi Hpr _ _ _ _ _ Hdl Hsh _].
    destruct HV as [Hn Hd Hnd Hs Hsn].
    assert (Hnew : nth_error (promises d') i = Some new).
    { rewrite Hpr. now apply nth_error_set_nth_same with (y := old). }
    constructor.
    + intros j ph f Hj Hf. rewrite Hpr in Hj.
      apply nth_error_set_nth_inv in Hj as [[-> ->] | [_ Hj]].
      * apply (Hn i old); [assumption | now apply Hcarry].
      * now apply (Hn j ph).
    + intros f Hf. rewrite Hdl in Hf. apply in_app_or in Hf as [Hf | Hf].
      * destruct (Hd f Hf) as (j & ph & Hj & Hph & Hsv).
        destruct (Nat.eq_dec i j) as [<-|Hij].
        -- exists i, new. split; [assumption|]. split; [assumption|].
           apply Hmono. congruence.
        -- exists j, ph. split; [assumption|]. split; [|assumption].
           now rewrite Hpr, nth_error_set_nth_other.
      * destruct (Hsave f Hf) as (Hold & _ & Hsv).
        exists i, new. split; [now apply (Hn i old)|]. now split.
    + rewrite Hdl. destruct dl as [|f dl]; [now rewrite app_nil_r|].
      destruct (Hsave f (or_introl eq_refl)) as (Hold & Heq & _).
      rewrite Heq. apply NoDup_snoc; [assumption|].
      intros Hf. destruct (Hd f Hf) as (j & ph & Hj & Hph & Hsv).
      assert (j = i) by (apply (names_inj j i f); [assumption | now apply (Hn i old)]).
      subst j. rewrite Hi in Hph. injection Hph as <-.
      rewrite (saved_not_carried _ _ Hold) in Hsv. discriminate.
    + intros f Hf. rewrite Hsh in Hf. apply in_app_or in Hf as [Hf | Hf].
      * destruct (Hs f Hf) as (j & ph & Hj & Hph & Hsv).
        destruct (Nat.eq_dec i j) as [<-|Hij].
        -- exists i, new. split; [assumption|]. split; [assumption|].
           right. rewrite Hi in Hph. injection Hph as <-.
           destruct Hsv as [-> | Hsv]; [now apply (Hshared f) | now apply Hmono].
        -- exists j, ph. split; [assumption|]. split; [|assumption].
           now rewrite Hpr, nth_error_set_nth_other.
      * destruct (Hshare f Hf) as ((fn & Hold) & _ & ->).
        exists i, (Sharing f). split; [|split; [assumption | now left]].
        apply (Hn i old); [assumption | now rewrite Hold].
    + rewrite Hsh. destruct sh as [|f sh]; [now rewrite app_nil_r|].
      destruct (Hshare f (or_introl eq_refl)) as ((fn & Hold) & Heq & _).
      rewrite Heq. apply NoDup_snoc; [assumption|].
      intros Hf. destruct (Hs f Hf) as (j & ph & Hj & Hph & Hsv).
      assert (j = i).
      { apply (names_inj j i f); [assumption|].
        apply (Hn i old); [assumption | now rewrite Hold]. }
      subst j. rewrite Hi in Hph. injection Hph as <-. rewrite Hold in Hsv.
      destruct Hsv; discriminate.
  - destruct (resume_fields imgs d HS Hj) as (Hpr & Hdl & Hsh).
    now apply (saves_same names d).
Qed.

Hypothesis Hsaving : saving_rule rule.

(** With such rules every saved task has its file. *)
Lemma all_saved_step (e : event) (d d' : t) :
  Sound text final imgs d -> Saves names d -> all_saved names d ->
  step_view B text rule resume d d' e ->
  all_saved names d'.
Proof.
  intros HS HV HA Hview. destruct Hrule as [Hw Hmoves].
  destruct Hview as [k h tm i l1 l2 Hp Hcb -> | k h tm l1 l2 Hp Hcb ->
                    | e i old new dp df dl sh Hr HT Hpend | Hj Hall ->].
  - unfold processImage, set_phase.
    intros j ph f Hj Hsv Hf.
    cbn [promises downloads with_promises with_pending] in *.
    apply nth_error_set_nth_inv in Hj as [[-> ->] | [_ Hj]]; [discriminate|].
    now apply (HA j ph f).
  - destruct (removeStatusDisplay_fields (with_pending (l1 ++ l2) d))
      as (_ & _ & _ & _ & Hpr & Hdl & _).
    now apply (all_saved_same names d).
  - destruct HT as [Hi Hpr _ _ _ _ _ Hdl _ _].
    intros j ph f Hj Hsv Hf. rewrite Hpr in Hj. rewrite Hdl.
    apply in_or_app.
    apply nth_error_set_nth_inv in Hj as [[-> ->] | [_ Hj]].
    + destruct (is_saved old) eqn:Hold.
      * left. now apply (HA i old f).
      * right. destruct (Hsaving _ _ _ _ _ _ _ _ Hr Hsv Hold) as (f' & Hcar & ->).
        pose proof (sv_named _ _ HV i old f' Hi Hcar) as Hf'.
        left. congruence.
    + left. now apply (HA j ph f).
  - destruct (resume_fields imgs d HS Hj) as (Hpr & Hdl & _).
    now apply (all_saved_same names d).
Qed.

End Names.

End Generic.

End SoundFacts.

(** ** The two versions as instances *)

Module Instances.

Import ImageDownloader RunSpec RunView ListFacts RunFacts ViewFacts SoundFacts.

Local Open Scope list_scope.

Lemma In_singleton {A : Type} (x y : A) : In x [y] -> x = y.
Proof. intros [H | []]. now symmetry. Qed.

Lemma class_rule_good (B : Browser) : good_rule weight (class_rule B).
Proof.
  split; [intros; simpl; lia|].
  intros e i old new dp df dl sh Hr.
  destruct Hr; unfold sound_move; cbn;
    repeat match goal with
           | |- _ /\ _ => split
           end;
    try discriminate; try reflexivity; try lia; try tauto;
    try (intros g Hg; try discriminate Hg; try contradiction;
         try (apply In_singleton in Hg; subst g);
         try (injection Hg as <-);
         repeat split; try reflexivity; eauto).
Qed.

Lemma function_rule_good : good_rule function_weight function_rule.
Proof.
  split; [intros; simpl; lia|].
  intros e i old new dp df dl sh Hr.
  destruct Hr; unfold sound_move; cbn;
    repeat match goal with
           | |- _ /\ _ => split
           end;
    try discriminate; try reflexivity; try lia; try tauto;
    try (intros g Hg; try discriminate Hg; try contradiction;
         try (apply In_singleton in Hg; subst g);
         try (injection Hg as <-);
         repeat split; try reflexivity; eauto).
Qed.

Lemma function_rule_saving : saving_rule function_rule.
Proof.
  intros e i old new dp df dl sh Hr Hnew Hold.
  destruct Hr; try discriminate. now exists f.
Qed.

Lemma direct_rule_good (B : Browser) : good_rule weight (direct_rule B).
Proof.
  destruct (class_rule_good B) as [Hw Hm]. split; [assumption|].
  intros e i old new dp df dl sh [Hr _]. now apply (Hm e i).
Qed.

Lemma direct_rule_saving (B : Browser) : saving_rule (direct_rule B).
Proof.
  intros e i old new dp df dl sh (Hr & Hold & Hnew & _) Hs Ho.
  destruct Hr; try discriminate; try (now exists f);
    now destruct (Hold f).
Qed.

Lemma class_resume_good :
  good_resume status_text final_notice processImages_resume.
Proof.
  split.
  - intros d d' Hp Hf Hi.
    unfold status_text, final_notice, success_notice, failure_notice.
    now rewrite Hp, Hf, Hi.
  - intros el d. apply processImages_resume_shape.
Qed.

Lemma function_resume_good :
  good_resume function_status_text function_final_notice
    FunctionVersion.processImages_resume.
Proof.
  split.
  - intros d d' Hp Hf Hi. unfold function_status_text, function_final_notice.
    now rewrite Hp, Hf, Hi.
  - intros el d Hd Hn.
    unfold FunctionVersion.processImages_resume, FunctionVersion.finish,
      FunctionVersion.write, setTimeout, function_final_notice.
    cbn [statusDiv with_join processedCount failedCount]. rewrite Hd.
    cbn [statusDiv with_statusDiv with_notices notices pending with_join
         processedCount failedCount]. now rewrite Hn.
Qed.

(** The runs of each version are runs of its step function. *)
Lemma class_run_with (B : Browser) (es : list event) :
  forall d, run B es d = run_with (step B) es d.
Proof.
  induction es as [|e es IH]; intros d; simpl; [reflexivity|].
  destruct (step B e d); [apply IH | reflexivity].
Qed.

Lemma function_run_with (B : Browser) (es : list event) :
  forall d, FunctionRun.run B es d = run_with (FunctionRun.step B) es d.
Proof.
  induction es as [|e es IH]; intros d; simpl; [reflexivity|].
  destruct (FunctionRun.step B e d); [apply IH | reflexivity].
Qed.

(** An invariant of the steps is an invariant of the runs. *)
Lemma run_with_invariant (stepf : event -> t -> option t)
  (Q : event -> Prop) (P : t -> Prop) :
  (forall e d d', Q e -> P d -> stepf e d = Some d' -> P d') ->
  forall es d d',
    Forall Q es -> P d -> run_with stepf es d = Some d' -> P d'.
Proof.
  intros Hstep. induction es as [|e es IH]; simpl; intros d d' HQ HP Hrun.
  - now injection Hrun as <-.
  - destruct (stepf e d) as [d1|] eqn:E; [|discriminate].
    inversion HQ; subst. apply (IH d1 d'); eauto.
Qed.

Lemma Forall_True {A : Type} (l : list A) : Forall (fun _ => True) l.
Proof. induction l; constructor; auto. Qed.

Section Reach.

Variable B : Browser.
Variable w : phase -> nat.
Variable text : t -> string.
Variable final : t -> notice.
Variable rule : event -> nat -> phase -> phase -> nat -> nat
                -> list string -> list string -> Prop.
Variable resume : t -> t.
Variable stepf : event -> t -> option t.

Hypothesis Hrule : good_rule w rule.
Hypothesis Hresume : good_resume text final resume.
Hypothesis Hview :
  forall e d d', stepf e d = Some d' -> step_view B text rule resume d d' e.

Lemma reach_sound (imgs : list string) (es : list event) (d d' : t) :
  Sound text final imgs d -> run_with stepf es d = Some d' ->
  Sound text final imgs d'.
Proof.
  intros HS Hrun.
  apply (run_with_invariant stepf (fun _ => True) (Sound text final imgs))
    with (es := es) (d := d); try assumption; [|apply Forall_True].
  intros e d0 d1 _ H0 Hstep.
  exact (sound_step B w text final rule resume Hrule Hresume imgs e d0 d1 H0
           (Hview _ _ _ Hstep)).
Qed.

(** Every event uses up some of the potential. *)
Lemma reach_potential (imgs : list string) (es : list event) :
  forall d d',
    Sound text final imgs d -> run_with stepf es d = Some d' ->
    List.length es + potential w d' <= potential w d.
Proof.
  induction es as [|e es IH]; simpl; intros d d' HS Hrun.
  - injection Hrun as <-. lia.
  - destruct (stepf e d) as [d1|] eqn:E; [|discriminate].
    pose proof (Hview _ _ _ E) as Hv.
    pose proof (potential_step B w text final rule resume Hrule Hresume
                  imgs e d d1 HS Hv) as Hlt.
    pose proof (sound_step B w text final rule resume Hrule Hresume
                  imgs e d d1 HS Hv) as HS1.
    specialize (IH d1 d' HS1 Hrun). lia.
Qed.

Lemma reach_saves (href : string) (imgs names : list string) (es : list event) :
  (forall i, i < List.length imgs ->
             nth_error names i = Some (image_filename B href (nth i imgs ""%string) i)) ->
  (forall i j f, nth_error names i = Some f -> nth_error names j = Some f -> i = j) ->
  forall d d',
    fired_at href es ->
    Sound text final imgs d -> Saves names d ->
    run_with stepf es d = Some d' ->
    Saves names d'.
Proof.
  intros Hnth Hinj d d' Hes HS HV Hrun.
  assert (H : Sound text final imgs d' /\ Saves names d'); [|apply H].
  apply (run_with_invariant stepf
           (fun e => match e with Fire _ h => h = href | _ => True end)
           (fun d => Sound text final imgs d /\ Saves names d))
    with (es := es) (d := d); try assumption; [|now split].
  intros e d0 d1 He [H0 V0] Hstep. pose proof (Hview _ _ _ Hstep) as Hv. split.
  - exact (sound_step B w text final rule resume Hrule Hresume imgs e d0 d1 H0 Hv).
  - exact (saves_step B w text final rule resume Hrule Hresume href imgs names
             Hnth Hinj e d0 d1 H0 V0 He Hv).
Qed.

End Reach.

(** The names of a run are pairwise distinct. *)
Lemma filenames_length (B : Browser) (href : string) (imgs : list string) :
  List.length (filenames_prefix_once B href imgs) = List.length imgs.
Proof.
  unfold filenames_prefix_once. cbv zeta.
  rewrite length_map, length_combine, length_seq. lia.
Qed.

Lemma filenames_inj (B : Browser) (href : string) (imgs : list string)
  (i j : nat) (f : string) :
  nth_error (filenames_prefix_once B href imgs) i = Some f ->
  nth_error (filenames_prefix_once B href imgs) j = Some f ->
  i = j.
Proof.
  intros Hi Hj.
  assert (Hli : i < List.length imgs).
  { rewrite <- (filenames_length B href). apply nth_error_Some. congruence. }
  assert (Hlj : j < List.length imgs).
  { rewrite <- (filenames_length B href). apply nth_error_Some. congruence. }
  rewrite (filenames_prefix_once_nth B href imgs i Hli) in Hi.
  rewrite (filenames_prefix_once_nth B href imgs j Hlj) in Hj.
  injection Hi as Hi. injection Hj as Hj.
  apply (image_filename_index B href href
           (nth i imgs ""%string) (nth j imgs ""%string)). congruence.
Qed.

(** *** Initial states *)

Lemma core_initial (imgs : list string) (interval : nat) (d : t) :
  images d = imgs ->
  promises d = repeat Scheduled (List.length imgs) ->
  pending d = timers interval 0 (List.length imgs) ->
  Core imgs d.
Proof.
  intros Hi Hp Ht. constructor; rewrite ?Hp, ?Ht, ?starts_timers.
  - assumption.
  - apply repeat_length.
  - apply seq_NoDup.
  - intros i Hin. apply in_seq in Hin. apply nth_error_repeat. lia.
  - intros i Hin. apply in_seq.
    assert (Hlt : i < List.length (repeat Scheduled (List.length imgs)))
      by (apply nth_error_Some; congruence).
    rewrite repeat_length in Hlt. lia.
Qed.

Lemma filter_repeat_scheduled (f : phase -> bool) (n : nat) :
  f Scheduled = false -> filter f (repeat Scheduled n) = [].
Proof. intros H. induction n; simpl; [reflexivity | now rewrite H]. Qed.

Lemma sum_repeat_scheduled (w : phase -> nat) (n : nat) :
  list_sum (map w (repeat Scheduled n)) = w Scheduled * n.
Proof. induction n as [|n IH]; simpl; [lia | rewrite IH; lia]. Qed.

Lemma removals_timers (interval n : nat) :
  forall i, filter (fun tm => negb (is_start tm)) (timers interval i n) = [].
Proof.
  induction n as [|n IH]; intros i; [reflexivity|].
  change (timers interval i (S n))
    with ({| cb := StartTask i; delay := i * interval |}
            :: timers interval (S i) n).
  cbn [filter is_start cb negb]. apply IH.
Qed.

Lemma new_sound (imgs : list string) :
  Sound status_text final_notice imgs (new imgs).
Proof.
  destruct imgs as [|img imgs].
  - constructor; try discriminate; try reflexivity.
    constructor; try reflexivity; try constructor.
    + intros i [].
    + intros [|i] H; discriminate.
  - rewrite new_fields. cbv zeta.
    constructor;
      cbn [processedCount failedCount images statusDiv pending promises notices join].
    + now apply (core_initial _ 200).
    + now rewrite filter_repeat_scheduled.
    + now rewrite filter_repeat_scheduled.
    + discriminate.
    + intros _. split; [reflexivity|]. split; [reflexivity|].
      apply forallb_is_start_timers.
    + discriminate.
Qed.

Lemma new_potential (imgs : list string) :
  potential weight (new imgs) <= 5 * List.length imgs + 2.
Proof.
  destruct imgs as [|img imgs]; [cbn; lia|].
  rewrite new_fields. cbv zeta. unfold potential.
  cbn [promises pending join].
  rewrite sum_repeat_scheduled, removals_timers. cbn [weight List.length]. lia.
Qed.

Lemma new_saves (names : list string) (imgs : list string) :
  Saves names (new imgs).
Proof.
  assert (Hsch : forall i ph,
             nth_error (promises (new imgs)) i = Some ph -> ph = Scheduled).
  { destruct imgs as [|img imgs].
    - intros [|i] ph H; discriminate.
    - rewrite new_fields. cbv zeta. cbn [promises].
      intros i ph H. apply nth_error_In, repeat_spec in H. assumption. }
  assert (Hdl : downloads (new imgs) = [] /\ shares (new imgs) = []).
  { destruct imgs; [split; reflexivity|]. rewrite new_fields. now split. }
  destruct Hdl as [Hd Hs].
  constructor; rewrite ?Hd, ?Hs.
  - intros i ph g Hi Hg. apply Hsch in Hi. subst ph. discriminate.
  - intros g [].
  - constructor.
  - intros g [].
  - constructor.
Qed.

End Instances.

(** ** More on the runs of the class *)

Section ClassRuns.

Import ImageDownloader RunSpec RunView ListFacts RunFacts ViewFacts SoundFacts
  Instances.

Local Open Scope list_scope.

Variable B : Browser.

Lemma class_reach (imgs : list string) (es : list event) (d : t) :
  run B es (new imgs) = Some d -> Sound status_text final_notice imgs d.
Proof.
  rewrite class_run_with. intros Hrun.
  exact (reach_sound B weight status_text final_notice (class_rule B)
           processImages_resume (step B) (class_rule_good B) class_resume_good
           (class_step_view B) imgs es _ d (new_sound imgs) Hrun).
Qed.

(** While the join is awaited, the status element is in the document, in
    its neutral colour, and its text is the one [updateStatus] makes from
    the current counters: the failure count is shown once it is positive.
    No final message is up. *)
Theorem status_shows_counters (imgs : list string) (es : list event) (d : t) :
  run B es (new imgs) = Some d ->
  join d = Awaiting ->
  statusDiv d =
  Some {| background := "#333";
          content :=
            (if (0 <? failedCount d)%nat
             then "Processing: " ++ of_nat (processedCount d) ++ "/"
                    ++ of_nat (List.length imgs) ++ ", Failed: "
                    ++ of_nat (failedCount d)
             else "Processing: " ++ of_nat (processedCount d) ++ "/"
                    ++ of_nat (List.length imgs))%string;
          attached := true |}
  /\ notices d = [].
Proof.
  intros Hrun Hj. pose proof (class_reach _ _ _ Hrun) as HS.
  destruct (s_awaiting _ _ _ _ HS Hj) as (Hd & Hn & _).
  split; [|assumption]. rewrite Hd. unfold status_text.
  now rewrite (core_images _ _ (s_core _ _ _ _ HS)).
Qed.

(** Once the join has completed, the status element shows the final
    message and one removal timer is pending; the only event left is that
    timer, which takes the element out of the document, after which no
    event is enabled. *)
Theorem final_message_removed (imgs : list string) (es : list event) (d : t) :
  run B es (new imgs) = Some d ->
  join d = Completed ->
  exists att,
    statusDiv d = Some {| background := style (final_notice d);
                          content := html (final_notice d); attached := att |}
    /\ pending d =
       (if att then [{| cb := RemoveStatusDisplay;
                        delay := duration (final_notice d) |}]
        else [])
    /\ forall e d',
         step B e d = Some d' ->
         att = true
         /\ (exists href, e = Fire 0 href)
         /\ statusDiv d' = Some {| background := style (final_notice d);
                                   content := html (final_notice d);
                                   attached := false |}
         /\ pending d' = []
         /\ (forall e', step B e' d' = None).
Proof.
  intros Hrun Hj. pose proof (class_reach _ _ _ Hrun) as HS.
  destruct (s_completed _ _ _ _ HS Hj) as (Hall & Hn & att & Hd & Hp).
  exists att. split; [assumption|]. split; [assumption|].
  assert (Hquiet : forall d0,
             join d0 = Completed -> promises d0 = promises d -> pending d0 = [] ->
             forall e', step B e' d0 = None).
  { intros d0 Hj0 Hp0 Hpe0 e'.
    destruct e' as [k h|i|i b|i b|i b|i|]; simpl; rewrite ?Hj0, ?Hpe0, ?Hp0;
      try reflexivity; try (now destruct k);
      (destruct (nth_error (promises d) i) as [ph|] eqn:Hi; [|reflexivity];
       pose proof (forallb_nth_error _ _ _ _ Hall Hi) as Hr;
       destruct ph; try discriminate Hr; reflexivity). }
  intros e d' Hstep.
  destruct att.
  - destruct e as [k h|i|i b|i b|i b|i|]; simpl in Hstep;
      rewrite ?Hj, ?Hp in Hstep; try discriminate;
      try (destruct (nth_error (promises d) i) as [ph|] eqn:Hi; [|discriminate];
           pose proof (forallb_nth_error _ _ _ _ Hall Hi) as Hr;
           destruct ph; try discriminate Hr; discriminate Hstep).
    destruct k as [|k]; [|now destruct k].
    cbn in Hstep. injection Hstep as <-.
    destruct (removeStatusDisplay_fields (with_pending [] d))
      as (_ & _ & _ & Hpe & Hpr & _ & _ & _ & Hjo & Hdiv).
    cbn [pending promises join statusDiv with_pending] in Hpe, Hpr, Hjo, Hdiv.
    split; [reflexivity|]. split; [now exists h|].
    split; [now rewrite Hdiv, Hd|]. split; [assumption|].
    apply Hquiet; [now rewrite Hjo | assumption | assumption].
  - rewrite (Hquiet d Hj eq_refl Hp e) in Hstep. discriminate.
Qed.

(** A run over [N] images has at most [5 N + 2] events: each task sees at
    most its timer, its load, its blob, its share and its continuation,
    and the run ends with the join and the removal of the message.  No
    task is started or counted twice. *)
Theorem run_length_bound (imgs : list string) (es : list event) (d : t) :
  run B es (new imgs) = Some d ->
  List.length es <= 5 * List.length imgs + 2.
Proof.
  rewrite class_run_with. intros Hrun.
  pose proof (reach_potential B weight status_text final_notice (class_rule B)
                processImages_resume (step B) (class_rule_good B)
                class_resume_good (class_step_view B) imgs es _ d
                (new_sound imgs) Hrun) as Hle.
  pose proof (new_potential imgs). lia.
Qed.

(** [processedCount] is the number of promises resolved with
    [success: true], [failedCount] the number resolved with
    [success: false]. *)
Theorem counters_count_outcomes (imgs : list string) (es : list event) (d : t) :
  run B es (new imgs) = Some d ->
  processedCount d = List.length (filter is_success (promises d))
  /\ failedCount d = List.length (filter is_failure (promises d)).
Proof.
  intros Hrun. pose proof (class_reach _ _ _ Hrun) as HS.
  split; [apply (s_success _ _ _ _ HS) | apply (s_failure _ _ _ _ HS)].
Qed.

Lemma class_saves (href : string) (imgs : list string) (es : list event) (d : t) :
  fired_at href es -> run B es (new imgs) = Some d ->
  Saves (filenames_prefix_once B href imgs) d.
Proof.
  rewrite class_run_with. intros Hes Hrun.
  exact (reach_saves B weight status_text final_notice (class_rule B)
           processImages_resume (step B) (class_rule_good B) class_resume_good
           (class_step_view B) href imgs _ es
           (filenames_prefix_once_nth B href imgs) (filenames_inj B href imgs)
           _ d Hes (new_sound imgs) (new_saves _ imgs) Hrun).
Qed.

(** Without a share sheet no step goes through it. *)
Lemma direct_view (imgs : list string) (e : event) (d d' : t) :
  direct_route B ->
  Sound status_text final_notice imgs d -> no_sharing d ->
  step_view B status_text (class_rule B) processImages_resume d d' e ->
  step_view B status_text (direct_rule B) processImages_resume d d' e
  /\ no_sharing d'.
Proof.
  intros Hroute HS [Hsh Hph] Hview.
  destruct Hview as [k h tm i l1 l2 Hp Hcb -> | k h tm l1 l2 Hp Hcb ->
                    | e i old new dp df dl sh Hr HT Hpend | Hj Hall ->].
  - split; [now apply V_start with (tm := tm) (i := i) (l1 := l1) (l2 := l2)|].
    unfold processImage, set_phase. split; [assumption|].
    cbn [promises with_promises with_pending]. intros j f Hj.
    apply nth_error_set_nth_inv in Hj as [[_ Hj] | [_ Hj]]; [discriminate|].
    now apply (Hph j f).
  - split; [now apply V_remove with (tm := tm) (l1 := l1) (l2 := l2)|].
    destruct (removeStatusDisplay_fields (with_pending (l1 ++ l2) d))
      as (_ & _ & _ & _ & Hpr & _ & Hs & _).
    split; [now rewrite Hs|]. rewrite Hpr. assumption.
  - assert (Hold : forall f, old <> Sharing f).
    { intros f ->. apply (Hph i f). apply (ts_old _ _ _ _ _ _ _ _ _ _ HT). }
    assert (Hnew : (forall f, new <> Sharing f) /\ sh = []).
    { destruct Hr; try (split; [discriminate | reflexivity]).
      destruct Hroute; congruence. }
    destruct Hnew as [Hnew ->].
    split.
    + apply V_task with (i := i) (old := old) (new := new) (dp := dp) (df := df)
                        (dl := dl) (sh := []); try assumption.
      now repeat split.
    + destruct HT as [Hi Hpr _ _ _ _ _ _ Hs _]. split.
      * now rewrite Hs, Hsh.
      * intros j f Hj. rewrite Hpr in Hj.
        apply nth_error_set_nth_inv in Hj as [[_ Hj] | [_ Hj]].
        -- now apply (Hnew f).
        -- now apply (Hph j f).
  - split; [now apply V_join|].
    destruct (resume_fields status_text final_notice processImages_resume
                class_resume_good imgs d HS Hj) as (Hpr & _ & Hs).
    split; [now rewrite Hs|]. now rewrite Hpr.
Qed.

Lemma new_no_sharing (imgs : list string) : no_sharing (new imgs).
Proof.
  destruct imgs as [|img imgs].
  - split; [reflexivity|]. intros [|i] f H; discriminate.
  - rewrite new_fields. cbv zeta. split; [reflexivity|]. cbn [promises].
    intros i f H. apply nth_error_In, repeat_spec in H. discriminate.
Qed.

Lemma new_all_saved (names imgs : list string) : all_saved names (new imgs).
Proof.
  intros i ph f Hi Hs _. exfalso. destruct imgs as [|img imgs].
  - now destruct i.
  - rewrite new_fields in Hi. cbv zeta in Hi. cbn [promises] in Hi.
    apply nth_error_In, repeat_spec in Hi. subst ph. discriminate.
Qed.

Lemma class_direct (href : string) (imgs : list string) (es : list event) (d : t) :
  direct_route B -> fired_at href es -> run B es (new imgs) = Some d ->
  all_saved (filenames_prefix_once B href imgs) d /\ no_sharing d.
Proof.
  rewrite class_run_with. intros Hroute Hes Hrun.
  set (names := filenames_prefix_once B href imgs).
  assert (H : Sound status_text final_notice imgs d /\ Saves names d
              /\ all_saved names d /\ no_sharing d); [|tauto].
  apply (run_with_invariant (step B)
           (fun e => match e with Fire _ h => h = href | _ => True end)
           (fun d => Sound status_text final_notice imgs d /\ Saves names d
                     /\ all_saved names d /\ no_sharing d))
    with (es := es) (d := new imgs); try assumption.
  - intros e d0 d1 He (H0 & V0 & A0 & N0) Hstep.
    pose proof (class_step_view B _ _ _ Hstep) as Hv.
    destruct (direct_view imgs e d0 d1 Hroute H0 N0 Hv) as [Hdv N1].
    split; [|split; [|split]].
    + exact (sound_step B weight _ _ _ _ (class_rule_good B) class_resume_good
               imgs e d0 d1 H0 Hv).
    + exact (saves_step B weight _ _ _ _ (class_rule_good B) class_resume_good
               href imgs names (filenames_prefix_once_nth B href imgs)
               (filenames_inj B href imgs) e d0 d1 H0 V0 He Hv).
    + exact (all_saved_step B weight _ _ _ _ (direct_rule_good B) class_resume_good
               imgs names (direct_rule_saving B) e d0 d1 H0 V0 A0 Hdv).
    + assumption.
  - split; [apply new_sound|]. split; [apply new_saves|].
    split; [apply new_all_saved | apply new_no_sharing].
Qed.

Lemma is_saved_cases (ph : phase) :
  is_saved ph = true <-> ph = Saved \/ ph = Resolved true.
Proof.
  destruct ph as [| | | | |[]]; simpl; split; intros H; auto; try discriminate;
    destruct H; discriminate.
Qed.

(** While the page stays at one address: no file is saved twice; a file is
    saved only for a task whose blob was produced and which is, or is about
    to be, counted as processed, so never for a failed one; and on a
    browser without share sheet every such task has its file saved. *)
Theorem saved_files (href : string) (imgs : list string) (es : list event) (d : t) :
  fired_at href es ->
  run B es (new imgs) = Some d ->
  NoDup (downloads d)
  /\ (forall i f,
         nth_error (filenames_prefix_once B href imgs) i = Some f ->
         In f (downloads d) ->
         nth_error (promises d) i = Some Saved
         \/ nth_error (promises d) i = Some (Resolved true))
  /\ (direct_route B ->
      forall i f,
        nth_error (filenames_prefix_once B href imgs) i = Some f ->
        nth_error (promises d) i = Some Saved
        \/ nth_error (promises d) i = Some (Resolved true) ->
        In f (downloads d)).
Proof.
  intros Hes Hrun. pose proof (class_saves href imgs es d Hes Hrun) as HV.
  split; [apply (sv_nodup _ _ HV)|]. split.
  - intros i f Hi Hf.
    destruct (sv_downloads _ _ HV f Hf) as (j & ph & Hj & Hph & Hsv).
    assert (j = i) by exact (filenames_inj B href imgs j i f Hj Hi). subst j.
    apply is_saved_cases in Hsv as [-> | ->]; auto.
  - intros Hroute i f Hi Hph.
    destruct (class_direct href imgs es d Hroute Hes Hrun) as [HA _].
    destruct Hph as [Hph | Hph]; now apply (HA i _ f Hph).
Qed.

(** With a share sheet, a step keeps: what was saved directly was shared
    before. *)
Lemma share_first_step (imgs : list string) (e : event) (d d' : t) :
  getPlatform B = android -> share_files B = true ->
  Sound status_text final_notice imgs d -> share_first d ->
  step_view B status_text (class_rule B) processImages_resume d d' e ->
  share_first d'.
Proof.
  intros Hand Hshare HS [Hincl Hph] Hview.
  destruct Hview as [k h tm i l1 l2 Hp Hcb -> | k h tm l1 l2 Hp Hcb ->
                    | e i old new dp df dl sh Hr HT Hpend | Hj Hall ->].
  - unfold processImage, set_phase. split; [assumption|].
    cbn [promises shares with_promises with_pending]. intros j f Hj.
    apply nth_error_set_nth_inv in Hj as [[_ Hj] | [_ Hj]]; [discriminate|].
    now apply (Hph j f).
  - destruct (removeStatusDisplay_fields (with_pending (l1 ++ l2) d))
      as (_ & _ & _ & _ & Hpr & Hdl & Hs & _).
    split; [now rewrite Hdl, Hs | now rewrite Hpr, Hs].
  - destruct HT as [Hi Hpr _ _ _ _ _ Hdl Hs _].
    assert (Hdl' : forall f, In f dl -> In f (shares d)).
    { intros f Hf. destruct Hr; try contradiction.
      - destruct H; congruence.
      - apply In_singleton in Hf. subst. now apply (Hph i). }
    assert (Hnew : forall f, new = Sharing f -> In f sh).
    { intros f ->. inversion Hr; subst. now left. }
    split.
    + rewrite Hdl, Hs. intros f Hf. apply in_or_app. left.
      apply in_app_or in Hf as [Hf | Hf]; [now apply Hincl | now apply Hdl'].
    + intros j f Hj. rewrite Hs. apply in_or_app. rewrite Hpr in Hj.
      apply nth_error_set_nth_inv in Hj as [[_ Hj] | [_ Hj]].
      * right. apply Hnew. congruence.
      * left. now apply (Hph j f).
  - destruct (resume_fields status_text final_notice processImages_resume
                class_resume_good imgs d HS Hj) as (Hpr & Hdl & Hs).
    split; [now rewrite Hdl, Hs | now rewrite Hpr, Hs].
Qed.

Lemma new_share_first (imgs : list string) : share_first (new imgs).
Proof.
  destruct (new_no_sharing imgs) as [Hs Hph].
  split; [|intros i f H; now destruct (Hph i f)].
  destruct imgs; [intros f []|]. rewrite new_fields. intros f [].
Qed.

(** The share sheet is never opened on a browser that is not Android or
    cannot share files.  Where it is used, a file is saved directly only
    after it was handed to the share sheet, and while the page stays at one
    address no file is handed to it twice. *)
Theorem share_sheet_use (imgs : list string) (es : list event) (d : t) :
  run B es (new imgs) = Some d ->
  (direct_route B ->
   shares d = [] /\ forall i f, nth_error (promises d) i <> Some (Sharing f))
  /\ (getPlatform B = android -> share_files B = true ->
      incl (downloads d) (shares d))
  /\ (forall href, fired_at href es -> NoDup (shares d)).
Proof.
  intros Hrun. split; [|split].
  - intros Hroute.
    assert (H : Sound status_text final_notice imgs d /\ no_sharing d); [|apply H].
    rewrite class_run_with in Hrun.
    apply (run_with_invariant (step B) (fun _ => True)
             (fun d => Sound status_text final_notice imgs d /\ no_sharing d))
      with (es := es) (d := new imgs); try assumption.
    + intros e d0 d1 _ [H0 N0] Hstep.
      pose proof (class_step_view B _ _ _ Hstep) as Hv. split.
      * exact (sound_step B weight _ _ _ _ (class_rule_good B) class_resume_good
                 imgs e d0 d1 H0 Hv).
      * now destruct (direct_view imgs e d0 d1 Hroute H0 N0 Hv).
    + apply Forall_True.
    + split; [apply new_sound | apply new_no_sharing].
  - intros Hand Hshare.
    assert (H : Sound status_text final_notice imgs d /\ share_first d);
      [|apply H].
    rewrite class_run_with in Hrun.
    apply (run_with_invariant (step B) (fun _ => True)
             (fun d => Sound status_text final_notice imgs d /\ share_first d))
      with (es := es) (d := new imgs); try assumption.
    + intros e d0 d1 _ [H0 N0] Hstep.
      pose proof (class_step_view B _ _ _ Hstep) as Hv. split.
      * exact (sound_step B weight _ _ _ _ (class_rule_good B) class_resume_good
                 imgs e d0 d1 H0 Hv).
      * exact (share_first_step imgs e d0 d1 Hand Hshare H0 N0 Hv).
    + apply Forall_True.
    + split; [apply new_sound | apply new_share_first].
  - intros href Hes. apply (sv_shares_nodup _ _ (class_saves href imgs es d Hes Hrun)).
Qed.

End ClassRuns.

(** Two images on a desktop browser; the first has failed to load. *)
Lemma status_shows_counters_witness :
  let B := sample_browser "Mozilla/5.0 (X11; Linux x86_64)" false in
  let imgs := ["https://cdn.example.com/a.png"; "https://cdn.example.com/b.png"] in
  let es := [ImageDownloader.Fire 0 "https://example.com/gallery";
             ImageDownloader.OnError 0] in
  ImageDownloader.statusDiv (RunSpec.state_after B imgs es) =
  Some {| ImageDownloader.background := "#333";
          ImageDownloader.content := "Processing: 0/2, Failed: 1";
          ImageDownloader.attached := true |}.
Proof.
  intros B imgs es.
  assert (Hrun : ImageDownloader.run B es (ImageDownloader.new imgs)
                 = Some (RunSpec.state_after B imgs es))
    by (vm_compute; reflexivity).
  destruct (status_shows_counters B imgs es _ Hrun) as [Hd _];
    [vm_compute; reflexivity|].
  rewrite Hd. vm_compute. reflexivity.
Defined.

(** One image, saved; the removal timer fires. *)
Lemma final_message_removed_witness :
  let B := sample_browser "Mozilla/5.0 (X11; Linux x86_64)" false in
  let es := [ImageDownloader.Fire 0 "https://example.com/gallery";
             ImageDownloader.OnLoad 0 true; ImageDownloader.BlobReady 0 true;
             ImageDownloader.Resume 0; ImageDownloader.AllSettled] in
  let d := RunSpec.state_after B ["https://cdn.example.com/a.png"] es in
  match ImageDownloader.step B (ImageDownloader.Fire 0 "https://example.com/gallery") d with
  | Some d' => ImageDownloader.pending d' = []
  | None => False
  end.
Proof.
  intros B es d.
  assert (Hrun : ImageDownloader.run B es
                   (ImageDownloader.new ["https://cdn.example.com/a.png"]) = Some d)
    by (vm_compute; reflexivity).
  destruct (final_message_removed B _ es d Hrun) as (att & _ & _ & Hnext);
    [vm_compute; reflexivity|].
  destruct (ImageDownloader.step B
              (ImageDownloader.Fire 0 "https://example.com/gallery") d)
    as [d'|] eqn:E.
  - now destruct (Hnext _ _ E) as (_ & _ & _ & Hp & _).
  - vm_compute in E. discriminate E.
Defined.

(** A complete run over one image on the share route has seven events. *)
Lemma run_length_bound_witness :
  List.length
    [ImageDownloader.Fire 0 "https://example.com/gallery";
     ImageDownloader.OnLoad 0 true; ImageDownloader.BlobReady 0 true;
     ImageDownloader.ShareSettled 0 false; ImageDownloader.Resume 0;
     ImageDownloader.AllSettled; ImageDownloader.Fire 0 "https://example.com/gallery"]
  <= 5 * List.length ["https://cdn.example.com/a.png"] + 2.
Proof.
  apply (run_length_bound
           (sample_browser "Mozilla/5.0 (Linux; Android 13; Pixel 7)" true)
           ["https://cdn.example.com/a.png"] _
           (RunSpec.state_after
              (sample_browser "Mozilla/5.0 (Linux; Android 13; Pixel 7)" true)
              ["https://cdn.example.com/a.png"]
              [ImageDownloader.Fire 0 "https://example.com/gallery";
               ImageDownloader.OnLoad 0 true; ImageDownloader.BlobReady 0 true;
               ImageDownloader.ShareSettled 0 false; ImageDownloader.Resume 0;
               ImageDownloader.AllSettled;
               ImageDownloader.Fire 0 "https://example.com/gallery"])).
  vm_compute. reflexivity.
Defined.

(** One failed and one saved image. *)
Lemma counters_count_outcomes_witness :
  let B := sample_browser "Mozilla/5.0 (X11; Linux x86_64)" false in
  let imgs := ["https://cdn.example.com/a.png"; "https://cdn.example.com/b.png"] in
  let href := "https://example.com/gallery" in
  let es := [ImageDownloader.Fire 0 href; ImageDownloader.Fire 0 href;
             ImageDownloader.OnError 0; ImageDownloader.OnLoad 1 true;
             ImageDownloader.BlobReady 1 true; ImageDownloader.Resume 1] in
  let d := RunSpec.state_after B imgs es in
  ImageDownloader.processedCount d = 1 /\ ImageDownloader.failedCount d = 1.
Proof.
  intros B imgs href es d.
  assert (Hrun : ImageDownloader.run B es (ImageDownloader.new imgs) = Some d)
    by (vm_compute; reflexivity).
  destruct (counters_count_outcomes B imgs es d Hrun) as [Hp Hf].
  rewrite Hp, Hf. vm_compute. split; reflexivity.
Defined.

(** Two images saved from a gallery page on a desktop browser. *)
Lemma saved_files_witness :
  let B := sample_browser "Mozilla/5.0 (X11; Linux x86_64)" false in
  let imgs := ["https://cdn.example.com/a.png"; "https://cdn.example.com/b.png"] in
  let href := "https://example.com/gallery" in
  let es := [ImageDownloader.Fire 0 href; ImageDownloader.Fire 0 href;
             ImageDownloader.OnLoad 0 true; ImageDownloader.OnLoad 1 true;
             ImageDownloader.BlobReady 1 true; ImageDownloader.BlobReady 0 true] in
  let d := RunSpec.state_after B imgs es in
  NoDup (ImageDownloader.downloads d)
  /\ In "images_1.png" (ImageDownloader.downloads d).
Proof.
  intros B imgs href es d.
  assert (Hes : RunSpec.fired_at href es) by (repeat constructor).
  assert (Hrun : ImageDownloader.run B es (ImageDownloader.new imgs) = Some d)
    by (vm_compute; reflexivity).
  destruct (saved_files B href imgs es d Hes Hrun) as (Hnd & _ & Hall).
  split; [assumption|].
  apply (Hall (or_intror eq_refl) 0 "images_1.png").
  - vm_compute. reflexivity.
  - left. vm_compute. reflexivity.
Defined.

(** On a desktop browser nothing is ever shared. *)
Lemma share_sheet_use_witness :
  let B := sample_browser "Mozilla/5.0 (X11; Linux x86_64)" true in
  let es := [ImageDownloader.Fire 0 "https://example.com/gallery";
             ImageDownloader.OnLoad 0 true; ImageDownloader.BlobReady 0 true] in
  ImageDownloader.shares
    (RunSpec.state_after B ["https://cdn.example.com/a.png"] es) = [].
Proof.
  intros B es.
  assert (Hrun : ImageDownloader.run B es
                   (ImageDownloader.new ["https://cdn.example.com/a.png"])
                 = Some (RunSpec.state_after B ["https://cdn.example.com/a.png"] es))
    by (vm_compute; reflexivity).
  destruct (share_sheet_use B _ es _ Hrun) as (Hdirect & _ & _).
  apply Hdirect. left. vm_compute. discriminate.
Defined.

(** ** Every task resolves exactly once *)

Section RunTotal.

Import ImageDownloader RunSpec RunView ListFacts RunFacts ViewFacts SoundFacts
  Instances.

Local Open Scope list_scope.

Variable B : Browser.

(** What each handler does to its task and to the counters: the three
    failure exits of [processImage] and its success tail resolve the task
    and raise one counter; every other event leaves counters and
    resolutions alone. *)
Lemma step_resolves (imgs : list string) (e : event) (d d' : t) :
  Inv imgs d -> step B e d = Some d' ->
  match e with
  | OnError i | OnLoad i false | BlobReady i false =>
      nth_error (promises d') i = Some (Resolved false)
      /\ processedCount d' = processedCount d
      /\ failedCount d' = S (failedCount d)
      /\ resolved_count d' = S (resolved_count d)
  | Resume i =>
      nth_error (promises d') i = Some (Resolved true)
      /\ processedCount d' = S (processedCount d)
      /\ failedCount d' = failedCount d
      /\ resolved_count d' = S (resolved_count d)
  | _ =>
      processedCount d' = processedCount d
      /\ failedCount d' = failedCount d
      /\ resolved_count d' = resolved_count d
  end.
Proof.
  intros HI Hstep.
  pose proof (inv_count _ _ HI) as Hc.
  pose proof (inv_count _ _ (step_inv B _ _ _ _ HI Hstep)) as Hc'.
  assert (Hfail : forall i old,
             nth_error (promises d) i = Some old -> d' = fail_task i d ->
             nth_error (promises d') i = Some (Resolved false)
             /\ processedCount d' = processedCount d
             /\ failedCount d' = S (failedCount d)
             /\ resolved_count d' = S (resolved_count d)).
  { intros i old Hi ->. pose proof (fail_task_moves i old d Hi) as Hm.
    pose proof (mv_processed _ _ _ _ _ _ _ Hm) as Hp.
    pose proof (mv_failed _ _ _ _ _ _ _ Hm) as Hf.
    split; [|repeat split; lia].
    rewrite (mv_new _ _ _ _ _ _ _ Hm).
    now apply nth_error_set_nth_same with (y := old). }
  assert (Hquiet : is_completion e = false ->
             processedCount d' = processedCount d
             /\ failedCount d' = failedCount d
             /\ resolved_count d' = resolved_count d).
  { intros He.
    destruct (step_delta B _ _ _ Hstep) as [[Hp Hf] | [He' _]];
      [repeat split; lia | congruence]. }
  destruct e as [k h|i|i [|]|i [|]|i b|i|]; try (now apply Hquiet);
    simpl in Hstep;
    (destruct (nth_error (promises d) i) as [[| | | | |]|] eqn:Hi;
     try discriminate Hstep; injection Hstep as Hd'; symmetry in Hd').
  - now apply (Hfail i _ Hi).
  - now apply (Hfail i _ Hi).
  - now apply (Hfail i _ Hi).
  - subst d'. pose proof (succeed_task_moves i _ d Hi) as Hm.
    pose proof (mv_processed _ _ _ _ _ _ _ Hm) as Hp.
    pose proof (mv_failed _ _ _ _ _ _ _ Hm) as Hf.
    split; [|repeat split; lia].
    rewrite (mv_new _ _ _ _ _ _ _ Hm).
    now apply nth_error_set_nth_same with (y := Saved).
Qed.

(** No handler touches a task that has resolved. *)
Lemma resolved_stays (imgs : list string) (e : event) (d d' : t) (i : nat) (b : bool) :
  Sound status_text final_notice imgs d -> step B e d = Some d' ->
  nth_error (promises d) i = Some (Resolved b) ->
  nth_error (promises d') i = Some (Resolved b).
Proof.
  intros HS Hstep Hi.
  pose proof (class_rule_good B) as [_ Hmoves].
  destruct (class_step_view B _ _ _ Hstep)
    as [k h tm j l1 l2 Hp Hcb -> | k h tm l1 l2 Hp Hcb ->
       | e j old new dp df dl sh Hr HT Hpend | Hj Hall ->].
  - destruct (core_start B imgs h j tm l1 l2 d (s_core _ _ _ _ HS) Hp Hcb)
      as (Hsch & _ & _).
    unfold processImage, set_phase. cbn [promises with_promises with_pending].
    rewrite nth_error_set_nth_other; [assumption|].
    intros ->. congruence.
  - destruct (removeStatusDisplay_fields (with_pending (l1 ++ l2) d))
      as (_ & _ & _ & _ & Hpr & _).
    now rewrite Hpr.
  - destruct (Hmoves _ _ _ _ _ _ _ _ Hr) as (_ & Hold & _).
    rewrite (ts_new _ _ _ _ _ _ _ _ _ _ HT).
    rewrite nth_error_set_nth_other; [assumption|].
    intros ->. rewrite (ts_old _ _ _ _ _ _ _ _ _ _ HT) in Hi.
    injection Hi as ->. discriminate Hold.
  - destruct (resume_fields status_text final_notice processImages_resume
                class_resume_good imgs d HS Hj) as (Hpr & _).
    now rewrite Hpr.
Qed.

(** A state in which no event is enabled has every task resolved and the
    join completed: an unresolved task always has its timer, its load, its
    blob, its share or its continuation outstanding. *)
Lemma quiet_resolved (imgs : list string) (d : t) :
  Inv imgs d -> (forall e, step B e d = None) ->
  all_resolved (promises d) = true /\ join d = Completed.
Proof.
  intros HI Hq.
  assert (Hall : all_resolved (promises d) = true).
  { destruct (all_resolved (promises d)) eqn:E; [reflexivity|]. exfalso.
    unfold all_resolved in E.
    apply forallb_false_nth in E as (i & ph & Hi & Hph).
    destruct ph as [|f fn|f fn|f| |b]; try discriminate Hph.
    - apply (inv_timer _ _ HI), in_starts_nth in Hi as (k & tm & Hk & Hcb).
      specialize (Hq (Fire k ""%string)). simpl in Hq.
      rewrite Hk, Hcb in Hq. discriminate Hq.
    - specialize (Hq (OnError i)). simpl in Hq. rewrite Hi in Hq. discriminate Hq.
    - specialize (Hq (BlobReady i false)). simpl in Hq. rewrite Hi in Hq.
      discriminate Hq.
    - specialize (Hq (ShareSettled i true)). simpl in Hq. rewrite Hi in Hq.
      discriminate Hq.
    - specialize (Hq (Resume i)). simpl in Hq. rewrite Hi in Hq. discriminate Hq. }
  split; [assumption|].
  destruct (join d) eqn:Hj; [now destruct (inv_started _ _ HI) | | reflexivity].
  specialize (Hq AllSettled). simpl in Hq. rewrite Hj, Hall in Hq. discriminate Hq.
Qed.

(** C1.  In every state a run over [N] images reaches: each resolved task
    has raised exactly one counter, so [processed + failed] counts the
    resolutions and never exceeds [N]; it equals [N] exactly when every
    promise of the join has resolved, in particular once the join has
    completed.  Every enabled completion handler ([onerror], a failed
    draw, a null blob, the success tail) resolves its own task with its
    outcome and raises the matching counter by one; no other event changes
    a counter or the number of resolutions, and no event changes a task
    that has resolved.  The run is bounded by [5 N + 2] events, and a
    state in which nothing more can happen has all [N] tasks resolved and,
    for [N > 0], the join completed; so the resolutions of a run that is
    followed to its end are exactly [N].  The run can always be continued
    to such a state. *)
Theorem run_counters (imgs : list string) (es : list event) (d : t) :
  run B es (new imgs) = Some d ->
  resolved_count d = processedCount d + failedCount d
  /\ processedCount d + failedCount d <= List.length imgs
  /\ (processedCount d + failedCount d = List.length imgs
      <-> all_resolved (promises d) = true)
  /\ (join d = Completed ->
      processedCount d + failedCount d = List.length imgs)
  /\ (forall e d',
         step B e d = Some d' ->
         (is_completion e = true <-> resolved_count d' = S (resolved_count d))
         /\ match e with
            | OnError i | OnLoad i false | BlobReady i false =>
                nth_error (promises d') i = Some (Resolved false)
                /\ processedCount d' = processedCount d
                /\ failedCount d' = S (failedCount d)
                /\ resolved_count d' = S (resolved_count d)
            | Resume i =>
                nth_error (promises d') i = Some (Resolved true)
                /\ processedCount d' = S (processedCount d)
                /\ failedCount d' = failedCount d
                /\ resolved_count d' = S (resolved_count d)
            | _ =>
                processedCount d' = processedCount d
                /\ failedCount d' = failedCount d
                /\ resolved_count d' = resolved_count d
            end)
  /\ (forall e d' i b,
         step B e d = Some d' ->
         nth_error (promises d) i = Some (Resolved b) ->
         nth_error (promises d') i = Some (Resolved b))
  /\ List.length es <= 5 * List.length imgs + 2
  /\ ((forall e, step B e d = None) ->
      resolved_count d = List.length imgs
      /\ all_resolved (promises d) = true
      /\ (imgs <> [] -> join d = Completed))
  /\ (exists es' d',
         run B es' d = Some d'
         /\ all_resolved (promises d') = true
         /\ resolved_count d' = List.length imgs
         /\ processedCount d' + failedCount d' = List.length imgs).
Proof.
  intros Hrun.
  assert (Hbound : List.length es <= 5 * List.length imgs + 2).
  { pose proof Hrun as Hrun'. rewrite class_run_with in Hrun'.
    pose proof (reach_potential B weight status_text final_notice (class_rule B)
                  processImages_resume (step B) (class_rule_good B)
                  class_resume_good (class_step_view B) imgs es _ d
                  (new_sound imgs) Hrun') as Hle.
    pose proof (new_potential imgs). lia. }
  pose proof (class_reach B _ _ _ Hrun) as HS.
  destruct (reachable B _ _ _ Hrun) as [[-> ->] | [Hne HI]].
  - split; [reflexivity|]. split; [simpl; lia|].
    split; [split; reflexivity|]. split; [reflexivity|].
    split; [intros e d'; now rewrite step_no_images|].
    split; [intros e d' i b; now rewrite step_no_images|].
    split; [assumption|].
    split; [intros _; split; [reflexivity|split; [reflexivity|now intros []]]|].
    exists [], (fresh []). repeat split.
  - pose proof (inv_count _ _ HI) as Hcount.
    pose proof (resolved_count_le _ _ HI) as Hle.
    pose proof (resolved_count_all _ _ HI) as Hall.
    split; [assumption|]. split; [lia|]. split; [now rewrite <- Hcount|].
    split; [|split; [|split; [|split; [assumption|split]]]].
    + intros Hj. rewrite <- Hcount. apply Hall.
      now apply (inv_completed _ _ HI).
    + intros e d' Hstep.
      pose proof (step_resolves imgs e d d' HI Hstep) as Hres.
      split; [|assumption].
      destruct e as [k h|i|i [|]|i [|]|i b|i|]; cbn [is_completion];
        (split; [intros He; try discriminate He; now destruct Hres as (_ & _ & _ & ?)
                | intros He; try reflexivity;
                  destruct Hres as (_ & _ & Hsame); lia]).
    + intros e d' i b Hstep. now apply (resolved_stays imgs e d d' i b HS).
    + intros Hq. destruct (quiet_resolved imgs d HI Hq) as [Hres Hj].
      split; [now apply Hall|]. split; [assumption|]. now intros _.
    + destruct (can_settle B imgs ""%string _ d HI eq_refl)
        as (es' & d' & Hrun' & Hall').
      pose proof (run_inv B _ _ _ _ HI Hrun') as HI'.
      exists es', d'. split; [assumption|]. split; [assumption|].
      pose proof (proj2 (resolved_count_all _ _ HI') Hall') as Hn.
      split; [assumption|]. now rewrite <- (inv_count _ _ HI').
Qed.

End RunTotal.

(** Two images on a desktop browser: the first fails to load, the second
    is saved; then the join completes.  On the way, once the second image
    is drawn, a null blob would have resolved its task as failed. *)
Lemma run_counters_witness :
  let B := sample_browser "Mozilla/5.0 (X11; Linux x86_64)" false in
  let imgs := ["https://cdn.example.com/a.png"; "https://cdn.example.com/b.png"] in
  let href := "https://example.com/condo/the-park/1205" in
  let es0 := [ImageDownloader.Fire 0 href; ImageDownloader.Fire 0 href;
              ImageDownloader.OnError 0; ImageDownloader.OnLoad 1 true] in
  let es := (es0 ++ [ImageDownloader.BlobReady 1 true; ImageDownloader.Resume 1;
                     ImageDownloader.AllSettled])%list in
  let d0 := RunSpec.state_after B imgs es0 in
  let d1 :=
    RunSpec.state_after B imgs (es0 ++ [ImageDownloader.BlobReady 1 false])%list in
  let d := RunSpec.state_after B imgs es in
  (ImageDownloader.processedCount d = 1
   /\ ImageDownloader.failedCount d = 1
   /\ ImageDownloader.join d = ImageDownloader.Completed
   /\ ImageDownloader.processedCount d + ImageDownloader.failedCount d
      = List.length imgs)
  /\ (nth_error (ImageDownloader.promises d0) 1
      = Some (ImageDownloader.Encoding "condo_thepark_1205_2.png" "condo_thepark_1205")
      /\ nth_error (ImageDownloader.promises d1) 1
         = Some (ImageDownloader.Resolved false)
      /\ ImageDownloader.failedCount d1 = S (ImageDownloader.failedCount d0)
      /\ ImageDownloader.resolved_count d1 = S (ImageDownloader.resolved_count d0)).
Proof.
  intros B imgs href es0 es d0 d1 d. split.
  - assert (Hrun : ImageDownloader.run B es (ImageDownloader.new imgs) = Some d)
      by (vm_compute; reflexivity).
    destruct (run_counters B imgs es d Hrun) as (_ & _ & _ & Hjoin & _).
    split; [vm_compute; reflexivity|]. split; [vm_compute; reflexivity|].
    split; [vm_compute; reflexivity|].
    apply Hjoin. vm_compute. reflexivity.
  - assert (Hrun : ImageDownloader.run B es0 (ImageDownloader.new imgs) = Some d0)
      by (vm_compute; reflexivity).
    assert (Hstep : ImageDownloader.step B (ImageDownloader.BlobReady 1 false) d0
                    = Some d1)
      by (vm_compute; reflexivity).
    destruct (run_counters B imgs es0 d0 Hrun) as (_ & _ & _ & _ & Hhandler & _).
    destruct (Hhandler _ _ Hstep) as (_ & Hres & _ & Hfailed & Hcount).
    split; [vm_compute; reflexivity|]. split; [assumption|]. now split.
Defined.

(** ** The runs of the function version *)

Section FunctionRuns.

Import ImageDownloader RunSpec RunView ListFacts RunFacts ViewFacts SoundFacts
  Instances.

Local Open Scope list_scope.

Variable B : Browser.

(** The state [downloadAllImages] leaves behind on a page with images. *)
Lemma downloadAllImages_fields (img : string) (imgs : list string) :
  let n := List.length (img :: imgs) in
  FunctionVersion.downloadAllImages (img :: imgs) =
  {| processedCount := 0; failedCount := 0; images := img :: imgs;
     statusDiv := Some {| background := "#333";
                          content := ("Processing: 0/" ++ of_nat n
                                        ++ ", Failed: 0")%string;
                          attached := true |};
     pending := timers 100 0 n;
     promises := repeat Scheduled n;
     downloads := []; shares := []; notices := [];
     join := Awaiting |}.
Proof.
  unfold FunctionVersion.downloadAllImages, FunctionVersion.processImages.
  cbn [images FunctionVersion.fresh fresh with_statusDiv List.length Nat.eqb].
  rewrite schedule_spec. reflexivity.
Qed.

Lemma downloadAllImages_sound (imgs : list string) :
  Sound function_status_text function_final_notice imgs
    (FunctionVersion.downloadAllImages imgs).
Proof.
  destruct imgs as [|img imgs].
  - constructor; try discriminate; try reflexivity.
    constructor; try reflexivity; try constructor.
    + intros i [].
    + intros [|i] H; discriminate.
  - rewrite downloadAllImages_fields. cbv zeta.
    constructor;
      cbn [processedCount failedCount images statusDiv pending promises notices join].
    + now apply (core_initial _ 100).
    + now rewrite filter_repeat_scheduled.
    + now rewrite filter_repeat_scheduled.
    + discriminate.
    + intros _. split; [reflexivity|]. split; [reflexivity|].
      apply forallb_is_start_timers.
    + discriminate.
Qed.

Lemma downloadAllImages_potential (imgs : list string) :
  potential function_weight (FunctionVersion.downloadAllImages imgs)
  <= 3 * List.length imgs + 2.
Proof.
  destruct imgs as [|img imgs]; [cbn; lia|].
  rewrite downloadAllImages_fields. cbv zeta. unfold potential.
  cbn [promises pending join].
  rewrite sum_repeat_scheduled, removals_timers.
  cbn [function_weight List.length]. lia.
Qed.

Lemma function_reach (imgs : list string) (es : list event) (d : t) :
  FunctionRun.run B es (FunctionVersion.downloadAllImages imgs) = Some d ->
  Sound function_status_text function_final_notice imgs d.
Proof.
  rewrite function_run_with. intros Hrun.
  exact (reach_sound B function_weight function_status_text function_final_notice
           function_rule FunctionVersion.processImages_resume (FunctionRun.step B)
           function_rule_good function_resume_good (function_step_view B)
           imgs es _ d (downloadAllImages_sound imgs) Hrun).
Qed.

Lemma outcomes_le (l : list phase) :
  List.length (filter is_success l) + List.length (filter is_failure l)
  <= List.length l.
Proof.
  induction l as [|[| | | | |[]] l IH]; simpl; lia.
Qed.

Lemma outcomes_all (l : list phase) :
  all_resolved l = true ->
  List.length (filter is_success l) + List.length (filter is_failure l)
  = List.length l.
Proof.
  induction l as [|[| | | | |[]] l IH]; simpl; intros H; try discriminate;
    try reflexivity; specialize (IH H); lia.
Qed.

(** In the function version as well each counter counts the tasks resolved
    its way; their sum never exceeds the number of images and is that
    number once the join has completed.  A run has at most [3 N + 2]
    events. *)
Theorem function_counters (imgs : list string) (es : list event) (d : t) :
  FunctionRun.run B es (FunctionVersion.downloadAllImages imgs) = Some d ->
  processedCount d = List.length (filter is_success (promises d))
  /\ failedCount d = List.length (filter is_failure (promises d))
  /\ processedCount d + failedCount d <= List.length imgs
  /\ (join d = Completed ->
      processedCount d + failedCount d = List.length imgs)
  /\ List.length es <= 3 * List.length imgs + 2.
Proof.
  intros Hrun. pose proof (function_reach _ _ _ Hrun) as HS.
  pose proof (s_success _ _ _ _ HS) as Hp.
  pose proof (s_failure _ _ _ _ HS) as Hf.
  pose proof (core_length _ _ (s_core _ _ _ _ HS)) as Hlen.
  split; [assumption|]. split; [assumption|]. split; [|split].
  - rewrite Hp, Hf, <- Hlen. apply outcomes_le.
  - intros Hj. destruct (s_completed _ _ _ _ HS Hj) as (Hall & _).
    rewrite Hp, Hf, <- Hlen. now apply outcomes_all.
  - rewrite function_run_with in Hrun.
    pose proof (reach_potential B function_weight function_status_text
                  function_final_notice function_rule
                  FunctionVersion.processImages_resume (FunctionRun.step B)
                  function_rule_good function_resume_good (function_step_view B)
                  imgs es _ d (downloadAllImages_sound imgs) Hrun) as Hle.
    pose proof (downloadAllImages_potential imgs). lia.
Qed.

(** On a page without images the function version puts up the "no images"
    message and sets its removal timer; the only event that can follow is
    that timer. *)
Lemma downloadAllImages_no_images (es : list event) (d : t) :
  FunctionRun.run B es (FunctionVersion.downloadAllImages []) = Some d ->
  notices d = [no_images_notice] /\ join d = NotStarted /\ downloads d = [].
Proof.
  destruct es as [|e es]; cbn [FunctionRun.run].
  - intros H. injection H as <-. repeat split.
  - destruct (FunctionRun.step B e (FunctionVersion.downloadAllImages []))
      as [d1|] eqn:E; [|discriminate].
    destruct e as [[|[|k]] h|[|i]|[|i] b|[|i] b|i b|i|]; try discriminate E.
    cbn in E. injection E as <-.
    destruct es as [|e2 es]; cbn [FunctionRun.run].
    + intros H. injection H as <-. repeat split.
    + destruct e2 as [[|k2] h2|[|i2]|[|i2] b2|[|i2] b2|i2 b2|i2|]; discriminate.
Qed.

(** The function version always shows the failure count in its status
    text, and its final message takes its colour from the number of images
    saved, not from the failures: green as soon as one image was saved.
    It stays for five seconds. *)
Theorem function_status_and_message (imgs : list string) (es : list event) (d : t) :
  FunctionRun.run B es (FunctionVersion.downloadAllImages imgs) = Some d ->
  (join d = Awaiting ->
   statusDiv d =
   Some {| background := "#333";
           content := ("Processing: " ++ of_nat (processedCount d) ++ "/"
                         ++ of_nat (List.length imgs) ++ ", Failed: "
                         ++ of_nat (failedCount d))%string;
           attached := true |}
   /\ notices d = [])
  /\ (join d = Completed ->
      notices d =
      [{| style := if (0 <? processedCount d)%nat then "#4CAF50" else "#f44336";
          html := ("Download complete! " ++ of_nat (processedCount d)
                     ++ " images downloaded. Failed: "
                     ++ of_nat (failedCount d))%string;
          duration := 5000 |}]
      /\ option_map background (statusDiv d)
         = Some (if (0 <? processedCount d)%nat then "#4CAF50" else "#f44336")%string)
  /\ (imgs = [] ->
      notices d =
      [{| style := "#f44336"; html := "No images found on this page";
          duration := 3000 |}]).
Proof.
  intros Hrun. pose proof (function_reach _ _ _ Hrun) as HS.
  split; [|split].
  - intros Hj. destruct (s_awaiting _ _ _ _ HS Hj) as (Hd & Hn & _).
    split; [|assumption]. rewrite Hd. unfold function_status_text.
    now rewrite (core_images _ _ (s_core _ _ _ _ HS)).
  - intros Hj. destruct (s_completed _ _ _ _ HS Hj) as (_ & Hn & att & Hd & _).
    split; [assumption|]. now rewrite Hd.
  - intros ->. now apply downloadAllImages_no_images in Hrun.
Qed.

Lemma downloadAllImages_start (imgs : list string) :
  (forall i ph,
      nth_error (promises (FunctionVersion.downloadAllImages imgs)) i = Some ph ->
      ph = Scheduled)
  /\ downloads (FunctionVersion.downloadAllImages imgs) = []
  /\ shares (FunctionVersion.downloadAllImages imgs) = [].
Proof.
  destruct imgs as [|img imgs].
  - split; [|split; reflexivity]. intros [|i] ph H; discriminate.
  - rewrite downloadAllImages_fields. cbv zeta. cbn [promises downloads shares].
    split; [|split; reflexivity].
    intros i ph H. now apply nth_error_In, repeat_spec in H.
Qed.

Lemma scheduled_saves (names : list string) (d : t) :
  (forall i ph, nth_error (promises d) i = Some ph -> ph = Scheduled) ->
  downloads d = [] -> shares d = [] ->
  Saves names d /\ all_saved names d
  /\ forallb function_phase (promises d) = true.
Proof.
  intros Hsch Hd Hs. split; [|split].
  - constructor; rewrite ?Hd, ?Hs.
    + intros i ph g Hi Hg. apply Hsch in Hi. subst ph. discriminate.
    + intros g [].
    + constructor.
    + intros g [].
    + constructor.
  - intros i ph g Hi Hsv _. apply Hsch in Hi. subst ph. discriminate.
  - apply forallb_forall. intros ph Hin.
    apply In_nth_error in Hin as [i Hi]. apply Hsch in Hi. now subst ph.
Qed.

(** The function version never shares and never parks a task. *)
Lemma function_phases_step (imgs : list string) (e : event) (d d' : t) :
  Sound function_status_text function_final_notice imgs d ->
  shares d = [] /\ forallb function_phase (promises d) = true ->
  step_view B function_status_text function_rule
    FunctionVersion.processImages_resume d d' e ->
  shares d' = [] /\ forallb function_phase (promises d') = true.
Proof.
  intros HS [Hs Hph] Hview.
  destruct Hview as [k h tm i l1 l2 Hp Hcb -> | k h tm l1 l2 Hp Hcb ->
                    | e i old new dp df dl sh Hr HT Hpend | Hj Hall ->].
  - unfold processImage, set_phase.
    cbn [promises shares with_promises with_pending].
    split; [assumption|]. now apply forallb_set_nth.
  - destruct (removeStatusDisplay_fields (with_pending (l1 ++ l2) d))
      as (_ & _ & _ & _ & Hpr & _ & Hsh & _).
    now rewrite Hpr, Hsh.
  - destruct HT as [_ Hpr _ _ _ _ _ _ Hsh _]. rewrite Hpr, Hsh, Hs.
    destruct Hr; (split; [reflexivity | now apply forallb_set_nth]).
  - destruct (resume_fields function_status_text function_final_notice
                FunctionVersion.processImages_resume function_resume_good
                imgs d HS Hj) as (Hpr & _ & Hsh).
    now rewrite Hpr, Hsh.
Qed.

(** While the page stays at one address, the function version saves
    exactly the images counted as processed, each once, under the names
    the class uses; it never opens a share sheet. *)
Theorem function_saved_files
  (href : string) (imgs : list string) (es : list event) (d : t) :
  fired_at href es ->
  FunctionRun.run B es (FunctionVersion.downloadAllImages imgs) = Some d ->
  NoDup (downloads d)
  /\ shares d = []
  /\ forall i f,
       nth_error (filenames_prefix_once B href imgs) i = Some f ->
       (In f (downloads d) <-> nth_error (promises d) i = Some (Resolved true)).
Proof.
  rewrite function_run_with. intros Hes Hrun.
  set (names := filenames_prefix_once B href imgs).
  set (P := fun d => Sound function_status_text function_final_notice imgs d
                     /\ Saves names d /\ all_saved names d
                     /\ shares d = []
                     /\ forallb function_phase (promises d) = true).
  assert (H : P d).
  { apply (run_with_invariant (FunctionRun.step B)
             (fun e => match e with Fire _ h => h = href | _ => True end) P)
      with (es := es) (d := FunctionVersion.downloadAllImages imgs);
      try assumption.
    - intros e d0 d1 He (H0 & V0 & A0 & N0) Hstep.
      pose proof (function_step_view B _ _ _ Hstep) as Hv.
      split; [|split; [|split]].
      + exact (sound_step B function_weight _ _ _ _ function_rule_good
                 function_resume_good imgs e d0 d1 H0 Hv).
      + exact (saves_step B function_weight _ _ _ _ function_rule_good
                 function_resume_good href imgs names
                 (filenames_prefix_once_nth B href imgs)
                 (filenames_inj B href imgs) e d0 d1 H0 V0 He Hv).
      + exact (all_saved_step B function_weight _ _ _ _ function_rule_good
                 function_resume_good imgs names function_rule_saving
                 e d0 d1 H0 V0 A0 Hv).
      + exact (function_phases_step imgs e d0 d1 H0 N0 Hv).
    - destruct (downloadAllImages_start imgs) as (Hsch & Hd & Hs).
      destruct (scheduled_saves names _ Hsch Hd Hs) as (HV & HA & Hph).
      split; [apply downloadAllImages_sound|].
      split; [assumption|]. split; [assumption|]. now split. }
  destruct H as (HS & HV & HA & Hsh & Hph).
  split; [apply (sv_nodup _ _ HV)|]. split; [assumption|].
  intros i f Hi. split.
  - intros Hf. destruct (sv_downloads _ _ HV f Hf) as (j & ph & Hj & Hpj & Hsv).
    assert (j = i) by exact (filenames_inj B href imgs j i f Hj Hi). subst j.
    pose proof (forallb_nth_error _ _ _ _ Hph Hpj) as Hfp.
    destruct ph as [| | | | |[]]; try discriminate. assumption.
  - intros Hp. now apply (HA i (Resolved true) f).
Qed.

End FunctionRuns.

(** Two images, the second saved, the first failing afterwards. *)
Lemma function_counters_witness :
  let B := sample_browser "Mozilla/5.0 (X11; Linux x86_64)" false in
  let imgs := ["https://cdn.example.com/a.png"; "https://cdn.example.com/b.png"] in
  let href := "https://example.com/gallery" in
  let es := [ImageDownloader.Fire 0 href; ImageDownloader.Fire 0 href;
             ImageDownloader.OnLoad 1 true; ImageDownloader.BlobReady 1 true;
             ImageDownloader.OnError 0; ImageDownloader.AllSettled] in
  let d := FunctionRun.state_after B imgs es in
  ImageDownloader.processedCount d + ImageDownloader.failedCount d = 2.
Proof.
  intros B imgs href es d.
  assert (Hrun : FunctionRun.run B es (FunctionVersion.downloadAllImages imgs)
                 = Some d) by (vm_compute; reflexivity).
  destruct (function_counters B imgs es d Hrun) as (_ & _ & _ & Hdone & _).
  apply Hdone. vm_compute. reflexivity.
Defined.

(** The same run ends on a green message although one image failed. *)
Lemma function_status_and_message_witness :
  let B := sample_browser "Mozilla/5.0 (X11; Linux x86_64)" false in
  let imgs := ["https://cdn.example.com/a.png"; "https://cdn.example.com/b.png"] in
  let href := "https://example.com/gallery" in
  let es := [ImageDownloader.Fire 0 href; ImageDownloader.Fire 0 href;
             ImageDownloader.OnLoad 1 true; ImageDownloader.BlobReady 1 true;
             ImageDownloader.OnError 0; ImageDownloader.AllSettled] in
  let d := FunctionRun.state_after B imgs es in
  ImageDownloader.notices d =
  [{| ImageDownloader.style := "#4CAF50";
      ImageDownloader.html := "Download complete! 1 images downloaded. Failed: 1";
      ImageDownloader.duration := 5000 |}].
Proof.
  intros B imgs href es d.
  assert (Hrun : FunctionRun.run B es (FunctionVersion.downloadAllImages imgs)
                 = Some d) by (vm_compute; reflexivity).
  destruct (function_status_and_message B imgs es d Hrun) as (_ & Hdone & _).
  destruct Hdone as [Hn _]; [vm_compute; reflexivity|].
  rewrite Hn. vm_compute. reflexivity.
Defined.

(** In that run the second image, and only it, was saved. *)
Lemma function_saved_files_witness :
  let B := sample_browser "Mozilla/5.0 (X11; Linux x86_64)" false in
  let imgs := ["https://cdn.example.com/a.png"; "https://cdn.example.com/b.png"] in
  let href := "https://example.com/gallery" in
  let es := [ImageDownloader.Fire 0 href; ImageDownloader.Fire 0 href;
             ImageDownloader.OnLoad 1 true; ImageDownloader.BlobReady 1 true;
             ImageDownloader.OnError 0; ImageDownloader.AllSettled] in
  let d := FunctionRun.state_after B imgs es in
  In "images_2.png" (ImageDownloader.downloads d)
  /\ ~ In "images_1.png" (ImageDownloader.downloads d).
Proof.
  intros B imgs href es d.
  assert (Hes : RunSpec.fired_at href es) by (repeat constructor).
  assert (Hrun : FunctionRun.run B es (FunctionVersion.downloadAllImages imgs)
                 = Some d) by (vm_compute; reflexivity).
  destruct (function_saved_files B href imgs es d Hes Hrun) as (_ & _ & Hiff).
  split.
  - apply (Hiff 1 "images_2.png"); vm_compute; reflexivity.
  - intros Hin. apply (Hiff 0 "images_1.png") in Hin; [|vm_compute; reflexivity].
    vm_compute in Hin. discriminate Hin.
Defined.

(** ** More on names *)

Section NameFacts.

Import StringFacts.

Lemma strip_leading_only_slashes (n : nat) : strip_leading "/" (slashes n) = "".
Proof. induction n as [|n IH]; simpl; [reflexivity | exact IH]. Qed.

Lemma strip_leading_app_slashes (p : string) (n : nat) :
  strip_leading "/" (p ++ slashes n) =
  if strip_leading "/" p =? "" then "" else strip_leading "/" p ++ slashes n.
Proof.
  induction p as [|a p IH].
  - simpl. apply strip_leading_only_slashes.
  - change (strip_leading "/" (String a p ++ slashes n))
      with (if (a =? "/")%char then strip_leading "/" (p ++ slashes n)
            else String a (p ++ slashes n)).
    change (strip_leading "/" (String a p))
      with (if (a =? "/")%char then strip_leading "/" p else String a p).
    destruct (a =? "/")%char; [exact IH | reflexivity].
Qed.

(** Trimming does not see the slashes around a path. *)
Lemma trim_slashes_around (p : string) (lead trail : nat) :
  trim_slashes (slashes lead ++ p ++ slashes trail) = trim_slashes p.
Proof.
  unfold trim_slashes. rewrite strip_leading_slashes, strip_leading_app_slashes.
  destruct (String.eqb_spec (strip_leading "/" p) "") as [E|E].
  - now rewrite E.
  - apply strip_trailing_slashes.
Qed.

Variable B : Browser.

(** Two addresses whose paths differ only by slashes in front and behind
    give the same prefix. *)
Theorem prefix_ignores_outer_slashes (href1 href2 p : string) (lead trail : nat) :
  URL_pathname B href1 = Some p ->
  URL_pathname B href2 = Some (slashes lead ++ p ++ slashes trail) ->
  getFileNameFromUrl B href2 = getFileNameFromUrl B href1.
Proof.
  intros H1 H2. unfold getFileNameFromUrl.
  now rewrite H1, H2, trim_slashes_around.
Qed.

Lemma no_slash_app (a b : string) : no_slash a -> no_slash b -> no_slash (a ++ b).
Proof.
  unfold no_slash. intros Ha Hb. now rewrite all_chars_app, Ha, Hb.
Qed.

Lemma no_slash_remove_char (c : ascii) (s : string) :
  no_slash s -> no_slash (remove_char c s).
Proof.
  unfold no_slash. induction s as [|a s IH]; simpl; [auto|].
  intros H. apply andb_prop in H as [Ha Hs].
  destruct (a =? c)%char; simpl; [auto | now rewrite Ha, IH].
Qed.

Lemma no_slash_nth (segs : list string) (k : nat) :
  Forall no_slash segs -> no_slash (nth k segs "").
Proof.
  intros H. revert k. induction H as [|seg segs Hseg _ IH]; intros [|k]; simpl;
    try reflexivity; auto.
Qed.

Lemma all_chars_impl (f g : ascii -> bool) (s : string) :
  (forall c, f c = true -> g c = true) ->
  all_chars f s = true -> all_chars g s = true.
Proof.
  intros Hfg. induction s as [|a s IH]; simpl; [auto|].
  intros H. apply andb_prop in H as [Ha Hs]. now rewrite (Hfg _ Ha), IH.
Qed.

Lemma alnum_no_slash (s : string) : all_chars is_alnum s = true -> no_slash s.
Proof.
  apply all_chars_impl. intros c Hc.
  destruct (Ascii.eqb_spec c "/") as [->|]; [discriminate | reflexivity].
Qed.

Lemma digit_alnum (c : ascii) : is_digit c = true -> is_alnum c = true.
Proof. unfold is_alnum. intros ->. now rewrite !orb_true_r. Qed.

Lemma getFileNameFromUrl_no_slash (href : string) :
  no_slash (getFileNameFromUrl B href).
Proof.
  unfold getFileNameFromUrl.
  destruct (URL_pathname B href) as [p|]; [|reflexivity]. cbv zeta.
  pose proof (split_segments_no_slash (trim_slashes p)) as Hsegs.
  destruct ((3 <=? List.length (split "/" (trim_slashes p)))%nat
            && (nth 0 (split "/" (trim_slashes p)) "" =? "condo"))%bool;
    [|reflexivity].
  apply (no_slash_app "condo_"); [reflexivity|].
  apply no_slash_app; [apply no_slash_remove_char; now apply no_slash_nth|].
  apply (no_slash_app "_"); [reflexivity|].
  destruct (startsWith "#" _); now apply no_slash_nth.
Qed.

(** A download name is a plain file name: neither the prefix nor the whole
    name holds a slash, whatever the page address and the image URL. *)
Theorem image_filename_no_slash (href url : string) (index : nat) :
  no_slash (getFileNameFromUrl B href)
  /\ no_slash (image_filename B href url index).
Proof.
  split; [apply getFileNameFromUrl_no_slash|].
  unfold image_filename. cbv zeta.
  apply no_slash_app; [apply getFileNameFromUrl_no_slash|].
  apply (no_slash_app "_"); [reflexivity|].
  apply no_slash_app.
  - apply alnum_no_slash.
    apply (all_chars_impl is_digit); [apply digit_alnum | apply of_nat_digits].
  - apply (no_slash_app "."); [reflexivity|].
    apply alnum_no_slash, or_jpg_alnum.
Qed.

Lemma lower_char_lower (c : ascii) :
  is_alnum c = true -> (is_lower (lower_char c) || is_digit (lower_char c))%bool = true.
Proof.
  destruct c as [[] [] [] [] [] [] [] []]; intros H; try discriminate H;
    reflexivity.
Qed.

Lemma toLowerCase_lower (s : string) :
  all_chars is_alnum s = true ->
  all_chars (fun c => (is_lower c || is_digit c)%bool) (toLowerCase s) = true.
Proof.
  unfold toLowerCase.
  induction s as [|a s IH]; simpl; [reflexivity|].
  intros H. apply andb_prop in H as [Ha Hs].
  now rewrite (lower_char_lower _ Ha), (IH Hs).
Qed.

(** The extension of a download name is never empty and is made of
    lower-case letters and digits only; an extension found in the URL is
    never the empty string, so [jpg] is used only when none is found. *)
Theorem extension_lower_alnum (url : string) :
  or_jpg (getFileExtension B url) <> ""
  /\ all_chars (fun c => (is_lower c || is_digit c)%bool)
       (or_jpg (getFileExtension B url)) = true
  /\ (forall e, getFileExtension B url = Some e ->
                e <> "" /\ or_jpg (getFileExtension B url) = e).
Proof.
  unfold getFileExtension.
  destruct (URL_pathname B url) as [p|];
    [|split; [discriminate | split; [reflexivity | discriminate]]].
  destruct (match_extension p) as [g|] eqn:E;
    [|split; [discriminate | split; [reflexivity | discriminate]]].
  destruct (match_extension_sound _ _ E) as (_ & _ & _ & Hne & Halnum & _).
  pose proof (toLowerCase_nonempty _ Hne) as Hlow.
  assert (Hor : or_jpg (Some (toLowerCase g)) = toLowerCase g).
  { simpl. apply String.eqb_neq in Hlow. now rewrite Hlow. }
  rewrite Hor. split; [assumption|]. split; [now apply toLowerCase_lower|].
  intros e He. injection He as <-. now split.
Qed.

End NameFacts.

(** The listing page with and without slashes around its path. *)
Lemma prefix_ignores_outer_slashes_witness :
  getFileNameFromUrl (sample_browser "" false) "https://example.com//condo/the-park/12//"
  = getFileNameFromUrl (sample_browser "" false) "https://example.com/condo/the-park/12".
Proof.
  apply (prefix_ignores_outer_slashes (sample_browser "" false)
           "https://example.com/condo/the-park/12"
           "https://example.com//condo/the-park/12//"
           "/condo/the-park/12" 1 2); reflexivity.
Defined.

(** An image URL with an upper-case extension and a query. *)
Lemma extension_lower_alnum_witness :
  or_jpg (getFileExtension (sample_browser "" false)
            "https://cdn.example.com/photos/Room.JPG?w=800") = "jpg"
  /\ "jpg" <> "".
Proof.
  destruct (extension_lower_alnum (sample_browser "" false)
              "https://cdn.example.com/photos/Room.JPG?w=800") as (_ & _ & H).
  destruct (H "jpg" eq_refl) as [Hne Heq]. split; assumption.
Defined.

(** ** The start-up hook *)

Section ButtonFacts.

Import Buttons.

Lemma wired_spec (el : element) : wired_b el = true <-> wired el.
Proof.
  unfold wired_b, wired. destruct (onclick el) as [v|].
  - rewrite includes_spec. split.
    + intros H. now exists v.
    + intros (v' & Hv & H). now injection Hv as ->.
  - split; [discriminate | intros (v & Hv & _); discriminate].
Qed.

Lemma hide_one_cases (el : element) :
  hide_one el =
  if wired_b el
  then {| tag := tag el; onclick := onclick el; display := "none" |}
  else el.
Proof.
  unfold hide_one, selected, hide_if_wired, wired_b.
  destruct (onclick el) as [v|].
  - destruct (String.eqb_spec v "") as [->|Hv].
    + simpl. now destruct (tag el =? "button"), (tag el =? "a").
    + destruct (includes "downloadAllImages" v); simpl; [reflexivity|].
      now destruct (tag el =? "button"), (tag el =? "a").
  - simpl. now destruct (tag el =? "button"), (tag el =? "a").
Qed.

Lemma hide_one_idempotent (el : element) : hide_one (hide_one el) = hide_one el.
Proof.
  rewrite !hide_one_cases. destruct (wired_b el) eqn:E; [|now rewrite E].
  unfold wired_b in *. cbn [onclick tag]. now rewrite E.
Qed.

Lemma getPlatform_ios (B : Browser) :
  getPlatform B = ios <-> test_any ["iPad"; "iPhone"; "iPod"] (userAgent B) = true.
Proof.
  unfold getPlatform. change ios_tokens with ["iPad"; "iPhone"; "iPod"].
  destruct (test_any ["iPad"; "iPhone"; "iPod"] (userAgent B)).
  - tauto.
  - destruct (test_any_i android_tokens (userAgent B)); split; discriminate.
Qed.

(** The hook changes the document only on the platform class [ios], the
    one [getPlatform] reports.  There it leaves the number and order of the
    elements, their names and attributes alone, hides every element whose
    [onclick] attribute names [downloadAllImages], whatever its tag, and
    leaves every other element, buttons and links included, as it was. *)
Theorem hideDownloadButtonOnIOS_spec (B : Browser) (document : list element) :
  (getPlatform B <> ios ->
   hideDownloadButtonOnIOS (userAgent B) document = document)
  /\ (getPlatform B = ios ->
      List.length (hideDownloadButtonOnIOS (userAgent B) document)
      = List.length document
      /\ forall k el,
           nth_error document k = Some el ->
           exists el',
             nth_error (hideDownloadButtonOnIOS (userAgent B) document) k = Some el'
             /\ tag el' = tag el
             /\ onclick el' = onclick el
             /\ (wired el -> display el' = "none")
             /\ (~ wired el -> el' = el)).
Proof.
  unfold hideDownloadButtonOnIOS. cbv zeta.
  pose proof (getPlatform_ios B) as Hios.
  destruct (test_any ["iPad"; "iPhone"; "iPod"] (userAgent B)).
  - split; [intros H; exfalso; apply H; now apply Hios|].
    intros _. split; [apply length_map|].
    intros k el Hk. exists (hide_one el).
    split; [exact (map_nth_error hide_one k document Hk)|].
    rewrite hide_one_cases. pose proof (wired_spec el) as Hw.
    destruct (wired_b el); cbn [tag onclick display].
    + repeat split. intros H. exfalso. apply H. now apply Hw.
    + repeat split. intros H. apply Hw in H. discriminate.
  - split; [reflexivity|]. intros H. apply Hios in H. discriminate.
Qed.

(** Running the hook again changes nothing more. *)
Theorem hideDownloadButtonOnIOS_idempotent (ua : string) (document : list element) :
  hideDownloadButtonOnIOS ua (hideDownloadButtonOnIOS ua document)
  = hideDownloadButtonOnIOS ua document.
Proof.
  unfold hideDownloadButtonOnIOS. cbv zeta.
  destruct (test_any ["iPad"; "iPhone"; "iPod"] ua); [|reflexivity].
  rewrite map_map. apply map_ext. exact hide_one_idempotent.
Qed.

End ButtonFacts.

(** A page with the download button, a plain link and a wired [div], seen
    from an iPhone: the [div] is hidden, the link is not. *)
Lemma hideDownloadButtonOnIOS_spec_witness :
  let B := sample_browser
             "Mozilla/5.0 (iPhone; CPU iPhone OS 17_0 like Mac OS X)" false in
  let wired_div :=
    {| Buttons.tag := "div"; Buttons.onclick := Some "track(); downloadAllImages();";
       Buttons.display := "block" |} in
  let link :=
    {| Buttons.tag := "a"; Buttons.onclick := None; Buttons.display := "inline" |} in
  let document :=
    [{| Buttons.tag := "button"; Buttons.onclick := Some "downloadAllImages()";
        Buttons.display := "inline-block" |}; link; wired_div] in
  (exists el',
      nth_error (Buttons.hideDownloadButtonOnIOS (userAgent B) document) 2 = Some el'
      /\ Buttons.display el' = "none")
  /\ nth_error (Buttons.hideDownloadButtonOnIOS (userAgent B) document) 1 = Some link.
Proof.
  intros B wired_div link document.
  assert (Hios : getPlatform B = ios) by (vm_compute; reflexivity).
  destruct (hideDownloadButtonOnIOS_spec B document) as [_ Hhide].
  destruct (Hhide Hios) as [_ Hel]. split.
  - destruct (Hel 2 wired_div eq_refl) as (el' & Hn & _ & _ & Hw & _).
    exists el'. split; [assumption|]. apply Hw.
    exists "track(); downloadAllImages();". split; [reflexivity|].
    exists "track(); ", "();". reflexivity.
  - destruct (Hel 1 link eq_refl) as (el' & Hn & _ & _ & _ & Hnw).
    rewrite Hn. f_equal. apply Hnw.
    intros (v & Hv & _). discriminate Hv.
Defined.

(** ** How many files are saved *)

Section SavedCount.

Import ImageDownloader RunSpec RunView ListFacts RunFacts ViewFacts SoundFacts
  Instances.

Local Open Scope list_scope.

Variable B : Browser.

(** With rules that save only through [downloadFile], a step keeps the
    number of downloads equal to the number of saved tasks. *)
Lemma saved_count_step (w : phase -> nat) (text : t -> string) (final : t -> notice)
  (rule : event -> nat -> phase -> phase -> nat -> nat
          -> list string -> list string -> Prop)
  (resume : t -> t) (imgs : list string) (e : event) (d d' : t) :
  good_rule w rule -> good_resume text final resume -> saving_rule rule ->
  Sound text final imgs d ->
  List.length (downloads d) = List.length (filter is_saved (promises d)) ->
  step_view B text rule resume d d' e ->
  List.length (downloads d') = List.length (filter is_saved (promises d')).
Proof.
  intros Hrule Hresume Hsaving HS Hcount Hview.
  pose proof Hrule as [_ Hmoves].
  destruct Hview as [k h tm i l1 l2 Hp Hcb -> | k h tm l1 l2 Hp Hcb ->
                    | e i old new dp df dl sh Hr HT Hpend | Hj Hall ->].
  - destruct (core_start B imgs h i tm l1 l2 d (s_core _ _ _ _ HS) Hp Hcb)
      as (Hi & _ & _).
    unfold processImage, set_phase.
    cbn [promises downloads with_promises with_pending images].
    pose proof (count_set_nth is_saved i
                  (Loading (image_filename B h (nth i (images d) ""%string) i)
                           (getFileNameFromUrl B h))
                  Scheduled (promises d) Hi) as Hc.
    simpl in Hc. lia.
  - destruct (removeStatusDisplay_fields (with_pending (l1 ++ l2) d))
      as (_ & _ & _ & _ & Hpr & Hdl & _).
    now rewrite Hpr, Hdl.
  - destruct (Hmoves _ _ _ _ _ _ _ _ Hr)
      as (_ & _ & _ & _ & _ & _ & _ & _ & _ & Hsave & Hmono).
    destruct HT as [Hi Hpr _ _ _ _ _ Hdl _ _].
    rewrite Hdl, Hpr, length_app.
    pose proof (count_set_nth is_saved i new old (promises d) Hi) as Hc.
    assert (Hdl' : List.length dl
                   = if (negb (is_saved old) && is_saved new)%bool then 1 else 0).
    { destruct (is_saved old) eqn:Hold; cbn [negb andb].
      - destruct dl as [|f dl]; [reflexivity|].
        destruct (Hsave f (or_introl eq_refl)) as (Hcar & _).
        rewrite (saved_not_carried _ _ Hcar) in Hold. discriminate.
      - destruct (is_saved new) eqn:Hnew.
        + destruct (Hsaving _ _ _ _ _ _ _ _ Hr Hnew Hold) as (f & _ & ->).
          reflexivity.
        + destruct dl as [|f dl]; [reflexivity|].
          destruct (Hsave f (or_introl eq_refl)) as (_ & _ & Hs). discriminate. }
    rewrite Hdl'.
    destruct (is_saved old) eqn:Hold; cbn [negb andb].
    + rewrite (Hmono eq_refl) in Hc. lia.
    + destruct (is_saved new); lia.
  - destruct (resume_fields text final resume Hresume imgs d HS Hj)
      as (Hpr & Hdl & _).
    now rewrite Hpr, Hdl.
Qed.

Lemma saved_resolved (l : list phase) :
  all_resolved l = true -> filter is_saved l = filter is_success l.
Proof.
  induction l as [|[| | | | |[]] l IH]; simpl; intros H; try discriminate;
    try reflexivity; now rewrite (IH H).
Qed.

Lemma saved_function_phases (l : list phase) :
  forallb function_phase l = true -> filter is_saved l = filter is_success l.
Proof.
  induction l as [|[| | | | |[]] l IH]; simpl; intros H; try discriminate;
    try reflexivity; now rewrite (IH H).
Qed.

(** On a browser without share sheet the class has saved as many files as
    there are tasks past [downloadFile]; once the join has completed that
    is the number it reports as downloaded. *)
Theorem saved_count (imgs : list string) (es : list event) (d : t) :
  direct_route B ->
  run B es (new imgs) = Some d ->
  List.length (downloads d) = List.length (filter is_saved (promises d))
  /\ (join d = Completed -> List.length (downloads d) = processedCount d).
Proof.
  rewrite class_run_with. intros Hroute Hrun.
  set (P := fun d => Sound status_text final_notice imgs d /\ no_sharing d
                     /\ List.length (downloads d)
                        = List.length (filter is_saved (promises d))).
  assert (H : P d).
  { apply (run_with_invariant (step B) (fun _ => True) P)
      with (es := es) (d := new imgs); try assumption.
    - intros e d0 d1 _ (H0 & N0 & C0) Hstep.
      pose proof (class_step_view B _ _ _ Hstep) as Hv.
      destruct (direct_view B imgs e d0 d1 Hroute H0 N0 Hv) as [Hdv N1].
      split; [|split; [assumption|]].
      + exact (sound_step B weight _ _ _ _ (class_rule_good B) class_resume_good
                 imgs e d0 d1 H0 Hv).
      + exact (saved_count_step weight _ _ _ _ imgs e d0 d1 (direct_rule_good B)
                 class_resume_good (direct_rule_saving B) H0 C0 Hdv).
    - apply Forall_True.
    - split; [apply new_sound|]. split; [apply new_no_sharing|].
      destruct imgs as [|img imgs]; [reflexivity|].
      rewrite new_fields. cbv zeta. cbn [downloads promises].
      now rewrite filter_repeat_scheduled. }
  destruct H as (HS & _ & Hc). split; [assumption|].
  intros Hj. destruct (s_completed _ _ _ _ HS Hj) as (Hall & _).
  now rewrite Hc, (saved_resolved _ Hall), (s_success _ _ _ _ HS).
Qed.

(** The function version has always saved exactly as many files as its
    counter of processed images says. *)
Theorem function_saved_count (imgs : list string) (es : list event) (d : t) :
  FunctionRun.run B es (FunctionVersion.downloadAllImages imgs) = Some d ->
  List.length (downloads d) = processedCount d.
Proof.
  rewrite function_run_with. intros Hrun.
  set (P := fun d => Sound function_status_text function_final_notice imgs d
                     /\ (shares d = [] /\ forallb function_phase (promises d) = true)
                     /\ List.length (downloads d)
                        = List.length (filter is_saved (promises d))).
  assert (H : P d).
  { apply (run_with_invariant (FunctionRun.step B) (fun _ => True) P)
      with (es := es) (d := FunctionVersion.downloadAllImages imgs);
      try assumption.
    - intros e d0 d1 _ (H0 & N0 & C0) Hstep.
      pose proof (function_step_view B _ _ _ Hstep) as Hv.
      split; [|split].
      + exact (sound_step B function_weight _ _ _ _ function_rule_good
                 function_resume_good imgs e d0 d1 H0 Hv).
      + exact (function_phases_step B imgs e d0 d1 H0 N0 Hv).
      + exact (saved_count_step function_weight _ _ _ _ imgs e d0 d1
                 function_rule_good function_resume_good function_rule_saving
                 H0 C0 Hv).
    - apply Forall_True.
    - destruct (downloadAllImages_start imgs) as (Hsch & Hd & Hs).
      destruct (scheduled_saves [] _ Hsch Hd Hs) as (_ & _ & Hph).
      split; [apply downloadAllImages_sound|]. split; [now split|].
      rewrite Hd, (saved_function_phases _ Hph).
      rewrite <- (s_success _ _ _ _ (downloadAllImages_sound imgs)).
      destruct imgs as [|img imgs]; [reflexivity|].
      now rewrite downloadAllImages_fields. }
  destruct H as (HS & [_ Hph] & Hc).
  now rewrite Hc, (saved_function_phases _ Hph), (s_success _ _ _ _ HS).
Qed.

End SavedCount.

(** One image saved, one failed, on a desktop browser. *)
Lemma saved_count_witness :
  let B := sample_browser "Mozilla/5.0 (X11; Linux x86_64)" false in
  let imgs := ["https://cdn.example.com/a.png"; "https://cdn.example.com/b.png"] in
  let href := "https://example.com/gallery" in
  let es := [ImageDownloader.Fire 0 href; ImageDownloader.Fire 0 href;
             ImageDownloader.OnError 0; ImageDownloader.OnLoad 1 true;
             ImageDownloader.BlobReady 1 true; ImageDownloader.Resume 1;
             ImageDownloader.AllSettled] in
  let d := RunSpec.state_after B imgs es in
  List.length (ImageDownloader.downloads d) = 1.
Proof.
  intros B imgs href es d.
  assert (Hrun : ImageDownloader.run B es (ImageDownloader.new imgs) = Some d)
    by (vm_compute; reflexivity).
  assert (Hroute : RunView.direct_route B) by (right; reflexivity).
  destruct (saved_count B imgs es d Hroute Hrun) as [_ Hdone].
  rewrite Hdone; vm_compute; reflexivity.
Defined.

Lemma function_saved_count_witness :
  let B := sample_browser "Mozilla/5.0 (X11; Linux x86_64)" false in
  let imgs := ["https://cdn.example.com/a.png"; "https://cdn.example.com/b.png"] in
  let href := "https://example.com/gallery" in
  let es := [ImageDownloader.Fire 0 href; ImageDownloader.Fire 0 href;
             ImageDownloader.OnLoad 1 true; ImageDownloader.BlobReady 1 true] in
  List.length (ImageDownloader.downloads (FunctionRun.state_after B imgs es)) = 1.
Proof.
  intros B imgs href es.
  assert (Hrun : FunctionRun.run B es (FunctionVersion.downloadAllImages imgs)
                 = Some (FunctionRun.state_after B imgs es))
    by (vm_compute; reflexivity).
  rewrite (function_saved_count B imgs es _ Hrun). vm_compute. reflexivity.
Defined.

(** ** The three platform classes *)

(** [getPlatform] answers [ios] exactly for the user agents that hold an
    iOS token, and [android] exactly for those that hold no iOS token but
    a token of the Android family in any letter case. *)
Theorem getPlatform_classes (B : Browser) :
  (getPlatform B = ios <-> matches_ios (userAgent B))
  /\ (getPlatform B = android <->
      ~ matches_ios (userAgent B) /\ matches_android (userAgent B)).
Proof.
  unfold getPlatform.
  rewrite <- test_ios_spec, <- test_android_spec.
  destruct (test_any ios_tokens (userAgent B));
    destruct (test_any_i android_tokens (userAgent B)); split; split;
    try reflexivity; try discriminate;
    try (intros _; split; [discriminate | reflexivity]);
    intros (Hios & Handroid); try discriminate Handroid;
    exfalso; apply Hios; reflexivity.
Qed.

(** A lower-case [android] is enough. *)
Lemma getPlatform_classes_witness :
  getPlatform (sample_browser "Dalvik/2.1.0 (Linux; U; android 11)" false) = android.
Proof.
  apply (proj2 (getPlatform_classes
                  (sample_browser "Dalvik/2.1.0 (Linux; U; android 11)" false))).
  split.
  - intros (tok & Hin & pre & post & H).
    assert (Hno : test_any ios_tokens "Dalvik/2.1.0 (Linux; U; android 11)" = true).
    { apply test_ios_spec. exists tok. split; [assumption|]. now exists pre, post. }
    vm_compute in Hno. discriminate Hno.
  - exists "Android". split; [simpl; auto|].
    exists "Dalvik/2.1.0 (Linux; U; ", "android", " 11)". split; reflexivity.
Defined.
